(** * License resolution pipeline of the Free Music Finder dataset tools

    A shallow embedding of the maintenance scripts

      - [fix-missing-licenses-accelerated.mjs]  (evidence extraction and
        reconciliation, fallback chain, dataset merge),
      - [fix-missing-licenses-exact.mjs]        (exact-match fixer),
      - [fix-missing-licenses-exhaustive.mjs]   (multi-pass orchestrator),
      - [reconcile-url-health-from-reports.mjs] (report replay),

    together with the properties the design document states about them.

    Conventions.  A JavaScript [Set] is an insertion-ordered list without
    duplicates; a [Map] that is only read through [get]/[has] is a [gmap];
    a [Map] that is iterated is an insertion-ordered association list.
    Nullable fields are [option]s.  The network, the URL parser, the
    regular-expression engine and JSON parsing belong to the platform and
    are the fields of the [Platform] class; every function of the scripts
    is written on top of them. *)

From Stdlib Require Import ZArith List String Ascii Bool Lia Floats DecimalString.
From Stdlib Require Import Sorting.Permutation OrderedType OrderedTypeEx.
From stdpp Require Import base option list sorting gmap strings.

Open Scope string_scope.
Open Scope list_scope.
Open Scope Z_scope.

(** ** JavaScript sets *)

Module JsSet.

(** Insertion-ordered, duplicate-free; [size] is the length. *)
Definition t := list Z.

Definition has (x : Z) (s : t) : bool := bool_decide (x ∈ s).

(** [s.add(x)] *)
Definition add (x : Z) (s : t) : t := if has x s then s else s ++ [x].

(** [new Set(iterable)] *)
Definition of_list (l : list Z) : t := foldl (λ s x, add x s) [] l.

Definition size (s : t) : Z := Z.of_nat (length s).

End JsSet.

(** ** Evidence reconciler ([decideMappedId]) *)

Record Evidence := {
  typeIds : JsSet.t;
  sectionIds : JsSet.t;
  nameIds : JsSet.t;
}.

Record MappedId := {
  bcId : Z;
  source : string;
}.

(** [new Set([...typeIds, ...sectionIds, ...nameIds])] *)
Definition allIds (ev : Evidence) : JsSet.t :=
  JsSet.of_list (typeIds ev ++ sectionIds ev ++ nameIds ev).

(** [s.size === 1] and then [[...s][0]]: the set is a singleton and its
    only element is taken. *)
Definition single (s : JsSet.t) : option Z :=
  if JsSet.size s =? 1 then head s else None.

Definition decideMappedId (ev : Evidence) : option MappedId :=
  match single (typeIds ev) with
  | Some x => Some {| bcId := x; source := "license_type" |}
  | None =>
    match single (allIds ev) with
    | Some x => Some {| bcId := x; source := "combined_single" |}
    | None =>
      match single (sectionIds ev) with
      | Some x => Some {| bcId := x; source := "license_section" |}
      | None =>
        match single (nameIds ev) with
        | Some x => Some {| bcId := x; source := "license_name" |}
        | None => None
        end
      end
    end
  end.

(** The candidate set a provenance tag stands for: the three strategies'
    own sets, and the union for the unanimous combination. *)
Definition candidatesOf (ev : Evidence) (src : string) : JsSet.t :=
  if String.eqb src "license_type" then typeIds ev
  else if String.eqb src "license_section" then sectionIds ev
  else if String.eqb src "license_name" then nameIds ev
  else if String.eqb src "combined_single" then allIds ev
  else [].

(** ** Strings and numbers *)

(** A number inside a template literal. *)
Definition showZ (z : Z) : string := NilZero.string_of_int (Z.to_int z).

Definition digitOf (c : ascii) : option Z :=
  let n := Z.of_N (N_of_ascii c) in
  if (48 <=? n) && (n <=? 57) then Some (n - 48) else None.

Fixpoint parseDigits (acc : Z) (s : string) : Z :=
  match s with
  | String c s' =>
    match digitOf c with
    | Some d => parseDigits (acc * 10 + d) s'
    | None => acc
    end
  | EmptyString => acc
  end.

(** The Number nearest to a non-negative integer (round to nearest, ties
    to even), as the integer it is: integers below [2 ^ 53] are Numbers,
    a larger one keeps its 53 leading bits.  Past the largest Number the
    result is [Infinity], here [None]. *)
Definition toDouble (n : Z) : option Z :=
  if n <? 2 ^ 53 then Some n
  else
    let e := Z.log2 n - 52 in
    let q := n / 2 ^ e in
    let r := n mod 2 ^ e in
    let half := 2 ^ (e - 1) in
    let q' := if (half <? r) || ((r =? half) && Z.odd q) then q + 1 else q in
    if q' * 2 ^ e <? 2 ^ 1024 then Some (q' * 2 ^ e) else None.

(** [Number.parseInt(s, 10)] on the digit runs the patterns capture: the
    decimal value of the leading digits, as the Number Node makes of it
    (correctly rounded).  [NaN] and [Infinity], which no set of ids holds,
    are [None]. *)
Definition parseInt (s : string) : option Z :=
  match s with
  | String c _ =>
    match digitOf c with
    | Some _ => toDouble (parseDigits 0 s)
    | None => None
    end
  | EmptyString => None
  end.

(** [s.startsWith(p)] *)
Definition startsWith (s p : string) : bool := String.prefix p s.

(** [s.split(sep)] for a one-character separator. *)
Fixpoint split (sep : ascii) (s : string) : list string :=
  match s with
  | EmptyString => [EmptyString]
  | String c s' =>
    if Ascii.eqb c sep then EmptyString :: split sep s'
    else match split sep s' with
         | [] => [String c EmptyString]
         | p :: ps => String c p :: ps
         end
  end.

(** Truthiness of a string: non-empty. *)
Definition nonEmpty (s : string) : bool := negb (String.eqb s "").

(** [.filter(Boolean)] on an array of strings. *)
Definition filterBoolean (l : list string) : list string := filter (λ s, nonEmpty s = true) l.

(** [new Map(pairs)]: a later pair replaces an earlier one with the same key. *)
Definition Map_of `{Countable K} {V} (pairs : list (K * V)) : gmap K V :=
  foldl (λ m p, <[p.1 := p.2]> m) ∅ pairs.

(** An insertion-ordered set of strings. *)
Definition StrSet_add (x : string) (s : list string) : list string :=
  if bool_decide (x ∈ s) then s else s ++ [x].

(** ** Data model *)

Module Row.
(** A listing record of [public/urls.json]. *)
Record t := {
  url_id : Z;
  url : string;
  title : string;
  license : option Z;
  tags : list Z;
  favorite : bool;
  status : option string;
  health_checked_at : option string;
  health_reason : option string;
}.
End Row.

Module RawLicense.
(** An entry of [src/data/licenses.json] as read. *)
Record t := {
  name : option string;
  url : option string;
  bc_id : option Z;
  count : option Z;
}.
End RawLicense.

Module License.
(** A license category that passed the [validLicenses] filter. *)
Record t := {
  name : string;
  url : option string;
  bc_id : Z;
  count : Z;
}.
End License.

Module Mapped.
Record t := {
  bc_id : Z;
  name : option string;
  source : string;
}.
End Mapped.

Module Outcome.
(** A resolution outcome of the accelerated fixer. *)
Record t := {
  url_id : Z;
  url : string;
  title : string;
  status : option Z;
  final_url : option string;
  archive_status : option Z;
  archive_url : option string;
  alias_url : option string;
  mapped : option Mapped.t;
  reason : option string;
}.
End Outcome.

Record Options := {
  write : bool;
  concurrency : Z;
  timeoutMs : Z;
  retries : nat;
  archiveRetries : nat;
  progressEvery : Z;
  useArchive : bool;
  useSearchAlias : bool;
  useDomainConsensus : bool;
  domainMinKnown : Z;
  domainMinPurity : float;
}.

Definition DEFAULTS : Options := {|
  write := false;
  concurrency := 12;
  timeoutMs := 15000;
  retries := 2;
  archiveRetries := 2;
  progressEvery := 25;
  useArchive := true;
  useSearchAlias := true;
  useDomainConsensus := true;
  domainMinKnown := 20;
  domainMinPurity := 1%float;
|}.

Definition LICENSE_NAME_TO_SLUG : gmap string string :=
  list_to_map [
    ("attribution_non_commercial_no_derivatives", "by-nc-nd");
    ("attribution_non_commercial_share_alike", "by-nc-sa");
    ("attribution_non_commercial", "by-nc");
    ("attribution_no_derivatives", "by-nd");
    ("attribution_share_alike", "by-sa");
    ("attribution", "by")
  ].

Definition RETRYABLE_HTTP_STATUSES : list Z := [403; 408; 425; 429; 500; 502; 503; 504].

(** ** The platform *)

(** What one [fetchText] call returns: [{ok: true, status, finalUrl, text}]
    or [{ok: false, error}]. *)
Inductive Fetched :=
| FetchOk (status : Z) (finalUrl text : string)
| FetchErr (error : string).

Definition f_ok (f : Fetched) : bool :=
  match f with FetchOk _ _ _ => true | FetchErr _ => false end.
Definition f_status (f : Fetched) : option Z :=
  match f with FetchOk st _ _ => Some st | FetchErr _ => None end.
Definition f_finalUrl (f : Fetched) : option string :=
  match f with FetchOk _ u _ => Some u | FetchErr _ => None end.
Definition f_text (f : Fetched) : option string :=
  match f with FetchOk _ _ t => Some t | FetchErr _ => None end.
Definition f_error (f : Fetched) : option string :=
  match f with FetchOk _ _ _ => None | FetchErr e => Some e end.

(** [fetched.ok && fetched.text]: the body when it is a non-empty string. *)
Definition okText (f : Fetched) : option string :=
  match f with
  | FetchOk _ _ t => if nonEmpty t then Some t else None
  | FetchErr _ => None
  end.

(** The parts of a parsed [URL] the scripts read. *)
Record URL := { hostname : string; pathname : string }.

(** The regular-expression literals of the scripts.  In the comments
    [DQ] stands for the double-quote character. *)
Inductive Pattern :=
| re_license_type_quot   (* /license_type&quot;:(\d+)/g *)
| re_license_type        (* /DQ license_type DQ:(\d+)/g *)
| re_license_name_quot   (* /license_name&quot;:&quot;([a-z_]+)&quot;/g *)
| re_license_name        (* /DQ license_name DQ:DQ([a-z_]+)DQ/g *)
| re_license_section     (* /<div id=DQ license DQ[^>]*>([\s\S]*?)<\/div>/gi *)
| re_cc_url              (* /https?:\/\/creativecommons\.org\/licenses\/[a-z-]+\/[0-9.]+\/?/gi *)
| re_album_link          (* /href=DQ(https:\/\/[^DQ]+bandcamp\.com\/album\/[^DQ?]+)[^DQ]*DQ/gi *)
| re_bandcamp_suffix     (* /\.bandcamp\.com$/i *)
| re_trailing_number     (* /-\d+$/ *)
| re_cc_anchor           (* the anchor pattern of extractCcLicenseUrls; group 2 is the href *)
| re_cc_path.            (* /^\/licenses\/([a-z-]+)\/([0-9.]+)\/?$/ *)

(** A parsed JSON value. *)
#[warnings="-register-all"]
Inductive JSON :=
| JNull
| JBool (b : bool)
| JNum (f : float)
| JStr (s : string)
| JArr (items : list JSON)
| JObj (fields : list (string * JSON)).

Class Platform := {
  (** the state of the network and of the clock *)
  World : Type;
  (** one [fetch] with redirect following and an abort timer *)
  fetchText : string → Z → World → Fetched * World;
  (** [new URL(raw)]; [None] when it throws *)
  URL_parse : string → option URL;
  toLowerCase : string → string;
  replaceAll : string → string → string → string;
  encodeURIComponent : string → string;
  (** the successive [exec] results of a pattern: [m[0]], [m[1]], ... *)
  regexExecAll : Pattern → string → list (list string);
  regexTest : Pattern → string → bool;
  (** [s.replace(pattern, by)] *)
  regexReplace : Pattern → string → string → string;
  (** [JSON.parse]; [None] when it throws *)
  JSON_parse : string → option JSON;
  (** [String(value)], as a template literal converts *)
  JSON_toString : JSON → string;
}.

(** Capture group [i] of a match. *)
Definition group (i : nat) (m : list string) : string := default "" (m !! i).

(** What [normalizeCcLicenseUrl] returns. *)
Record CcUrl := { slug : string; version : string; canonical : string }.

(** ** Effects: a state monad over the platform's world *)

Definition State (W A : Type) : Type := W → A * W.

Definition ret {W A} (x : A) : State W A := λ w, (x, w).

Definition bind {W A B} (m : State W A) (k : A → State W B) : State W B :=
  λ w, let (a, w') := m w in k a w'.

Notation "'let*' x ':=' m 'in' k" := (bind m (λ x, k))
  (at level 10, x name, m at level 100, k at level 200).

(** [items.map(f)] with an effectful [f], one item after the other.
    [mapWithConcurrency] stores the result of item [i] at index [i] of its
    output whatever the interleaving of its workers; the interleaving only
    changes the order in which the world is asked, and the world is
    arbitrary. *)
Fixpoint mapM {W A B} (mapper : A → State W B) (items : list A) : State W (list B) :=
  match items with
  | [] => ret []
  | item :: rest =>
    let* r := mapper item in
    let* rs := mapM mapper rest in
    ret (r :: rs)
  end.

(** ** The accelerated fixer ([fix-missing-licenses-accelerated.mjs]) *)

Module Accelerated.

Record Consensus := {
  total : Z;
  topBcId : option Z;
  topCount : Z;
  purity : float;
}.

Record Context := {
  options : Options;
  validBcIds : JsSet.t;
  slugToBcId : gmap string Z;
  domainConsensus : gmap string Consensus;
  licenseById : gmap Z string;
}.

Record Summary := {
  processed : Z;
  mapped : Z;
  unresolved : Z;
  mappedBySource : gmap string Z;
  unresolvedReasons : gmap string Z;
}.

Record DatasetCounts := {
  total_urls : Z;
  missing_before : Z;
  missing_after : Z;
  visible_active : Z;
  dead : Z;
  unverified : Z;
}.

Record Report := {
  generated_at : string;
  report_options : Options;
  dataset : DatasetCounts;
  summary : Summary;
  results : list Outcome.t;
}.

(** [public/urls.json] and [src/data/licenses.json]. *)
Record Files := {
  urls : list Row.t;
  licenses : list RawLicense.t;
}.

(** A JavaScript number from an exact count. *)
Definition toNumber (z : Z) : float := PrimFloat.of_uint63 (Uint63.of_Z z).

Definition normalizedStatus (rawStatus : option string) : string :=
  match rawStatus with
  | Some s =>
    if String.eqb s "active" || String.eqb s "dead" || String.eqb s "unverified"
    then s else "active"
  | None => "active"
  end.

Definition isVisibleActiveRow (row : Row.t) (validBcIds : JsSet.t) : bool :=
  String.eqb (normalizedStatus (Row.status row)) "active"
  && match Row.license row with
     | Some l => JsSet.has l validBcIds
     | None => false
     end.

(** [counts.set(k, (counts.get(k) || 0) + 1)] on an iterated [Map]. *)
Fixpoint bump (k : Z) (counts : list (Z * Z)) : list (Z * Z) :=
  match counts with
  | [] => [(k, 1)]
  | (k', c) :: rest =>
    if k =? k' then (k', c + 1) :: rest else (k', c) :: bump k rest
  end.

(** The [bucket] update of [buildDomainConsensus] for one row. *)
Fixpoint bumpHost (host : string) (license : Z)
    (bucket : list (string * list (Z * Z))) : list (string * list (Z * Z)) :=
  match bucket with
  | [] => [(host, bump license [])]
  | (h, counts) :: rest =>
    if String.eqb h host then (h, bump license counts) :: rest
    else (h, counts) :: bumpHost host license rest
  end.

(** The inner loop of the summary: running [total], [topBcId], [topCount]. *)
Definition tally (acc : Z * option Z * Z) (entry : Z * Z) : Z * option Z * Z :=
  let '(total, topBcId, topCount) := acc in
  let '(bcId, count) := entry in
  if topCount <? count then (total + count, Some bcId, count)
  else (total + count, topBcId, topCount).

Definition summarizeCounts (counts : list (Z * Z)) : Consensus :=
  let '(total, topBcId, topCount) := foldl tally (0, None, 0) counts in
  {| total := total;
     topBcId := topBcId;
     topCount := topCount;
     purity := if 0 <? total then PrimFloat.div (toNumber topCount) (toNumber total)
               else 0%float |}.

(** [match[1]] of the type-marker patterns, checked against the known ids. *)
Definition addTypeId (validBcIds : JsSet.t) (out : JsSet.t) (m : list string) : JsSet.t :=
  match parseInt (group 1 m) with
  | Some value => if JsSet.has value validBcIds then JsSet.add value out else out
  | None => out
  end.

Definition addNameId (slugToBcId : gmap string Z) (out : JsSet.t) (m : list string) : JsSet.t :=
  match LICENSE_NAME_TO_SLUG !! group 1 m with
  | None => out
  | Some slug =>
    match slugToBcId !! slug with
    | Some bcId => JsSet.add bcId out
    | None => out
    end
  end.

(** [payload?.archived_snapshots?.closest] and the like: a property of a
    parsed object. *)
Definition jget (key : string) (v : JSON) : option JSON :=
  match v with
  | JObj fields => Map_of fields !! key
  | _ => None
  end.

Definition truthy (v : JSON) : bool :=
  match v with
  | JNull => false
  | JBool b => b
  | JNum f => negb (PrimFloat.eqb f 0%float) && negb (PrimFloat.is_nan f)
  | JStr s => nonEmpty s
  | JArr _ | JObj _ => true
  end.

Definition parseWaybackAvailable (payload : JSON) : option string :=
  match jget "archived_snapshots" payload with
  | None => None
  | Some snapshots =>
    match jget "closest" snapshots with
    | None => None
    | Some closest =>
      match jget "available" closest, jget "url" closest with
      | Some (JBool true), Some (JStr u) => Some u
      | _, _ => None
      end
    end
  end.

Section WithPlatform.
Context `{Platform}.

Definition M (A : Type) : Type := State World A.

Definition backoffMs (attempt : Z) (base cap : Z) : Z :=
  Z.min cap (base * 2 ^ Z.max 0 (attempt - 1)).

(** The loop of [fetchWithRetries] with [retriesLeft = retries + 1 - attempt].
    The backoff sleeps between the attempts take time only. *)
Fixpoint fetchAttempts (url : string) (timeoutMs : Z) (retryStatuses : list Z)
    (retriesLeft : nat) : M Fetched :=
  let* fetched := fetchText url timeoutMs in
  match retriesLeft with
  | O => ret fetched
  | S n =>
    match fetched with
    | FetchOk st _ _ =>
      if bool_decide (st ∈ retryStatuses)
      then fetchAttempts url timeoutMs retryStatuses n
      else ret fetched
    | FetchErr _ => fetchAttempts url timeoutMs retryStatuses n
    end
  end.

Definition fetchWithRetries (url : string) (timeoutMs : Z) (retries : nat) : M Fetched :=
  fetchAttempts url timeoutMs RETRYABLE_HTTP_STATUSES retries.

Definition normalizeCcLicenseUrl (rawUrl : string) : option CcUrl :=
  match URL_parse rawUrl with
  | None => None
  | Some parsed =>
    if negb (String.eqb (toLowerCase (hostname parsed)) "creativecommons.org") then None
    else
      match filterBoolean (split "/" (toLowerCase (pathname parsed))) with
      | p0 :: slug :: version :: _ =>
        if String.eqb p0 "licenses"
        then Some {| slug := slug; version := version;
                     canonical := "https://creativecommons.org/licenses/"
                                  +:+ slug +:+ "/" +:+ version +:+ "/" |}
        else None
      | _ => None
      end
  end.

Definition extractLicenseTypeIds (html : string) (validBcIds : JsSet.t) : JsSet.t :=
  foldl (addTypeId validBcIds) []
        (regexExecAll re_license_type_quot html ++ regexExecAll re_license_type html).

Definition extractLicenseNameIds (html : string) (slugToBcId : gmap string Z) : JsSet.t :=
  foldl (addNameId slugToBcId) []
        (regexExecAll re_license_name_quot html ++ regexExecAll re_license_name html).

Definition addSectionUrl (slugToBcId : gmap string Z) (out : JsSet.t) (urlMatch : list string) : JsSet.t :=
  match normalizeCcLicenseUrl (group 0 urlMatch) with
  | None => out
  | Some normalized =>
    match slugToBcId !! slug normalized with
    | Some bcId => JsSet.add bcId out
    | None => out
    end
  end.

Definition extractLicenseSectionIds (html : string) (slugToBcId : gmap string Z) : JsSet.t :=
  foldl (λ out sectionMatch,
           foldl (addSectionUrl slugToBcId) out
                 (regexExecAll re_cc_url (group 1 sectionMatch)))
        [] (regexExecAll re_license_section html).

(** The three strategies on one page, as [inspectRow] runs them. *)
Definition extractEvidence (text : string) (validBcIds : JsSet.t)
    (slugToBcId : gmap string Z) : Evidence :=
  {| typeIds := extractLicenseTypeIds text validBcIds;
     sectionIds := extractLicenseSectionIds text slugToBcId;
     nameIds := extractLicenseNameIds text slugToBcId |}.

(** First half of [findWaybackSnapshotUrl]: the availability API. *)
Definition availableSnapshot (fromAvailable : Fetched) : option string :=
  match fromAvailable with
  | FetchOk 200 _ text =>
    if nonEmpty text then
      match JSON_parse text with
      | Some parsed =>
        match parseWaybackAvailable parsed with
        | Some snapshotUrl => if nonEmpty snapshotUrl then Some snapshotUrl else None
        | None => None
        end
      | None => None
      end
    else None
  | _ => None
  end.

Definition templ (v : JSON) : string :=
  match v with JStr s => s | _ => JSON_toString v end.

(** Second half: the first row of the CDX index. *)
Definition cdxSnapshot (cdx : Fetched) : option string :=
  match cdx with
  | FetchOk 200 _ text =>
    if nonEmpty text then
      match JSON_parse text with
      | Some (JArr (_ :: JArr row :: _)) =>
        match row with
        | timestamp :: original :: _ =>
          if truthy timestamp && truthy original
          then Some ("https://web.archive.org/web/" +:+ templ timestamp +:+ "/" +:+ templ original)
          else None
        | _ => None
        end
      | _ => None
      end
    else None
  | _ => None
  end.

Definition findWaybackSnapshotUrl (url : string) (options : Options) : M (option string) :=
  let availableUrl :=
    "https://archive.org/wayback/available?url=" +:+ encodeURIComponent url in
  let* fromAvailable := fetchWithRetries availableUrl (timeoutMs options) (archiveRetries options) in
  match availableSnapshot fromAvailable with
  | Some snapshotUrl => ret (Some snapshotUrl)
  | None =>
    let cdxUrl :=
      "https://web.archive.org/cdx/search/cdx?output=json&fl=timestamp,original,statuscode&mimetype=text/html&filter=statuscode:200&limit=1&url="
      +:+ encodeURIComponent url in
    let* cdx := fetchWithRetries cdxUrl (timeoutMs options) (archiveRetries options) in
    ret (cdxSnapshot cdx)
  end.

Definition hostnameOf (rawUrl : string) : option string :=
  match URL_parse rawUrl with
  | Some parsed => Some (toLowerCase (hostname parsed))
  | None => None
  end.

Definition slugOfAlbumUrl (rawUrl : string) : option string :=
  match URL_parse rawUrl with
  | None => None
  | Some parsed =>
    match filterBoolean (split "/" (pathname parsed)) with
    | p0 :: p1 :: _ => if String.eqb p0 "album" then Some (toLowerCase p1) else None
    | _ => None
    end
  end.

(** The double-quote character. *)
Definition DQ : string := String (ascii_of_nat 34) EmptyString.

Definition decodeHtmlEntities (text : string) : string :=
  replaceAll (replaceAll (replaceAll (replaceAll (replaceAll text
    "&amp;" "&") "&quot;" DQ) "&#39;" "'") "&lt;" "<") "&gt;" ">".

Definition extractBandcampAlbumLinks (html : string) : list string :=
  foldl (λ out m, StrSet_add (decodeHtmlEntities (group 1 m)) out)
        [] (regexExecAll re_album_link html).

(** The queries of [findBandcampAliasAlbumUrl]. *)
Definition aliasQueries (host slug : string) : list string :=
  let hostStem := regexReplace re_bandcamp_suffix host "" in
  [hostStem +:+ " " +:+ slug; hostStem +:+ " " +:+ replaceAll slug "-" " "]
  ++ (if regexTest re_trailing_number slug
      then [hostStem +:+ " " +:+ replaceAll (regexReplace re_trailing_number slug "") "-" " "]
      else []).

(** The links of one search page that carry the wanted slug, added to the
    candidates. *)
Definition addCandidates (slug : string) (candidates links : list string) : list string :=
  foldl (λ c link, if bool_decide (slugOfAlbumUrl link = Some slug) then StrSet_add link c else c)
        candidates links.

Definition searchUrlOf (query : string) : string :=
  "https://bandcamp.com/search?q=" +:+ encodeURIComponent query.

(** The distinct album links of a search answer whose item slug is [slug]
    (none when the search failed or came back empty). *)
Definition matchingLinks (slug : string) (searched : Fetched) : list string :=
  match okText searched with
  | Some text => filter (λ link, slugOfAlbumUrl link = Some slug) (extractBandcampAlbumLinks text)
  | None => []
  end.


(** The [for (const query of queries)] loop; [None] is its [return null]. *)
Fixpoint searchLoop (slug : string) (options : Options) (queries : list string)
    (candidates : list string) : M (option (list string)) :=
  match queries with
  | [] => ret (Some candidates)
  | query :: rest =>
    let* searched := fetchWithRetries (searchUrlOf query) (timeoutMs options) (retries options) in
    match okText searched with
    | None => searchLoop slug options rest candidates
    | Some text =>
      let candidates' := addCandidates slug candidates (extractBandcampAlbumLinks text) in
      if (1 <? length candidates')%nat then ret None
      else if (length candidates' =? 1)%nat then ret (Some candidates')
      else searchLoop slug options rest candidates'
    end
  end.

Definition findBandcampAliasAlbumUrl (originalUrl : string) (options : Options) : M (option string) :=
  match hostnameOf originalUrl, slugOfAlbumUrl originalUrl with
  | Some host, Some slug =>
    if nonEmpty host && nonEmpty slug then
      let* found := searchLoop slug options (aliasQueries host slug) [] in
      match found with
      | Some [aliasUrl] =>
        ret (if String.eqb aliasUrl originalUrl then None else Some aliasUrl)
      | _ => ret None
      end
    else ret None
  | _, _ => ret None
  end.

Definition buildBucket (urls : list Row.t) : list (string * list (Z * Z)) :=
  foldl (λ bucket row,
           match Row.license row with
           | None => bucket
           | Some license =>
             match hostnameOf (Row.url row) with
             | Some host => if nonEmpty host then bumpHost host license bucket else bucket
             | None => bucket
             end
           end)
        [] urls.

Definition buildDomainConsensus (urls : list Row.t) : gmap string Consensus :=
  Map_of (map (λ entry, (entry.1, summarizeCounts entry.2)) (buildBucket urls)).

(** The object [inspectRow] returns when a strategy decided. *)
Definition mappedOutcome (row : Row.t) (ctx : Context) (live : Fetched)
    (archive_status : option Z) (archive_url alias_url : option string)
    (bcId : Z) (source : string) : Outcome.t :=
  {| Outcome.url_id := Row.url_id row;
     Outcome.url := Row.url row;
     Outcome.title := Row.title row;
     Outcome.status := f_status live;
     Outcome.final_url := f_finalUrl live;
     Outcome.archive_status := archive_status;
     Outcome.archive_url := archive_url;
     Outcome.alias_url := alias_url;
     Outcome.mapped := Some {| Mapped.bc_id := bcId;
                               Mapped.name := licenseById ctx !! bcId;
                               Mapped.source := source |};
     Outcome.reason := None |}.

(** Extraction and reconciliation on a fetched page with a body. *)
Definition decidePage (ctx : Context) (page : Fetched) : option MappedId :=
  match okText page with
  | Some text => decideMappedId (extractEvidence text (validBcIds ctx) (slugToBcId ctx))
  | None => None
  end.

Definition is404 (live : Fetched) : bool := bool_decide (f_status live = Some 404).

Definition liveStage (row : Row.t) (ctx : Context) (live : Fetched) : option Outcome.t :=
  match decidePage ctx live with
  | Some mapped => Some (mappedOutcome row ctx live None None None (bcId mapped) (source mapped))
  | None => None
  end.

Definition archiveStage (row : Row.t) (ctx : Context) (live : Fetched) : M (option Outcome.t) :=
  if useArchive (options ctx) && is404 live then
    let* snapshot := findWaybackSnapshotUrl (Row.url row) (options ctx) in
    match snapshot with
    | Some snapshotUrl =>
      let* archived := fetchWithRetries snapshotUrl (timeoutMs (options ctx))
                                        (archiveRetries (options ctx)) in
      match decidePage ctx archived with
      | Some mapped =>
        ret (Some (mappedOutcome row ctx live (f_status archived) (Some snapshotUrl) None
                                 (bcId mapped) ("wayback_" +:+ source mapped)))
      | None => ret None
      end
    | None => ret None
    end
  else ret None.

Definition aliasStage (row : Row.t) (ctx : Context) (live : Fetched) : M (option Outcome.t) :=
  if useSearchAlias (options ctx) && is404 live then
    let* found := findBandcampAliasAlbumUrl (Row.url row) (options ctx) in
    match found with
    | Some aliasUrl =>
      if nonEmpty aliasUrl then
        let* alias := fetchWithRetries aliasUrl (timeoutMs (options ctx)) (retries (options ctx)) in
        match decidePage ctx alias with
        | Some mapped =>
          ret (Some (mappedOutcome row ctx live None None (Some aliasUrl)
                                   (bcId mapped) ("search_alias_" +:+ source mapped)))
        | None => ret None
        end
      else ret None
    | None => ret None
    end
  else ret None.

(** The gate of the domain-consensus fallback. *)
Definition consensusAccepted (options : Options) (consensus : Consensus) : bool :=
  (domainMinKnown options <=? total consensus)
  && PrimFloat.leb (domainMinPurity options) (purity consensus)
  && bool_decide (is_Some (topBcId consensus)).

Definition consensusStage (row : Row.t) (ctx : Context) (live : Fetched) : option Outcome.t :=
  if useDomainConsensus (options ctx) then
    match hostnameOf (Row.url row) with
    | Some host =>
      if nonEmpty host then
        match domainConsensus ctx !! host with
        | Some consensus =>
          match topBcId consensus with
          | Some top =>
            if consensusAccepted (options ctx) consensus
            then Some (mappedOutcome row ctx live None None None top "domain_consensus")
            else None
          | None => None
          end
        | None => None
        end
      else None
    | None => None
    end
  else None.

Definition unresolvedOutcome (row : Row.t) (live : Fetched) : Outcome.t :=
  {| Outcome.url_id := Row.url_id row;
     Outcome.url := Row.url row;
     Outcome.title := Row.title row;
     Outcome.status := f_status live;
     Outcome.final_url := f_finalUrl live;
     Outcome.archive_status := None;
     Outcome.archive_url := None;
     Outcome.alias_url := None;
     Outcome.mapped := None;
     Outcome.reason :=
       Some match live with
            | FetchOk st _ _ => "unresolved_status_" +:+ showZ st
            | FetchErr e => "fetch_error:" +:+ e
            end |}.

(** The live, archive and alias steps of [inspectRow]: the outcome when one
    of them decided, and the live fetch. *)
Definition earlierStages (row : Row.t) (ctx : Context) : M (option Outcome.t * Fetched) :=
  let* live := fetchWithRetries (Row.url row) (timeoutMs (options ctx)) (retries (options ctx)) in
  match liveStage row ctx live with
  | Some decided => ret (Some decided, live)
  | None =>
    let* archived := archiveStage row ctx live in
    match archived with
    | Some decided => ret (Some decided, live)
    | None =>
      let* aliased := aliasStage row ctx live in
      ret (aliased, live)
    end
  end.

Definition inspectRow (row : Row.t) (ctx : Context) : M Outcome.t :=
  let* earlier := earlierStages row ctx in
  match earlier.1 with
  | Some decided => ret decided
  | None =>
    match consensusStage row ctx earlier.2 with
    | Some decided => ret decided
    | None => ret (unresolvedOutcome row earlier.2)
    end
  end.

(** [obj[key] = (obj[key] || 0) + 1] *)
Definition bumpKey `{Countable K} (key : K) (m : gmap K Z) : gmap K Z :=
  <[key := default 0 (m !! key) + 1]> m.

Definition summarize (results : list Outcome.t) : Summary :=
  foldl (λ out row,
           match Outcome.mapped row with
           | Some m =>
             {| processed := processed out;
                mapped := mapped out + 1;
                unresolved := unresolved out;
                mappedBySource := bumpKey (Mapped.source m) (mappedBySource out);
                unresolvedReasons := unresolvedReasons out |}
           | None =>
             {| processed := processed out;
                mapped := mapped out;
                unresolved := unresolved out + 1;
                mappedBySource := mappedBySource out;
                unresolvedReasons :=
                  bumpKey (default "null" (Outcome.reason row)) (unresolvedReasons out) |}
           end)
        {| processed := Z.of_nat (length results); mapped := 0; unresolved := 0;
           mappedBySource := ∅; unresolvedReasons := ∅ |}
        results.

(** The body of the merge loop of [main] for a row with a [match]. *)
Definition mergeRow (runTimestamp : string) (match_ : Outcome.t) (row : Row.t) : Row.t :=
  let license :=
    match Outcome.mapped match_ with
    | Some m => Some (Mapped.bc_id m)
    | None => Row.license row
    end in
  match Outcome.mapped match_ with
  | Some m =>
    let source := if nonEmpty (Mapped.source m) then Mapped.source m else "mapped_unknown" in
    let mappedViaAlias := startsWith source "search_alias_" in
    let confirmedDead := bool_decide (Outcome.status match_ = Some 404) && negb mappedViaAlias in
    let url :=
      match Outcome.alias_url match_ with
      | Some alias => if mappedViaAlias then alias else Row.url row
      | None => Row.url row
      end in
    let dead := confirmedDead || startsWith source "wayback_" in
    {| Row.url_id := Row.url_id row;
       Row.url := url;
       Row.title := Row.title row;
       Row.license := license;
       Row.tags := Row.tags row;
       Row.favorite := Row.favorite row;
       Row.status := Some (if dead then "dead" else "active");
       Row.health_checked_at := Some runTimestamp;
       Row.health_reason := Some (if dead then "http_404" else source) |}
  | None =>
    let dead := bool_decide (Outcome.reason match_ = Some "unresolved_status_404") in
    let reason :=
      match Outcome.reason match_ with
      | Some r => if nonEmpty r then r else "unresolved"
      | None => "unresolved"
      end in
    {| Row.url_id := Row.url_id row;
       Row.url := Row.url row;
       Row.title := Row.title row;
       Row.license := license;
       Row.tags := Row.tags row;
       Row.favorite := Row.favorite row;
       Row.status := Some (if dead then "dead" else "unverified");
       Row.health_checked_at := Some runTimestamp;
       Row.health_reason := Some (if dead then "http_404" else reason) |}
  end.

(** [new Map(results.map((r) => [r.url_id, r]))] *)
Definition resultById (results : list Outcome.t) : gmap Z Outcome.t :=
  Map_of (map (λ r, (Outcome.url_id r, r)) results).

(** The merge loop of [main]: every row of [urls] with a result is updated. *)
Definition mergeOutcomes (runTimestamp : string) (results : list Outcome.t)
    (urls : list Row.t) : list Row.t :=
  map (λ row,
         match resultById results !! Row.url_id row with
         | Some match_ => mergeRow runTimestamp match_ row
         | None => row
         end)
      urls.

Definition validLicensesOf (licenses : list RawLicense.t) : list License.t :=
  omap (λ l,
          match RawLicense.bc_id l, RawLicense.name l with
          | Some bc_id, Some name =>
            Some {| License.name := name; License.url := RawLicense.url l;
                    License.bc_id := bc_id; License.count := default 0 (RawLicense.count l) |}
          | _, _ => None
          end)
       licenses.

Definition countsByBcId (validBcIds : JsSet.t) (urls : list Row.t) : gmap Z Z :=
  foldl (λ counts row,
           if isVisibleActiveRow row validBcIds then
             match Row.license row with
             | Some license => bumpKey license counts
             | None => counts
             end
           else counts)
        ∅ urls.

Definition cleanedLicenses (validLicenses : list License.t) (counts : gmap Z Z) : list License.t :=
  map (λ l, {| License.name := License.name l; License.url := License.url l;
               License.bc_id := License.bc_id l;
               License.count := default 0 (counts !! License.bc_id l) |})
      validLicenses.

(** A cleaned license as it is written to [licenses.json]. *)
Definition toRaw (l : License.t) : RawLicense.t :=
  {| RawLicense.name := Some (License.name l); RawLicense.url := License.url l;
     RawLicense.bc_id := Some (License.bc_id l); RawLicense.count := Some (License.count l) |}.

Definition missing (u : Row.t) : bool := bool_decide (Row.license u = None).

Definition countRows (p : Row.t → bool) (urls : list Row.t) : Z :=
  Z.of_nat (length (filter (λ row, p row = true) urls)).

Definition makeContext (options : Options) (files : Files) : Context :=
  let validLicenses := validLicensesOf (licenses files) in
  {| options := options;
     validBcIds := JsSet.of_list (map License.bc_id validLicenses);
     slugToBcId := Map_of (map (λ l, (License.name l, License.bc_id l)) validLicenses);
     domainConsensus := buildDomainConsensus (urls files);
     licenseById := Map_of (map (λ l, (License.bc_id l, License.name l)) validLicenses) |}.

(** One run of the fixer started at [runTimestamp] on the two data files:
    the files after the run (unchanged without [--write]), the license
    categories it computed, and its report. *)
Definition main (options : Options) (runTimestamp : string) (files : Files)
  : M (Files * list License.t * Report) :=
  let ctx := makeContext options files in
  let validLicenses := validLicensesOf (licenses files) in
  let missingRows := filter (λ u, missing u = true) (urls files) in
  let* results := mapM (λ row, inspectRow row ctx) missingRows in
  let merged := mergeOutcomes runTimestamp results (urls files) in
  let cleaned := cleanedLicenses validLicenses (countsByBcId (validBcIds ctx) merged) in
  let payload :=
    {| generated_at := runTimestamp;
       report_options := options;
       dataset :=
         {| total_urls := Z.of_nat (length merged);
            missing_before := Z.of_nat (length missingRows);
            missing_after := countRows missing merged;
            visible_active := countRows (λ row, isVisibleActiveRow row (validBcIds ctx)) merged;
            dead := countRows (λ row, String.eqb (normalizedStatus (Row.status row)) "dead") merged;
            unverified :=
              countRows (λ row, String.eqb (normalizedStatus (Row.status row)) "unverified") merged |};
       summary := summarize results;
       results := results |} in
  ret (if write options
       then {| urls := merged; licenses := map toRaw cleaned |}
       else files,
       cleaned, payload).

End WithPlatform.

End Accelerated.

(** ** The exact-match fixer ([fix-missing-licenses-exact.mjs]) *)

Module Exact.

Record Options := {
  concurrency : Z;
  timeoutMs : Z;
  retries : nat;
  limit : option nat;
  write : bool;
  targetVersions : list string;
  progressEvery : Z;
  retryStatuses : list Z;
  statusBackoffMs : Z;
  statusBackoffMaxMs : Z;
}.

Definition DEFAULTS : Options := {|
  concurrency := 6;
  timeoutMs := 15000;
  retries := 1;
  limit := None;
  write := false;
  targetVersions := ["3.0"; "4.0"];
  progressEvery := 250;
  retryStatuses := [403; 408; 425; 429; 500; 502; 503; 504];
  statusBackoffMs := 750;
  statusBackoffMaxMs := 10000;
|}.

(** A value of [legitimateTargetMap]. *)
Record Target := { target_bc_id : Z; target_name : string }.

(** A detected URL that is a legitimate target, with the target's fields. *)
Record Matched := { m_detected : CcUrl; m_target : Target }.

Record MappedExact := {
  bc_id : Z;
  name : string;
  matched_url : string;
}.

Record Outcome := {
  url_id : Z;
  url : string;
  title : string;
  status : option Z;
  final_url : option string;
  mapped : option MappedExact;
  reason : option string;
  detected_urls : list string;
  error : option string;
}.

Record Summary := {
  processed : Z;
  summary_mapped : Z;
  unresolved : Z;
  reasons : gmap string Z;
  mapped_breakdown : gmap string Z;
  fetch_errors : Z;
}.

Record DatasetCounts := {
  total_urls : Z;
  missing_before : Z;
  missing_after : Z;
  valid_license_categories : Z;
  legitimate_target_url_count : Z;
}.

Record Report := {
  generated_at : string;
  report_options : Options;
  dataset : DatasetCounts;
  summary : Summary;
  results : list Outcome;
}.

(** The [reason] of an outcome without a unique id. *)
Definition unresolvedReason (detected : list CcUrl) (matched : list Matched) (status : Z) : string :=
  if (length detected =? 0)%nat && (400 <=? status) then "http_status_" +:+ showZ status
  else if (length matched =? 0)%nat then "no_exact_legitimate_match"
  else "ambiguous_exact_matches".

Definition summarize (results : list Outcome) : Summary :=
  foldl (λ out row,
           match mapped row with
           | Some m =>
             {| processed := processed out;
                summary_mapped := summary_mapped out + 1;
                unresolved := unresolved out;
                reasons := reasons out;
                mapped_breakdown :=
                  Accelerated.bumpKey (name m +:+ " (" +:+ showZ (bc_id m) +:+ ")")
                                      (mapped_breakdown out);
                fetch_errors := fetch_errors out |}
           | None =>
             {| processed := processed out;
                summary_mapped := summary_mapped out;
                unresolved := unresolved out + 1;
                reasons := Accelerated.bumpKey (default "null" (reason row)) (reasons out);
                mapped_breakdown := mapped_breakdown out;
                fetch_errors :=
                  if bool_decide (reason row = Some "fetch_error")
                  then fetch_errors out + 1 else fetch_errors out |}
           end)
        {| processed := Z.of_nat (length results); summary_mapped := 0; unresolved := 0;
           reasons := ∅; mapped_breakdown := ∅; fetch_errors := 0 |}
        results.

(** [new Map(results.map((r) => [r.url_id, r]))] *)
Definition resultsById (results : list Outcome) : gmap Z Outcome :=
  Map_of (map (λ r, (url_id r, r)) results).

(** The merge loop of [main]: only the license is written. *)
Definition mergeRow (match_ : option Outcome) (row : Row.t) : Row.t :=
  match match_ with
  | Some {| mapped := Some m |} =>
    {| Row.url_id := Row.url_id row;
       Row.url := Row.url row;
       Row.title := Row.title row;
       Row.license := Some (bc_id m);
       Row.tags := Row.tags row;
       Row.favorite := Row.favorite row;
       Row.status := Row.status row;
       Row.health_checked_at := Row.health_checked_at row;
       Row.health_reason := Row.health_reason row |}
  | _ => row
  end.

Definition mergeOutcomes (results : list Outcome) (urls : list Row.t) : list Row.t :=
  map (λ row, mergeRow (resultsById results !! Row.url_id row) row) urls.

(** The count loop of [main]: every row with an integer license counts. *)
Definition countsByBcId (urls : list Row.t) : gmap Z Z :=
  foldl (λ counts row,
           match Row.license row with
           | Some license => Accelerated.bumpKey license counts
           | None => counts
           end)
        ∅ urls.

Section WithPlatform.
Context `{Platform}.

Definition normalizeCcLicenseUrl (rawUrl : string) : option CcUrl :=
  match URL_parse rawUrl with
  | None => None
  | Some parsed =>
    if negb (String.eqb (toLowerCase (hostname parsed)) "creativecommons.org") then None
    else
      match regexExecAll re_cc_path (toLowerCase (pathname parsed)) with
      | pathMatch :: _ =>
        let slug := group 1 pathMatch in
        let version := group 2 pathMatch in
        Some {| canonical := "https://creativecommons.org/licenses/"
                             +:+ slug +:+ "/" +:+ version +:+ "/";
                slug := slug; version := version |}
      | [] => None
      end
  end.

Definition extractCcLicenseUrls (html : string) : list CcUrl :=
  foldl (λ urls m,
           match normalizeCcLicenseUrl (group 2 m) with
           | None => urls
           | Some normalized =>
             if bool_decide (canonical normalized ∈ map canonical urls) then urls
             else urls ++ [normalized]
           end)
        [] (regexExecAll re_cc_anchor html).

Definition buildLegitimateTargetMap (validLicenses : list License.t)
    (targetVersions : list string) : gmap string Target :=
  foldl (λ targetMap license,
           let entry := {| target_bc_id := License.bc_id license;
                           target_name := License.name license |} in
           let withBase :=
             match License.url license with
             | Some url =>
               match normalizeCcLicenseUrl url with
               | Some normalizedBase => <[canonical normalizedBase := entry]> targetMap
               | None => targetMap
               end
             | None => targetMap
             end in
           foldl (λ m version,
                    <["https://creativecommons.org/licenses/" +:+ License.name license
                      +:+ "/" +:+ version +:+ "/" := entry]> m)
                 withBase targetVersions)
        ∅ validLicenses.

Definition matchedOf (legitimateTargetMap : gmap string Target) (detected : list CcUrl) : list Matched :=
  omap (λ d, match legitimateTargetMap !! canonical d with
             | Some t => Some {| m_detected := d; m_target := t |}
             | None => None
             end)
       detected.

(** What [inspectListing] returns for a fetched page that is not retried. *)
Definition pageOutcome (listing : Row.t) (legitimateTargetMap : gmap string Target)
    (status : Z) (finalUrl text : string) : Outcome :=
  let detected := extractCcLicenseUrls text in
  let matched := matchedOf legitimateTargetMap detected in
  let uniqueBcIds := JsSet.of_list (map (λ m, target_bc_id (m_target m)) matched) in
  match uniqueBcIds, matched with
  | [bcId], first :: _ =>
    {| url_id := Row.url_id listing; url := Row.url listing; title := Row.title listing;
       status := Some status; final_url := Some finalUrl;
       mapped := Some {| bc_id := bcId; name := target_name (m_target first);
                         matched_url := canonical (m_detected first) |};
       reason := None;
       detected_urls := map canonical detected;
       error := None |}
  | _, _ =>
    {| url_id := Row.url_id listing; url := Row.url listing; title := Row.title listing;
       status := Some status; final_url := Some finalUrl;
       mapped := None;
       reason := Some (unresolvedReason detected matched status);
       detected_urls := map canonical detected;
       error := None |}
  end.

Definition fetchErrorOutcome (listing : Row.t) (message : string) : Outcome :=
  {| url_id := Row.url_id listing; url := Row.url listing; title := Row.title listing;
     status := None; final_url := None; mapped := None;
     reason := Some "fetch_error"; detected_urls := []; error := Some message |}.

(** The attempt loop of [inspectListing], [retriesLeft = attempts - attempt]. *)
Fixpoint inspectAttempts (listing : Row.t) (options : Options)
    (legitimateTargetMap : gmap string Target) (retriesLeft : nat) : State World Outcome :=
  let* page := fetchText (Row.url listing) (timeoutMs options) in
  match page with
  | FetchOk st finalUrl text =>
    match retriesLeft with
    | S n =>
      if bool_decide (st ∈ retryStatuses options)
      then inspectAttempts listing options legitimateTargetMap n
      else ret (pageOutcome listing legitimateTargetMap st finalUrl text)
    | O => ret (pageOutcome listing legitimateTargetMap st finalUrl text)
    end
  | FetchErr message =>
    match retriesLeft with
    | S n => inspectAttempts listing options legitimateTargetMap n
    | O => ret (fetchErrorOutcome listing message)
    end
  end.

Definition inspectListing (listing : Row.t) (options : Options)
    (legitimateTargetMap : gmap string Target) : State World Outcome :=
  inspectAttempts listing options legitimateTargetMap (retries options).

(** One run of the exact fixer; [generatedAt] is the time its report is
    written. *)
Definition main (options : Options) (generatedAt : string) (files : Accelerated.Files)
  : State World (Accelerated.Files * list License.t * Report) :=
  let urls := Accelerated.urls files in
  let validLicenses := Accelerated.validLicensesOf (Accelerated.licenses files) in
  let legitimateTargetMap := buildLegitimateTargetMap validLicenses (targetVersions options) in
  let missingRows := filter (λ u, Accelerated.missing u = true) urls in
  let toProcess :=
    match limit options with
    | None => missingRows
    | Some n => take n missingRows
    end in
  let* results := mapM (λ row, inspectListing row options legitimateTargetMap) toProcess in
  let merged := mergeOutcomes results urls in
  let cleaned := Accelerated.cleanedLicenses validLicenses (countsByBcId merged) in
  let payload :=
    {| generated_at := generatedAt;
       report_options := options;
       dataset :=
         {| total_urls := Z.of_nat (length merged);
            missing_before := Z.of_nat (length missingRows);
            missing_after := Accelerated.countRows Accelerated.missing merged;
            valid_license_categories := Z.of_nat (length validLicenses);
            legitimate_target_url_count := Z.of_nat (size legitimateTargetMap) |};
       summary := summarize results;
       results := results |} in
  ret (if write options
       then {| Accelerated.urls := merged;
               Accelerated.licenses := map Accelerated.toRaw cleaned |}
       else files,
       cleaned, payload).

End WithPlatform.

End Exact.

(** ** The multi-pass orchestrator ([fix-missing-licenses-exhaustive.mjs]) *)

Module Exhaustive.

Record Options := {
  maxPasses : nat;
  stopAfterNoProgressPasses : nat;
  sleepMs : Z;
  (** what is handed on to every pass *)
  passOptions : Exact.Options;
}.

Definition DEFAULTS : Options := {|
  maxPasses := 0;
  stopAfterNoProgressPasses := 3;
  sleepMs := 45000;
  passOptions :=
    {| Exact.concurrency := 2; Exact.timeoutMs := 20000; Exact.retries := 6;
       Exact.limit := None; Exact.write := true;
       Exact.targetVersions := ["3.0"; "4.0"]; Exact.progressEvery := 250;
       Exact.retryStatuses := [403; 408; 425; 429; 500; 502; 503; 504];
       Exact.statusBackoffMs := 1000; Exact.statusBackoffMaxMs := 20000 |};
|}.

(** What [main] reads in the latest report: [report?.dataset?.missing_after
    ?? null] and [report?.summary?.mapped ?? 0]. *)
Record PassReport := {
  missingAfter : option Z;
  mapped : Z;
}.

(** A pass: the child process failed, or it wrote a report. *)
Inductive PassResult :=
| PassFailed
| PassDone (report : PassReport).

Inductive Reason := AllResolved | Stalled | MaxPassesReached.

Inductive Exit :=
| Done (pass : nat) (why : Reason)
| Crashed (pass : nat)
| StillRunning.

Section Loop.

(** The outcome of pass number [pass]: [runFixPass], then the latest
    report in [reports/]. *)
Variable passResult : nat → PassResult.
Variable options : Options.

(** The update of [consecutiveNoProgress] after a pass. *)
Definition countNoProgress (mapped : Z) (consecutiveNoProgress : nat) : nat :=
  if mapped =? 0 then S consecutiveNoProgress else O.

(** The [while (true)] loop of [main], run for at most [fuel] passes, from
    the values [pass] and [consecutiveNoProgress] have before a pass. *)
Fixpoint loop (fuel : nat) (pass consecutiveNoProgress : nat) : Exit :=
  match fuel with
  | O => StillRunning
  | S fuel' =>
    let pass := S pass in
    match passResult pass with
    | PassFailed => Crashed pass
    | PassDone report =>
      let consecutiveNoProgress := countNoProgress (mapped report) consecutiveNoProgress in
      if bool_decide (missingAfter report = Some 0) then Done pass AllResolved
      else if (0 <? stopAfterNoProgressPasses options)%nat
              && (stopAfterNoProgressPasses options <=? consecutiveNoProgress)%nat
      then Done pass Stalled
      else if (0 <? maxPasses options)%nat && (maxPasses options <=? pass)%nat
      then Done pass MaxPassesReached
      else loop fuel' pass consecutiveNoProgress
    end
  end.

Definition main (fuel : nat) : Exit := loop fuel 0 0.

(** [mapped] and [missing_after] of pass [k]. *)
Definition mappedAt (k : nat) : Z :=
  match passResult k with PassDone report => mapped report | PassFailed => 0 end.

Definition missingAfterAt (k : nat) : option Z :=
  match passResult k with PassDone report => missingAfter report | PassFailed => None end.

(** The value of [consecutiveNoProgress] after pass [n]. *)
Fixpoint noProgressAfter (n : nat) : nat :=
  match n with
  | O => O
  | S m => countNoProgress (mappedAt (S m)) (noProgressAfter m)
  end.

(** The exit the loop body takes after pass [n], if any, as the code tests
    it on the counter value after that pass. *)
Definition exitAfter (n : nat) : option Reason :=
  match passResult n with
  | PassFailed => None
  | PassDone report =>
    if bool_decide (missingAfter report = Some 0) then Some AllResolved
    else if (0 <? stopAfterNoProgressPasses options)%nat
            && (stopAfterNoProgressPasses options <=? noProgressAfter n)%nat
    then Some Stalled
    else if (0 <? maxPasses options)%nat && (maxPasses options <=? n)%nat
    then Some MaxPassesReached
    else None
  end.

(** The stopping rule in the words of the design: after pass [n] nothing
    is left unresolved, or the last [stopAfterNoProgressPasses] passes all
    mapped nothing, or [n] is the pass cap. *)
Definition stopsAfter (n : nat) : Prop :=
  missingAfterAt n = Some 0
  ∨ ((0 < stopAfterNoProgressPasses options)%nat
     ∧ (stopAfterNoProgressPasses options ≤ n)%nat
     ∧ ∀ k : nat, (n - stopAfterNoProgressPasses options < k ≤ n)%nat → mappedAt k = 0)
  ∨ ((0 < maxPasses options)%nat ∧ n = maxPasses options).

End Loop.

End Exhaustive.

(** ** The report reconciler ([reconcile-url-health-from-reports.mjs]) *)

Module Reconcile.

(** [a.localeCompare(b)] on the timestamps the fixers write ([toISOString]:
    one layout, so that two of them differ at a digit first): the order of
    the code units.  On other strings the collation of the host decides;
    [ReportOrder] has the sort for any collation. *)
Definition localeCompare (a b : string) : comparison := String_as_OT.cmp a b.

(** A report file as parsed; [None] fields are absent ones. *)
Record Payload := {
  payload_generated_at : option string;
  payload_results : option (list Outcome.t);
}.

(** A file of [reports/]: its name, and its content when it parses. *)
Record ReportFile := {
  file : string;
  content : option Payload;
}.

Record Report := {
  report_file : string;
  generated_at : string;
  results : list Outcome.t;
}.

Record Changes := {
  touchedIds : JsSet.t;
  statusUpdates : Z;
  aliasUrlRewrites : Z;
  licenseUpdates : Z;
}.

(** [s.endsWith(suffix)]: some tail of [s] is [suffix]. *)
Fixpoint endsWith (s suffix : string) : bool :=
  String.eqb s suffix
  || match s with
     | String _ s' => endsWith s' suffix
     | EmptyString => false
     end.

Definition isAcceleratedReport (name : string) : bool :=
  startsWith name "fix-missing-licenses-accelerated-" && endsWith name ".json".

(** A report file read: [None] when it is malformed. *)
Definition readReport (f : ReportFile) : option Report :=
  match content f with
  | Some payload =>
    Some {| report_file := file f;
            generated_at :=
              match payload_generated_at payload with
              | Some g => if nonEmpty g then g else "1970-01-01T00:00:00.000Z"
              | None => "1970-01-01T00:00:00.000Z"
              end;
            results := default [] (payload_results payload) |}
  | None => None
  end.

(** The reports read from the accelerated report files; a malformed file
    is skipped. *)
Definition loadReports (files : list ReportFile) : list Report :=
  omap readReport (filter (λ f, isAcceleratedReport (file f) = true) files).

(** [reports.sort((a, b) => a.generated_at.localeCompare(b.generated_at))]:
    a stable sort, so an insertion sort. *)
Fixpoint insertReport (r : Report) (sorted : list Report) : list Report :=
  match sorted with
  | [] => [r]
  | r' :: rest =>
    match localeCompare (generated_at r) (generated_at r') with
    | Gt => r' :: insertReport r rest
    | _ => r :: r' :: rest
    end
  end.

Definition sortReports (reports : list Report) : list Report :=
  foldr insertReport [] reports.

(** [new Map(urls.map((row) => [row.url_id, row]))]: the map holds the row
    objects of [urls] themselves, here their positions. *)
Definition rowsById (urls : list Row.t) : gmap Z nat :=
  Map_of (imap (λ i row, (Row.url_id row, i)) urls).

(** What the loop body writes into a row. *)
Definition reconcileRow (generated_at : string) (result : Outcome.t) (row : Row.t) : Row.t :=
  let license :=
    match Outcome.mapped result with
    | Some m =>
      if bool_decide (Row.license row ≠ Some (Mapped.bc_id m))
      then Some (Mapped.bc_id m) else Row.license row
    | None => Row.license row
    end in
  match Outcome.mapped result with
  | Some m =>
    let source := if nonEmpty (Mapped.source m) then Mapped.source m else "mapped_unknown" in
    let mappedViaAlias := startsWith source "search_alias_" in
    let confirmedDead := bool_decide (Outcome.status result = Some 404) && negb mappedViaAlias in
    let url :=
      match Outcome.alias_url result with
      | Some alias =>
        if mappedViaAlias && negb (String.eqb (Row.url row) alias) then alias else Row.url row
      | None => Row.url row
      end in
    let dead := confirmedDead || startsWith source "wayback_" in
    {| Row.url_id := Row.url_id row;
       Row.url := url;
       Row.title := Row.title row;
       Row.license := license;
       Row.tags := Row.tags row;
       Row.favorite := Row.favorite row;
       Row.status := Some (if dead then "dead" else "active");
       Row.health_checked_at := Some generated_at;
       Row.health_reason := Some (if dead then "http_404" else source) |}
  | None =>
    let dead := bool_decide (Outcome.reason result = Some "unresolved_status_404") in
    let reason :=
      match Outcome.reason result with
      | Some r => if nonEmpty r then r else "unresolved"
      | None => "unresolved"
      end in
    {| Row.url_id := Row.url_id row;
       Row.url := Row.url row;
       Row.title := Row.title row;
       Row.license := license;
       Row.tags := Row.tags row;
       Row.favorite := Row.favorite row;
       Row.status := Some (if dead then "dead" else "unverified");
       Row.health_checked_at := Some generated_at;
       Row.health_reason := Some (if dead then "http_404" else reason) |}
  end.

(** The counters of the loop body for one result and the row it finds. *)
Definition countChanges (result : Outcome.t) (row row' : Row.t) (c : Changes) : Changes :=
  {| touchedIds := JsSet.add (Row.url_id row) (touchedIds c);
     statusUpdates :=
       if String.eqb (Accelerated.normalizedStatus (Row.status row))
                     (Accelerated.normalizedStatus (Row.status row'))
       then statusUpdates c else statusUpdates c + 1;
     aliasUrlRewrites :=
       if String.eqb (Row.url row) (Row.url row') then aliasUrlRewrites c
       else aliasUrlRewrites c + 1;
     licenseUpdates :=
       if bool_decide (Row.license row = Row.license row') then licenseUpdates c
       else licenseUpdates c + 1 |}.

(** One turn of the inner loop: the row the result names is mutated in
    place. *)
Definition applyResult (index : gmap Z nat) (generated_at : string)
    (state : list Row.t * Changes) (result : Outcome.t) : list Row.t * Changes :=
  match index !! Outcome.url_id result with
  | None => state
  | Some i =>
    match state.1 !! i with
    | None => state
    | Some row =>
      let row' := reconcileRow generated_at result row in
      (<[i := row']> state.1, countChanges result row row' state.2)
    end
  end.

Definition applyReport (index : gmap Z nat) (state : list Row.t * Changes)
    (report : Report) : list Row.t * Changes :=
  foldl (applyResult index (generated_at report)) state (results report).

Definition noChanges : Changes :=
  {| touchedIds := []; statusUpdates := 0; aliasUrlRewrites := 0; licenseUpdates := 0 |}.

(** [main]: the rows of [urls.json] after the replay, and the counters of
    its own report. *)
Definition main (urls : list Row.t) (files : list ReportFile) : list Row.t * Changes :=
  let reports := sortReports (loadReports files) in
  foldl (applyReport (rowsById urls)) (urls, noChanges) reports.

(** The file a run of the accelerated fixer leaves in [reports/]; [stamp]
    is the time of writing. *)
Definition reportFileOf (stamp : string) (report : Accelerated.Report) : ReportFile :=
  {| file := "fix-missing-licenses-accelerated-" +:+ stamp +:+ ".json";
     content := Some {| payload_generated_at := Some (Accelerated.generated_at report);
                        payload_results := Some (Accelerated.results report) |} |}.

End Reconcile.

(** ** Live runs and their replay *)

Module Replay.

(** A run of the accelerated fixer: its options, the time it starts (its
    [runTimestamp]) and the time it writes its report (the file stamp). *)
Record Run := {
  run_options : Options;
  runTimestamp : string;
  stamp : string;
}.

(** The outcomes reports hold for a record id, oldest first, each with the
    [generated_at] of its report. *)
Definition outcomesFor (url_id : Z) (reports : list Reconcile.Report) : list (string * Outcome.t) :=
  flat_map (λ report,
              map (λ o, (Reconcile.generated_at report, o))
                  (filter (λ o, Outcome.url_id o = url_id) (Reconcile.results report)))
           reports.

(** Every outcome of the sequence, applied in turn, meets its record
    without a license. *)
Fixpoint allMissing (row : Row.t) (outcomes : list (string * Outcome.t)) : Prop :=
  match outcomes with
  | [] => True
  | (ts, o) :: rest =>
    Row.license row = None ∧ allMissing (Accelerated.mergeRow ts o row) rest
  end.

(** The state of a record when only the latest of its outcomes is applied
    to it. *)
Definition lastWins (row : Row.t) (outcomes : list (string * Outcome.t)) : Row.t :=
  match last outcomes with
  | Some (ts, o) => Reconcile.reconcileRow ts o row
  | None => row
  end.

Section WithPlatform.
Context `{Platform}.

(** The live sequence: every run reads the files the run before left and
    adds its report to [reports/]. *)
Fixpoint liveRuns (runs : list Run) (files : Accelerated.Files)
  : State World (Accelerated.Files * list Reconcile.ReportFile) :=
  match runs with
  | [] => ret (files, [])
  | run :: rest =>
    let* done := Accelerated.main (run_options run) (runTimestamp run) files in
    let* later := liveRuns rest done.1.1 in
    ret (later.1, Reconcile.reportFileOf (stamp run) done.2 :: later.2)
  end.

End WithPlatform.

End Replay.

(** ** A scripted platform and sample data *)

Module Sample.

(** A platform whose answers are fixed tables: the world counts the
    requests made so far. *)
Record Script := {
  web : string → Fetched;
  parseUrl : string → option URL;
  rx : Pattern → string → list (list string);
  json : string → option JSON;
}.

Definition scripted (s : Script) : Platform := {|
  World := nat;
  fetchText := λ url _ n, (web s url, S n);
  URL_parse := parseUrl s;
  toLowerCase := λ x, x;
  replaceAll := λ x _ _, x;
  encodeURIComponent := λ x, x;
  regexExecAll := rx s;
  regexTest := λ _ _, false;
  regexReplace := λ _ x _, x;
  JSON_parse := json s;
  JSON_toString := λ _, "";
|}.

Definition offline : Script := {|
  web := λ _, FetchErr "offline";
  parseUrl := λ _, None;
  rx := λ _ _, [];
  json := λ _, None;
|}.

Definition row (url_id : Z) (url : string) (license : option Z) (status : option string) : Row.t :=
  {| Row.url_id := url_id; Row.url := url; Row.title := "";
     Row.license := license; Row.tags := []; Row.favorite := false;
     Row.status := status; Row.health_checked_at := None; Row.health_reason := None |}.

Definition category (name : string) (bc_id : Z) : RawLicense.t :=
  {| RawLicense.name := Some name;
     RawLicense.url := Some ("https://creativecommons.org/licenses/" +:+ name +:+ "/3.0/");
     RawLicense.bc_id := Some bc_id;
     RawLicense.count := Some 0 |}.

(** One category, and one dead record that carries it. *)
Definition deadLicensed : Accelerated.Files :=
  {| Accelerated.urls := [row 1 "https://a.bandcamp.com/album/x" (Some 3) (Some "dead")];
     Accelerated.licenses := [category "by" 3] |}.

Definition exactWrite : Exact.Options :=
  {| Exact.concurrency := 6; Exact.timeoutMs := 15000; Exact.retries := 1;
     Exact.limit := None; Exact.write := true;
     Exact.targetVersions := ["3.0"; "4.0"]; Exact.progressEvery := 250;
     Exact.retryStatuses := [403; 408; 425; 429; 500; 502; 503; 504];
     Exact.statusBackoffMs := 750; Exact.statusBackoffMaxMs := 10000 |}.

Definition writing (o : Options) : Options :=
  {| write := true; concurrency := concurrency o; timeoutMs := timeoutMs o;
     retries := retries o; archiveRetries := archiveRetries o;
     progressEvery := progressEvery o; useArchive := useArchive o;
     useSearchAlias := useSearchAlias o; useDomainConsensus := useDomainConsensus o;
     domainMinKnown := domainMinKnown o; domainMinPurity := domainMinPurity o |}.

Definition withMinKnown (n : Z) (o : Options) : Options :=
  {| write := write o; concurrency := concurrency o; timeoutMs := timeoutMs o;
     retries := retries o; archiveRetries := archiveRetries o;
     progressEvery := progressEvery o; useArchive := useArchive o;
     useSearchAlias := useSearchAlias o; useDomainConsensus := useDomainConsensus o;
     domainMinKnown := n; domainMinPurity := domainMinPurity o |}.

(** *** A page that is gone, with a snapshot in the archive *)

Definition goneUrl : string := "https://gone.bandcamp.com/album/x".
Definition snapshotOfGone : string :=
  "https://web.archive.org/web/2020/https://gone.bandcamp.com/album/x".

(** The live page answers 404 without evidence; the availability API
    names a snapshot; the snapshot carries the type marker 4. *)
Definition archived : Script := {|
  web := λ url,
    if String.eqb url goneUrl then FetchOk 404 url "NOTFOUND"
    else if String.prefix "https://archive.org/wayback/available?url=" url
    then FetchOk 200 url "AVAILABLE"
    else if String.eqb url snapshotOfGone then FetchOk 200 url "ARCHIVED"
    else FetchErr "unreachable";
  parseUrl := λ url,
    if String.eqb url goneUrl
    then Some {| hostname := "gone.bandcamp.com"; pathname := "/album/x" |}
    else None;
  rx := λ p text,
    match p with
    | re_license_type => if String.eqb text "ARCHIVED" then [["license_type:4"; "4"]] else []
    | _ => []
    end;
  json := λ text,
    if String.eqb text "AVAILABLE"
    then Some (JObj [("archived_snapshots",
                      JObj [("closest",
                             JObj [("available", JBool true);
                                   ("url", JStr snapshotOfGone)])])])
    else None;
|}.

Definition goneFiles : Accelerated.Files :=
  {| Accelerated.urls := [row 7 goneUrl None None];
     Accelerated.licenses := [category "by-nc" 4] |}.

(** *** Conflicting evidence and no evidence *)

Definition conflictUrl : string := "https://both.bandcamp.com/album/x".
Definition plainUrl : string := "https://none.bandcamp.com/album/x".

(** Both pages answer 200; the first carries the type markers 3 and 5,
    the second carries nothing. *)
Definition conflicting : Script := {|
  web := λ url,
    if String.eqb url conflictUrl then FetchOk 200 url "CONFLICT"
    else if String.eqb url plainUrl then FetchOk 200 url "PLAIN"
    else FetchErr "unreachable";
  parseUrl := λ _, None;
  rx := λ p text,
    match p with
    | re_license_type =>
      if String.eqb text "CONFLICT" then [["license_type:3"; "3"]; ["license_type:5"; "5"]] else []
    | _ => []
    end;
  json := λ _, None;
|}.

Definition twoCategories : Accelerated.Files :=
  {| Accelerated.urls := [row 1 conflictUrl None None; row 2 plainUrl None None];
     Accelerated.licenses := [category "by" 3; category "by-sa" 5] |}.

(** *** A domain with fifteen resolved records *)

Definition labelUrl : string := "https://label.bandcamp.com/album/x".

(** Every page answers 200 without evidence. *)
Definition label : Script := {|
  web := λ url, FetchOk 200 url "PLAIN";
  parseUrl := λ url,
    if String.eqb url labelUrl
    then Some {| hostname := "label.bandcamp.com"; pathname := "/album/x" |}
    else None;
  rx := λ _ _, [];
  json := λ _, None;
|}.

Definition fifteenKnown : Accelerated.Files :=
  {| Accelerated.urls :=
       map (λ i, row (Z.of_nat i) labelUrl (Some 3) None) (seq 1 15)
       ++ [row 16 labelUrl None None];
     Accelerated.licenses := [category "by" 3] |}.

(** *** A search that finds the slug twice *)

Definition songUrl : string := "https://artist.bandcamp.com/album/song".
Definition songOne : string := "https://one.bandcamp.com/album/song".


(** *** Two writing runs, a day apart *)

Definition twoRuns : list Replay.Run :=
  [ {| Replay.run_options := writing DEFAULTS;
       Replay.runTimestamp := "2024-05-01T00:00:00.000Z";
       Replay.stamp := "2024-05-01T00-00-09-000Z" |};
    {| Replay.run_options := writing DEFAULTS;
       Replay.runTimestamp := "2024-05-02T00:00:00.000Z";
       Replay.stamp := "2024-05-02T00-00-09-000Z" |} ].

(** Every pass maps nothing and leaves seven records unresolved. *)
Definition stalled (pass : nat) : Exhaustive.PassResult :=
  Exhaustive.PassDone {| Exhaustive.missingAfter := Some 7; Exhaustive.mapped := 0 |}.

End Sample.

(** The number of records with [status = active] (absent or unknown
    statuses count as active) whose license is [bc_id]. *)
Definition activeReferencing (bc_id : Z) (urls : list Row.t) : Z :=
  Z.of_nat (length (filter
    (λ row, Accelerated.normalizedStatus (Row.status row) = "active"
            ∧ Row.license row = Some bc_id) urls)).

(** ** More of the scripts: retries, backoff, verification, status counts *)

From Stdlib Require DecimalZ DecimalPos.

Module Retry.

Section WithPlatform.
Context `{Platform}.

(** The world after [n] fetches of [url]. *)
Fixpoint afterFetches (url : string) (timeoutMs : Z) (n : nat) (w : World) : World :=
  match n with
  | O => w
  | S k => afterFetches url timeoutMs k (fetchText url timeoutMs w).2
  end.

(** The answer to fetch number [n + 1] of [url]. *)
Definition answer (url : string) (timeoutMs : Z) (n : nat) (w : World) : Fetched :=
  (fetchText url timeoutMs (afterFetches url timeoutMs n w)).1.

End WithPlatform.

(** An answer [fetchWithRetries] does not settle for while attempts remain:
    a transport failure, or a status of the retry set. *)
Definition retryable (retryStatuses : list Z) (fetched : Fetched) : bool :=
  match fetched with
  | FetchOk st _ _ => bool_decide (st ∈ retryStatuses)
  | FetchErr _ => true
  end.

End Retry.

Module ExactBackoff.

(** [backoffDelayMs] of the exact fixer, for the attempt numbers [1, 2, ...]
    its loop passes. *)
Definition backoffDelayMs (attempt : positive) (baseMs maxMs : Z) : Z :=
  if baseMs <=? 0 then 0
  else Z.min maxMs (baseMs * 2 ^ (Z.pos attempt - 1)).

End ExactBackoff.

(** The rows a predicate holds for, counted. *)
Definition countWhere {A} (p : A → bool) (l : list A) : Z :=
  Z.of_nat (length (filter (λ x, p x = true) l)).

(** The sum of the counters of a tally object. *)
Definition tallyTotal (m : gmap string Z) : Z := map_fold (λ _ v acc, v + acc) 0 m.

Module ReconcileReport.

(** The [final_status_counts] of the reconciler's report. *)
Record StatusCounts := { active : Z; dead : Z; unverified : Z }.

(** [summary[normalizedStatus(row.status)]++] *)
Definition countStatus (summary : StatusCounts) (row : Row.t) : StatusCounts :=
  let st := Accelerated.normalizedStatus (Row.status row) in
  if String.eqb st "active"
  then {| active := active summary + 1; dead := dead summary; unverified := unverified summary |}
  else if String.eqb st "dead"
  then {| active := active summary; dead := dead summary + 1; unverified := unverified summary |}
  else {| active := active summary; dead := dead summary; unverified := unverified summary + 1 |}.

Definition summarizeStatuses (rows : list Row.t) : StatusCounts :=
  foldl countStatus {| active := 0; dead := 0; unverified := 0 |} rows.

End ReconcileReport.

(** ** What a bucket of [buildDomainConsensus] holds *)

Module Tally.

(** The counter an iterated [Map] of counters holds for a key, 0 when the
    key is absent. *)
Definition countOf (k : Z) (counts : list (Z * Z)) : Z :=
  foldr (λ e acc, if e.1 =? k then e.2 + acc else acc) 0 counts.

(** The sum of the counters. *)
Definition totalOf (counts : list (Z * Z)) : Z :=
  foldr (λ e acc, e.2 + acc) 0 counts.

(** The same for the counters a bucket keeps for a host. *)
Definition countAt (host : string) (k : Z) (bucket : list (string * list (Z * Z))) : Z :=
  foldr (λ e acc, if String.eqb e.1 host then countOf k e.2 + acc else acc) 0 bucket.

Definition totalAt (host : string) (bucket : list (string * list (Z * Z))) : Z :=
  foldr (λ e acc, if String.eqb e.1 host then totalOf e.2 + acc else acc) 0 bucket.

End Tally.

Section KnownRows.
Context `{Platform}.

(** The record is on [host]. *)
Definition onHost (host : string) (row : Row.t) : bool :=
  bool_decide (Accelerated.hostnameOf (Row.url row) = Some host).

(** The number of records on [host] that carry a license, and the number
    of those that carry the license [k]. *)
Definition knownOn (host : string) (urls : list Row.t) : Z :=
  countWhere (λ row, bool_decide (is_Some (Row.license row)) && onHost host row) urls.

Definition knownAs (host : string) (k : Z) (urls : list Row.t) : Z :=
  countWhere (λ row, bool_decide (Row.license row = Some k) && onHost host row) urls.

End KnownRows.

(** ** More scripted cases *)

Module Cases.

(** A search that finds the slug of [Sample.songUrl] once, under another
    artist. *)
Definition uniqueSearch : Sample.Script := {|
  Sample.web := λ url, FetchOk 200 url "SEARCH";
  Sample.parseUrl := λ url,
    if String.eqb url Sample.songUrl
    then Some {| hostname := "artist.bandcamp.com"; pathname := "/album/song" |}
    else if String.eqb url Sample.songOne
    then Some {| hostname := "one.bandcamp.com"; pathname := "/album/song" |}
    else None;
  Sample.rx := λ p text,
    match p with
    | re_album_link =>
      if String.eqb text "SEARCH" then [["href=one"; Sample.songOne]] else []
    | _ => []
    end;
  Sample.json := λ _, None;
|}.

End Cases.

Module ExactCases.

(** A page with one anchor to the Creative Commons license [by] 3.0. *)
Definition byUrl : string := "https://creativecommons.org/licenses/by/3.0/".
Definition pageUrl : string := "https://artist.bandcamp.com/album/licensed".

Definition ccPage : Sample.Script := {|
  Sample.web := λ url, FetchOk 200 url "PAGE";
  Sample.parseUrl := λ url,
    if String.eqb url byUrl
    then Some {| hostname := "creativecommons.org"; pathname := "/licenses/by/3.0/" |}
    else None;
  Sample.rx := λ p text,
    match p with
    | re_cc_anchor => if String.eqb text "PAGE" then [["<a>"; "'"; byUrl]] else []
    | re_cc_path =>
      if String.eqb text "/licenses/by/3.0/" then [["/licenses/by/3.0/"; "by"; "3.0"]] else []
    | _ => []
    end;
  Sample.json := λ _, None;
|}.

Definition oneMissing : Accelerated.Files :=
  {| Accelerated.urls := [Sample.row 1 pageUrl None None];
     Accelerated.licenses := [Sample.category "by" 3] |}.

End ExactCases.

(** ** The dataset verifier ([verify-visible-dataset.mjs]): license counts
    and record ids *)

Module Verify.

(** [new Set(licenses.map((license) => license?.bc_id).filter(Number.isInteger))] *)
Definition validLicenseIds (licenses : list RawLicense.t) : JsSet.t :=
  JsSet.of_list (omap RawLicense.bc_id licenses).

Definition invalidActiveRows (urls : list Row.t) (licenses : list RawLicense.t) : list Row.t :=
  filter (λ row,
            String.eqb (Accelerated.normalizedStatus (Row.status row)) "active"
            && negb match Row.license row with
                    | Some l => JsSet.has l (validLicenseIds licenses)
                    | None => false
                    end = true)
         urls.

Definition visibleRows (urls : list Row.t) (licenses : list RawLicense.t) : list Row.t :=
  filter (λ row, Accelerated.isVisibleActiveRow row (validLicenseIds licenses) = true) urls.

(** The [licenseCounts] map, keyed by [row.license]. *)
Definition licenseCounts (visible : list Row.t) : gmap (option Z) Z :=
  foldl (λ counts row, Accelerated.bumpKey (Row.license row) counts) ∅ visible.

Record Mismatch := {
  mismatch_bc_id : option Z;
  mismatch_name : option string;
  expected : Z;
  actual : option Z;
}.

Definition licenseCountMismatches (urls : list Row.t) (licenses : list RawLicense.t)
  : list Mismatch :=
  let counts := licenseCounts (visibleRows urls licenses) in
  omap (λ license,
          let expected := default 0 (counts !! RawLicense.bc_id license) in
          if bool_decide (RawLicense.count license = Some expected) then None
          else Some {| mismatch_bc_id := RawLicense.bc_id license;
                       mismatch_name := RawLicense.name license;
                       expected := expected;
                       actual := RawLicense.count license |})
       licenses.

(** The loop over [urls] with [urlIdSet] and [duplicateUrlIds]. *)
Definition seenAndDuplicates (urls : list Row.t) : JsSet.t * list Z :=
  foldl (λ state row,
           if JsSet.has (Row.url_id row) state.1
           then (state.1, state.2 ++ [Row.url_id row])
           else (JsSet.add (Row.url_id row) state.1, state.2))
        ([], []) urls.

Definition duplicateUrlIds (urls : list Row.t) : list Z := (seenAndDuplicates urls).2.

End Verify.

(** ** The passes the orchestrator starts
    ([runFixPass] of [fix-missing-licenses-exhaustive.mjs] on
    [fix-missing-licenses-exact.mjs]) *)

Module Passes.

(** The options [runFixPass] puts on the command line of the exact fixer:
    [--write] and the shared settings.  [--limit] is not passed, so the
    child keeps its default. *)
Definition childOptions (options : Exhaustive.Options) : Exact.Options :=
  let shared := Exhaustive.passOptions options in
  {| Exact.concurrency := Exact.concurrency shared;
     Exact.timeoutMs := Exact.timeoutMs shared;
     Exact.retries := Exact.retries shared;
     Exact.limit := None;
     Exact.write := true;
     Exact.targetVersions := Exact.targetVersions shared;
     Exact.progressEvery := Exact.progressEvery shared;
     Exact.retryStatuses := Exact.retryStatuses shared;
     Exact.statusBackoffMs := Exact.statusBackoffMs shared;
     Exact.statusBackoffMaxMs := Exact.statusBackoffMaxMs shared |}.

Section WithPlatform.
Context `{Platform}.

Variable options : Exhaustive.Options.
(** The time at which pass [k] writes its report. *)
Variable clock : nat → string.
(** The data files and the network before the first pass. *)
Variable files : Accelerated.Files.
Variable w : World.

(** The data files and the network after [n] passes. *)
Fixpoint after (n : nat) : Accelerated.Files * World :=
  match n with
  | O => (files, w)
  | S k =>
    let before := after k in
    let done := Exact.main (childOptions options) (clock (S k)) before.1 before.2 in
    (done.1.1.1, done.2)
  end.

(** The report pass [k] writes, which is the latest one when the
    orchestrator looks. *)
Definition reportOf (k : nat) : Exact.Report :=
  let before := after (k - 1) in
  (Exact.main (childOptions options) (clock k) before.1 before.2).1.2.

(** What the orchestrator reads after pass [k]. *)
Definition passResult (k : nat) : Exhaustive.PassResult :=
  Exhaustive.PassDone
    {| Exhaustive.missingAfter := Some (Exact.missing_after (Exact.dataset (reportOf k)));
       Exhaustive.mapped := Exact.summary_mapped (Exact.summary (reportOf k)) |}.

(** The orchestrator on real passes. *)
Definition main (fuel : nat) : Exhaustive.Exit :=
  Exhaustive.main passResult options fuel.

End WithPlatform.

End Passes.

(** ** A domain whose records disagree *)

Module GateCases.

(** Ten records of one domain with license 3, ten with license 4, and one
    without a license. *)
Definition splitDomain : Accelerated.Files :=
  {| Accelerated.urls :=
       map (λ i, Sample.row (Z.of_nat i) Sample.labelUrl (Some 3) None) (seq 1 10)
       ++ map (λ i, Sample.row (Z.of_nat i) Sample.labelUrl (Some 4) None) (seq 11 10)
       ++ [Sample.row 21 Sample.labelUrl None None];
     Accelerated.licenses := [Sample.category "by" 3; Sample.category "by-sa" 4] |}.

(** [--domain-min-known known --domain-min-purity purity] *)
Definition gated (known : Z) (purity : float) (o : Options) : Options :=
  {| write := write o; concurrency := concurrency o; timeoutMs := timeoutMs o;
     retries := retries o; archiveRetries := archiveRetries o;
     progressEvery := progressEvery o; useArchive := useArchive o;
     useSearchAlias := useSearchAlias o; useDomainConsensus := useDomainConsensus o;
     domainMinKnown := known; domainMinPurity := purity |}.

End GateCases.

(** ** The order of the replay under any collation *)

Module ReportOrder.

Section WithCollation.

(** [String.prototype.localeCompare]: the collation of the host, whose
    result is negative ([Lt]), zero ([Eq]) or positive ([Gt]). *)
Variable localeCompare : string → string → comparison.

(** [reports.sort((a, b) => a.generated_at.localeCompare(b.generated_at))]:
    [Array.prototype.sort] is stable, so an insertion sort that puts a
    report before the first report it is not after. *)
Fixpoint insertReport (r : Reconcile.Report) (sorted : list Reconcile.Report)
  : list Reconcile.Report :=
  match sorted with
  | [] => [r]
  | r' :: rest =>
    match localeCompare (Reconcile.generated_at r) (Reconcile.generated_at r') with
    | Gt => r' :: insertReport r rest
    | _ => r :: r' :: rest
    end
  end.

Definition sortReports (reports : list Reconcile.Report) : list Reconcile.Report :=
  foldr insertReport [] reports.

(** The report [a] is not after the report [b]. *)
Definition notAfter (a b : Reconcile.Report) : Prop :=
  localeCompare (Reconcile.generated_at a) (Reconcile.generated_at b) ≠ Gt.

(** The collation does not tell the time of the report from [t]. *)
Definition sameTime (t : string) (r : Reconcile.Report) : Prop :=
  localeCompare (Reconcile.generated_at r) t = Eq.

End WithCollation.

#[global] Instance sameTime_dec (localeCompare : string → string → comparison)
    (t : string) (r : Reconcile.Report) : Decision (sameTime localeCompare t r) :=
  comparison_eq_dec (localeCompare (Reconcile.generated_at r) t) Eq.

End ReportOrder.
(** * Properties *)

(** ** JavaScript sets *)

Lemma JsSet_elem_of_add x y s : y ∈ JsSet.add x s ↔ y = x ∨ y ∈ s.
Proof.
  unfold JsSet.add, JsSet.has. case_bool_decide.
  - split; [auto | intros [-> | ?]; auto].
  - rewrite elem_of_app, list_elem_of_singleton. tauto.
Qed.

Lemma JsSet_elem_of_foldl_add l : ∀ acc y,
  y ∈ foldl (λ s x, JsSet.add x s) acc l ↔ y ∈ acc ∨ y ∈ l.
Proof.
  induction l as [|a l IH]; intros acc y; simpl.
  - rewrite elem_of_nil. tauto.
  - rewrite IH, JsSet_elem_of_add, elem_of_cons. tauto.
Qed.

Lemma JsSet_elem_of_of_list l y : y ∈ JsSet.of_list l ↔ y ∈ l.
Proof.
  unfold JsSet.of_list. rewrite JsSet_elem_of_foldl_add, elem_of_nil. tauto.
Qed.

Lemma JsSet_NoDup_add x s : NoDup s → NoDup (JsSet.add x s).
Proof.
  intros Hs. unfold JsSet.add, JsSet.has. case_bool_decide; [done|].
  apply NoDup_app. split; [done|]. split; [|apply NoDup_singleton].
  intros y Hy ->%list_elem_of_singleton. done.
Qed.

Lemma JsSet_NoDup_of_list l : NoDup (JsSet.of_list l).
Proof.
  unfold JsSet.of_list. generalize (NoDup_nil_2 (A:=Z)).
  generalize (@nil Z). induction l as [|a l IH]; intros acc Hacc; simpl.
  - done.
  - apply IH, JsSet_NoDup_add, Hacc.
Qed.


(** ** Evidence reconciler *)

Lemma single_Some s x : single s = Some x → s = [x].
Proof.
  unfold single, JsSet.size.
  destruct (Z.eqb_spec (Z.of_nat (length s)) 1) as [Hlen|]; [|discriminate].
  destruct s as [|a [|b s]]; simpl in *; try lia; try discriminate.
  intros [= ->]. done.
Qed.

Lemma single_Some_elem s x : single s = Some x → x ∈ s.
Proof. intros ->%single_Some. apply list_elem_of_singleton. done. Qed.

(** C1 as the design document states it fails: with no type marker, a
    section link for 3 and a name marker for 5, a decision is returned. *)
Lemma C1_conflicting_singletons_decided :
  decideMappedId {| typeIds := []; sectionIds := [3]; nameIds := [5] |} ≠ None.
Proof. vm_compute. discriminate. Qed.

(** C1 (amended): with no type-marker candidate and two different
    singletons from the section-link and the name-marker strategies, the
    reconciler accepts the section-link id (rule 3), with provenance
    [license_section]. *)
Theorem C1_section_link_wins (a b : Z) :
  a ≠ b →
  decideMappedId {| typeIds := []; sectionIds := [a]; nameIds := [b] |}
  = Some {| bcId := a; source := "license_section" |}.
Proof.
  intros Hab. unfold decideMappedId, allIds; simpl.
  unfold JsSet.of_list; simpl. unfold JsSet.add at 2; simpl.
  unfold JsSet.add, JsSet.has. rewrite bool_decide_eq_false_2.
  - reflexivity.
  - rewrite list_elem_of_singleton. congruence.
Qed.

Lemma C1_section_link_wins_witness :
  decideMappedId {| typeIds := []; sectionIds := [3]; nameIds := [5] |}
  = Some {| bcId := 3; source := "license_section" |}.
Proof. apply (C1_section_link_wins 3 5). lia. Defined.

(** C10: a decision never fabricates an id.  The returned id belongs to
    one of the three candidate sets, and to the candidate set its
    provenance tag stands for. *)
Theorem C10_decision_from_evidence (ev : Evidence) (d : MappedId) :
  decideMappedId ev = Some d →
  (bcId d ∈ typeIds ev ∨ bcId d ∈ sectionIds ev ∨ bcId d ∈ nameIds ev)
  ∧ bcId d ∈ allIds ev
  ∧ bcId d ∈ candidatesOf ev (source d)
  ∧ (source d = "license_type" ∨ source d = "combined_single"
     ∨ source d = "license_section" ∨ source d = "license_name").
Proof.
  unfold decideMappedId, allIds.
  destruct (single (typeIds ev)) as [x|] eqn:Ht.
  { intros [= <-]; simpl. apply single_Some_elem in Ht.
    rewrite JsSet_elem_of_of_list, !elem_of_app. tauto. }
  destruct (single (JsSet.of_list _)) as [x|] eqn:Ha.
  { intros [= <-]; simpl. apply single_Some_elem in Ha.
    pose proof Ha as Ha'.
    rewrite JsSet_elem_of_of_list, !elem_of_app in Ha'.
    unfold candidatesOf, allIds; simpl. tauto. }
  destruct (single (sectionIds ev)) as [x|] eqn:Hs.
  { intros [= <-]; simpl. apply single_Some_elem in Hs.
    rewrite JsSet_elem_of_of_list, !elem_of_app.
    unfold candidatesOf; simpl. tauto. }
  destruct (single (nameIds ev)) as [x|] eqn:Hn; [|discriminate].
  intros [= <-]; simpl. apply single_Some_elem in Hn.
  rewrite JsSet_elem_of_of_list, !elem_of_app.
  unfold candidatesOf; simpl. tauto.
Qed.

Lemma C10_decision_from_evidence_witness :
  let ev := {| typeIds := [3]; sectionIds := [3; 5]; nameIds := [] |} in
  let d := {| bcId := 3; source := "license_type" |} in
  decideMappedId ev = Some d ∧ bcId d ∈ candidatesOf ev (source d).
Proof.
  split; [reflexivity|].
  apply (C10_decision_from_evidence
           {| typeIds := [3]; sectionIds := [3; 5]; nameIds := [] |}
           {| bcId := 3; source := "license_type" |}).
  reflexivity.
Defined.


(** ** Dataset merger: license counts *)

Lemma bumpKey_lookup (k j : Z) (m : gmap Z Z) :
  default 0 (Accelerated.bumpKey k m !! j)
  = default 0 (m !! j) + (if bool_decide (k = j) then 1 else 0).
Proof.
  unfold Accelerated.bumpKey. case_bool_decide as Hk.
  - subst. rewrite lookup_insert_eq. reflexivity.
  - rewrite lookup_insert_ne by done. lia.
Qed.

Lemma length_filter_cons {A} (P : A → Prop) `{∀ x, Decision (P x)} (x : A) (l : list A) :
  Z.of_nat (length (filter P (x :: l)))
  = (if bool_decide (P x) then 1 else 0) + Z.of_nat (length (filter P l)).
Proof.
  rewrite filter_cons. case_bool_decide; destruct (decide (P x)); try done; simpl; lia.
Qed.

Lemma accelerated_counts_foldl (V : JsSet.t) (k : Z) (urls : list Row.t) :
  ∀ m : gmap Z Z,
    default 0 (foldl (λ counts row,
                 if Accelerated.isVisibleActiveRow row V then
                   match Row.license row with
                   | Some license => Accelerated.bumpKey license counts
                   | None => counts
                   end
                 else counts) m urls !! k)
    = default 0 (m !! k)
      + Z.of_nat (length (filter
          (λ row, Accelerated.isVisibleActiveRow row V = true ∧ Row.license row = Some k) urls)).
Proof.
  induction urls as [|row urls IH]; intros m; simpl.
  - lia.
  - rewrite IH, length_filter_cons.
    destruct (Accelerated.isVisibleActiveRow row V) eqn:Hv.
    + destruct (Row.license row) as [l|] eqn:Hl.
      * rewrite bumpKey_lookup. destruct (decide (l = k)) as [->|Hne].
        -- rewrite !bool_decide_eq_true_2 by done. lia.
        -- rewrite (bool_decide_eq_false_2 (l = k)) by done.
           rewrite bool_decide_eq_false_2 by (intros [_ [= ?]]; done). lia.
      * rewrite bool_decide_eq_false_2 by (intros [_ [= ?]]). lia.
    + rewrite bool_decide_eq_false_2 by (intros [[= ?] _]). lia.
Qed.

(** The count the accelerated fixer computes for a known category is the
    number of active records that reference it. *)
Lemma accelerated_count_exact (V : JsSet.t) (k : Z) (urls : list Row.t) :
  k ∈ V →
  default 0 (Accelerated.countsByBcId V urls !! k) = activeReferencing k urls.
Proof.
  intros Hk. unfold Accelerated.countsByBcId, activeReferencing.
  rewrite accelerated_counts_foldl, lookup_empty. simpl. rewrite Z.add_0_l.
  f_equal. f_equal. apply list_filter_iff. intros row.
  unfold Accelerated.isVisibleActiveRow, JsSet.has.
  split.
  - intros [Hv Hl]. rewrite Hl in Hv.
    apply andb_true_iff in Hv as [Ha _].
    split; [|done]. by apply String.eqb_eq.
  - intros [Ha Hl]. rewrite Hl, Ha. simpl.
    split; [|done]. by apply bool_decide_eq_true_2.
Qed.

Lemma validLicenses_bc_id_valid (l : License.t) (validLicenses : list License.t) :
  l ∈ validLicenses → License.bc_id l ∈ JsSet.of_list (map License.bc_id validLicenses).
Proof.
  intros Hl. apply JsSet_elem_of_of_list.
  apply list_elem_of_fmap. eauto.
Qed.

(** After a writing run of the accelerated fixer, the count of every
    category of the license file is the number of active records of the
    rewritten [urls.json] that reference it. *)
Lemma accelerated_main_counts `{Platform} (options : Options) (ts : string)
    (files : Accelerated.Files) (w : World) (l : License.t) :
  write options = true →
  l ∈ (Accelerated.main options ts files w).1.1.2 →
  License.count l
  = activeReferencing (License.bc_id l)
      (Accelerated.urls (Accelerated.main options ts files w).1.1.1).
Proof.
  intros Hw. unfold Accelerated.main, bind, ret.
  destruct (mapM _ _ w) as [results w']. simpl. rewrite Hw. simpl.
  unfold Accelerated.cleanedLicenses.
  intros (l0 & -> & Hl0)%list_elem_of_fmap. simpl.
  apply accelerated_count_exact, validLicenses_bc_id_valid, Hl0.
Qed.

(** C3 on the exact fixer: with one category and one dead record that
    carries it, a writing run stores count 1 for the category although no
    active record references it. *)
Theorem C3_exact_counts_dead_records :
  let run := (Exact.main (H := Sample.scripted Sample.offline)
                Sample.exactWrite "2024-01-01T00:00:00.000Z" Sample.deadLicensed 0%nat).1 in
  map License.count run.1.2 = [1]
  ∧ activeReferencing 3 (Accelerated.urls run.1.1) = 0.
Proof. vm_compute. split; reflexivity. Qed.

(** ** Dataset merger: idempotence *)

Lemma accelerated_mergeRow_url_id (ts : string) (m : Outcome.t) (row : Row.t) :
  Row.url_id (Accelerated.mergeRow ts m row) = Row.url_id row.
Proof. unfold Accelerated.mergeRow. destruct (Outcome.mapped m); reflexivity. Qed.

(** A second outcome for a row overrides what the first one wrote, when the
    second is the same outcome. *)
Lemma accelerated_mergeRow_twice (ts1 ts2 : string) (m : Outcome.t) (row : Row.t) :
  Accelerated.mergeRow ts2 m (Accelerated.mergeRow ts1 m row) = Accelerated.mergeRow ts2 m row.
Proof.
  unfold Accelerated.mergeRow.
  destruct (Outcome.mapped m) as [mp|]; simpl; [|reflexivity].
  destruct (Outcome.alias_url m) as [alias|]; simpl; [|reflexivity].
  destruct (startsWith _ "search_alias_"); reflexivity.
Qed.

Lemma accelerated_mergeOutcomes_twice (ts1 ts2 : string) (results : list Outcome.t)
    (urls : list Row.t) :
  Accelerated.mergeOutcomes ts2 results (Accelerated.mergeOutcomes ts1 results urls)
  = Accelerated.mergeOutcomes ts2 results urls.
Proof.
  unfold Accelerated.mergeOutcomes. rewrite map_map. apply map_ext. intros row.
  destruct (Accelerated.resultById results !! Row.url_id row) as [m|] eqn:Hm.
  - rewrite accelerated_mergeRow_url_id, Hm. apply accelerated_mergeRow_twice.
  - rewrite Hm. reflexivity.
Qed.

Lemma exact_mergeRow_url_id (m : option Exact.Outcome) (row : Row.t) :
  Row.url_id (Exact.mergeRow m row) = Row.url_id row.
Proof. destruct m as [[? ? ? ? ? [?|] ? ? ?]|]; reflexivity. Qed.

Lemma exact_mergeOutcomes_twice (results : list Exact.Outcome) (urls : list Row.t) :
  Exact.mergeOutcomes results (Exact.mergeOutcomes results urls)
  = Exact.mergeOutcomes results urls.
Proof.
  unfold Exact.mergeOutcomes. rewrite map_map. apply map_ext. intros row.
  rewrite exact_mergeRow_url_id.
  destruct (Exact.resultsById results !! Row.url_id row) as [[? ? ? ? ? [?|] ? ? ?]|];
    reflexivity.
Qed.

(** C5: the merge step is idempotent.  Applying a batch of outcomes (with
    the run timestamp it carries) to the state it produced changes
    neither the records nor the license counts, in the accelerated and in
    the exact fixer. *)
Theorem C5_merge_idempotent (ts : string) (results : list Outcome.t)
    (exactResults : list Exact.Outcome) (urls : list Row.t)
    (validLicenses : list License.t) (validBcIds : JsSet.t) :
  let once := Accelerated.mergeOutcomes ts results urls in
  let twice := Accelerated.mergeOutcomes ts results once in
  let onceExact := Exact.mergeOutcomes exactResults urls in
  let twiceExact := Exact.mergeOutcomes exactResults onceExact in
  twice = once
  ∧ Accelerated.cleanedLicenses validLicenses (Accelerated.countsByBcId validBcIds twice)
    = Accelerated.cleanedLicenses validLicenses (Accelerated.countsByBcId validBcIds once)
  ∧ twiceExact = onceExact
  ∧ Accelerated.cleanedLicenses validLicenses (Exact.countsByBcId twiceExact)
    = Accelerated.cleanedLicenses validLicenses (Exact.countsByBcId onceExact).
Proof.
  simpl. rewrite accelerated_mergeOutcomes_twice, exact_mergeOutcomes_twice. done.
Qed.

(** ** Multi-pass orchestrator *)

Section OrchestratorFacts.

Variable passResult : nat → Exhaustive.PassResult.
Variable options : Exhaustive.Options.

Abbreviation T := (Exhaustive.stopAfterNoProgressPasses options).
Abbreviation C := (Exhaustive.maxPasses options).
Abbreviation streak := (Exhaustive.noProgressAfter passResult).
Abbreviation mappedAt := (Exhaustive.mappedAt passResult).
Abbreviation stopsAfter := (Exhaustive.stopsAfter passResult options).
Abbreviation exitAfter := (Exhaustive.exitAfter passResult options).
Abbreviation loop := (Exhaustive.loop passResult options).

Lemma countNoProgress_reset (mapped : Z) (c : nat) :
  mapped ≠ 0 → Exhaustive.countNoProgress mapped c = O.
Proof.
  intros Hm. unfold Exhaustive.countNoProgress.
  destruct (Z.eqb_spec mapped 0); [done | reflexivity].
Qed.

(** The counter is the length of the run of passes without progress that
    ends at the last pass. *)
Lemma streak_window (n : nat) : ∀ t : nat,
  (0 < t)%nat →
  (t ≤ streak n)%nat ↔ (t ≤ n)%nat ∧ ∀ k : nat, (n - t < k ≤ n)%nat → mappedAt k = 0.
Proof.
  induction n as [|m IH]; intros t Ht; simpl.
  - split; [lia | intros [? _]; lia].
  - unfold Exhaustive.countNoProgress.
    destruct (Z.eqb_spec (mappedAt (S m)) 0) as [Hz|Hnz].
    + destruct (decide (t = 1%nat)) as [->|Hne].
      * split; [|lia]. intros _. split; [lia|].
        intros k Hk. assert (k = S m) as -> by lia. done.
      * specialize (IH (t - 1)%nat ltac:(lia)). split.
        -- intros Hle. destruct IH as [IH _]. destruct IH as [Htm Hall]; [lia|].
           split; [lia|]. intros k Hk.
           destruct (decide (k = S m)) as [->|]; [done|]. apply Hall. lia.
        -- intros [Htm Hall]. destruct IH as [_ IH].
           assert (t - 1 ≤ streak m)%nat; [|lia].
           apply IH. split; [lia|]. intros k Hk. apply Hall. lia.
    + split; [lia|]. intros [Htm Hall]. exfalso. apply Hnz, Hall. lia.
Qed.

Lemma stops_exitAfter (n : nat) :
  passResult n ≠ Exhaustive.PassFailed → stopsAfter n → is_Some (exitAfter n).
Proof.
  unfold Exhaustive.exitAfter, Exhaustive.stopsAfter, Exhaustive.missingAfterAt.
  destruct (passResult n) as [|report]; [done|]. intros _ Hstop.
  case_bool_decide as Hmiss; [by eexists|].
  destruct Hstop as [?|[(Ht & Htn & Hall)|[Hc ->]]]; [done| |].
  - assert (T ≤ streak n)%nat as Hs by (by apply streak_window).
    apply Nat.ltb_lt in Ht. apply Nat.leb_le in Hs. rewrite Ht, Hs. by eexists.
  - apply Nat.ltb_lt in Hc. rewrite Hc, Nat.leb_refl. simpl. case_match; by eexists.
Qed.

Lemma exitAfter_stops (n : nat) :
  (∀ k : nat, (1 ≤ k ≤ n)%nat → passResult k ≠ Exhaustive.PassFailed) →
  (∀ m : nat, (1 ≤ m < n)%nat → exitAfter m = None) →
  is_Some (exitAfter n) → stopsAfter n.
Proof.
  intros Hok Hfirst. unfold Exhaustive.exitAfter at 1.
  unfold Exhaustive.stopsAfter, Exhaustive.missingAfterAt.
  destruct (passResult n) as [|report] eqn:Hn; [by intros [? ?]|].
  case_bool_decide as Hmiss; [by left|].
  destruct ((0 <? T)%nat && (T <=? streak n)%nat) eqn:Hstall.
  { intros _. right; left. apply andb_true_iff in Hstall as [Ht Hs].
    apply Nat.ltb_lt in Ht. apply Nat.leb_le in Hs.
    split; [done|]. by apply streak_window. }
  destruct ((0 <? C)%nat && (C <=? n)%nat) eqn:Hcap; [|by intros [? ?]].
  intros _. right; right. apply andb_true_iff in Hcap as [Hc Hn'].
  apply Nat.ltb_lt in Hc. apply Nat.leb_le in Hn'.
  split; [done|]. destruct (decide (n = C)) as [|Hne]; [done|].
  exfalso. assert (1 ≤ C < n)%nat as HC by lia.
  pose proof (stops_exitAfter C (Hok C ltac:(lia))) as Hs.
  rewrite (Hfirst C HC) in Hs. destruct Hs as [? ?]; [|done].
  right; right. done.
Qed.

(** Before the first pass that stops, the loop neither exits nor stops by
    the rule. *)
Lemma first_exit_first_stop (n : nat) :
  (∀ k : nat, (1 ≤ k ≤ n)%nat → passResult k ≠ Exhaustive.PassFailed) →
  (∀ m : nat, (1 ≤ m ≤ n)%nat → exitAfter m = None)
  ↔ (∀ m : nat, (1 ≤ m ≤ n)%nat → ¬ stopsAfter m).
Proof.
  induction n as [|n IH]; intros Hok.
  - split; intros _ m Hm; lia.
  - specialize (IH ltac:(intros k Hk; apply Hok; lia)). split.
    + intros Hex m Hm Hstop.
      pose proof (stops_exitAfter m (Hok m Hm) Hstop) as [r Hr].
      rewrite (Hex m Hm) in Hr. done.
    + intros Hns m Hm. destruct (exitAfter m) as [r|] eqn:Hr; [|done].
      exfalso. assert (∀ j : nat, (1 ≤ j ≤ n)%nat → exitAfter j = None) as Hbefore.
      { apply IH. intros j Hj. apply Hns. lia. }
      apply (Hns m Hm). apply exitAfter_stops.
      * intros k Hk. apply Hok. lia.
      * intros j Hj. apply Hbefore. lia.
      * by eexists.
Qed.

(** The loop body on the counter the earlier passes left. *)
Lemma loop_step (fuel p : nat) :
  loop (S fuel) p (streak p)
  = match passResult (S p) with
    | Exhaustive.PassFailed => Exhaustive.Crashed (S p)
    | Exhaustive.PassDone _ =>
      match exitAfter (S p) with
      | Some why => Exhaustive.Done (S p) why
      | None => loop fuel (S p) (streak (S p))
      end
    end.
Proof.
  simpl. unfold Exhaustive.exitAfter, Exhaustive.mappedAt. simpl.
  unfold Exhaustive.mappedAt.
  destruct (passResult (S p)) as [|report]; [reflexivity|].
  repeat case_match; reflexivity.
Qed.

Lemma loop_done (fuel : nat) : ∀ (p n : nat) (why : Exhaustive.Reason),
  loop fuel p (streak p) = Exhaustive.Done n why →
  (p < n ≤ p + fuel)%nat
  ∧ exitAfter n = Some why
  ∧ (∀ m : nat, (p < m < n)%nat → exitAfter m = None)
  ∧ (∀ k : nat, (p < k ≤ n)%nat → passResult k ≠ Exhaustive.PassFailed).
Proof.
  induction fuel as [|fuel IH]; intros p n why; [discriminate|].
  rewrite loop_step.
  destruct (passResult (S p)) as [|report] eqn:Hp; [discriminate|].
  destruct (exitAfter (S p)) as [r|] eqn:Hr.
  - intros [= <- <-]. split; [lia|]. split; [done|]. split.
    + intros m Hm. lia.
    + intros k Hk. assert (k = S p) as -> by lia. congruence.
  - intros (Hn & Hex & Hfirst & Hok)%IH. split; [lia|]. split; [done|]. split.
    + intros m Hm. destruct (decide (m = S p)) as [->|]; [done|]. apply Hfirst. lia.
    + intros k Hk. destruct (decide (k = S p)) as [->|]; [congruence|]. apply Hok. lia.
Qed.

Lemma loop_reaches (fuel : nat) : ∀ (p n : nat) (why : Exhaustive.Reason),
  (p < n ≤ p + fuel)%nat →
  exitAfter n = Some why →
  (∀ m : nat, (p < m < n)%nat → exitAfter m = None) →
  (∀ k : nat, (p < k ≤ n)%nat → passResult k ≠ Exhaustive.PassFailed) →
  loop fuel p (streak p) = Exhaustive.Done n why.
Proof.
  induction fuel as [|fuel IH]; intros p n why Hn Hex Hfirst Hok; [lia|].
  rewrite loop_step.
  destruct (passResult (S p)) as [|report] eqn:Hp.
  { exfalso. apply (Hok (S p)); [lia | done]. }
  destruct (decide (n = S p)) as [->|Hne].
  - rewrite Hex. reflexivity.
  - rewrite (Hfirst (S p)) by lia. apply IH; try done; try lia.
    + intros m Hm. apply Hfirst. lia.
    + intros k Hk. apply Hok. lia.
Qed.

(** C9: the loop of the orchestrator ends after pass [n] exactly when
    every pass up to [n] produced a report and [n] is the first pass after
    which nothing is left unresolved, or the last [threshold > 0] passes
    all mapped nothing, or the pass count is the cap [> 0]; it then ends
    for every allowance of at least [n] passes; and the counter of passes
    without progress is reset by every pass that mapped something. *)
Theorem C9_orchestrator_stops (n : nat) :
  ((∃ (fuel : nat) (why : Exhaustive.Reason),
       Exhaustive.main passResult options fuel = Exhaustive.Done n why)
   ↔ ((1 ≤ n)%nat
      ∧ (∀ k : nat, (1 ≤ k ≤ n)%nat → passResult k ≠ Exhaustive.PassFailed)
      ∧ stopsAfter n
      ∧ ∀ m : nat, (1 ≤ m < n)%nat → ¬ stopsAfter m))
  ∧ (∀ (fuel : nat) (why : Exhaustive.Reason),
       Exhaustive.main passResult options fuel = Exhaustive.Done n why →
       ∀ fuel' : nat, (n ≤ fuel')%nat →
         Exhaustive.main passResult options fuel' = Exhaustive.Done n why)
  ∧ (∀ (mapped : Z) (consecutiveNoProgress : nat),
       0 < mapped → Exhaustive.countNoProgress mapped consecutiveNoProgress = O)
  ∧ (∀ k : nat, 0 < mappedAt (S k) → streak (S k) = O).
Proof.
  unfold Exhaustive.main. split; [split|split; [|split]].
  - intros (fuel & why & Hrun).
    apply (loop_done fuel 0 n why) in Hrun as (Hn & Hex & Hfirst & Hok).
    assert (∀ k : nat, (1 ≤ k ≤ n)%nat → passResult k ≠ Exhaustive.PassFailed) as Hok'
      by (intros k Hk; apply Hok; lia).
    assert (∀ m : nat, (1 ≤ m < n)%nat → exitAfter m = None) as Hfirst'
      by (intros m Hm; apply Hfirst; lia).
    split; [lia|]. split; [done|]. split.
    + apply exitAfter_stops; [done | done | by eexists].
    + intros m Hm.
      apply (proj1 (first_exit_first_stop (n - 1)
                      ltac:(intros k Hk; apply Hok'; lia))); [|lia].
      intros j Hj. apply Hfirst'. lia.
  - intros (Hn & Hok & Hstop & Hfirst).
    destruct (stops_exitAfter n (Hok n ltac:(lia)) Hstop) as [why Hwhy].
    exists n, why. apply loop_reaches; [lia | done | |].
    + intros m Hm.
      apply (proj2 (first_exit_first_stop (n - 1)
                      ltac:(intros k Hk; apply Hok; lia))); [|lia].
      intros j Hj. apply Hfirst. lia.
    + intros k Hk. apply Hok. lia.
  - intros fuel why Hrun fuel' Hfuel.
    apply (loop_done fuel 0 n why) in Hrun as (Hn & Hex & Hfirst & Hok).
    apply loop_reaches; [lia | done | done | done].
  - intros mapped c Hm. apply countNoProgress_reset. lia.
  - intros k Hk. simpl. apply countNoProgress_reset. lia.
Qed.

End OrchestratorFacts.

(** Three passes in a row that map nothing end the loop at the third pass
    when the stall threshold is 3 and the pass cap is not reached. *)
Lemma stall_after_three_passes (passResult : nat → Exhaustive.PassResult)
    (options : Exhaustive.Options) :
  Exhaustive.stopAfterNoProgressPasses options = 3%nat →
  (Exhaustive.maxPasses options = 0 ∨ 3 < Exhaustive.maxPasses options)%nat →
  (∀ k : nat, (1 ≤ k ≤ 3)%nat →
     ∃ report, passResult k = Exhaustive.PassDone report
               ∧ Exhaustive.mapped report = 0
               ∧ Exhaustive.missingAfter report ≠ Some 0) →
  ∀ fuel : nat, (3 ≤ fuel)%nat →
    Exhaustive.main passResult options fuel = Exhaustive.Done 3 Exhaustive.Stalled.
Proof.
  intros HT HC Hpasses fuel Hfuel.
  destruct (Hpasses 1%nat ltac:(lia)) as (r1 & H1 & Hm1 & Hu1).
  destruct (Hpasses 2%nat ltac:(lia)) as (r2 & H2 & Hm2 & Hu2).
  destruct (Hpasses 3%nat ltac:(lia)) as (r3 & H3 & Hm3 & Hu3).
  destruct fuel as [|[|[|fuel]]]; try lia.
  unfold Exhaustive.main. simpl. rewrite H1, H2, H3, Hm1, Hm2, Hm3, HT. simpl.
  rewrite !bool_decide_eq_false_2 by done.
  destruct HC as [-> | HC]; simpl; [reflexivity|].
  destruct (Exhaustive.maxPasses options) as [|[|[|[|c]]]]; try lia; reflexivity.
Qed.

Lemma C9_orchestrator_stops_witness :
  ∃ (fuel : nat) (why : Exhaustive.Reason),
    Exhaustive.main Sample.stalled Exhaustive.DEFAULTS fuel = Exhaustive.Done 3 why.
Proof.
  apply (proj2 (proj1 (C9_orchestrator_stops Sample.stalled Exhaustive.DEFAULTS 3))).
  split; [lia|]. split; [intros k _; discriminate|]. split.
  - right; left. simpl. split; [lia|]. split; [lia|]. intros k _. reflexivity.
  - intros m Hm [Hmiss|[(_ & Hle & _)|[Hcap _]]].
    + discriminate Hmiss.
    + simpl in Hle. lia.
    + simpl in Hcap. lia.
Defined.

(** ** Fallback chain: alias discovery *)

Section AliasFacts.
Context `{Platform}.





Variable slug : string.
Variable options : Options.


End AliasFacts.

(** ** Fallback chain: the steps of [inspectRow] *)

Section ChainFacts.
Context `{Platform}.

Lemma earlierStages_unfold (row : Row.t) (ctx : Accelerated.Context) (w : World) :
  Accelerated.earlierStages row ctx w
  = let (live, w1) := Accelerated.fetchWithRetries (Row.url row)
                        (timeoutMs (Accelerated.options ctx))
                        (retries (Accelerated.options ctx)) w in
    match Accelerated.liveStage row ctx live with
    | Some decided => (Some decided, live, w1)
    | None =>
      let (archived, w2) := Accelerated.archiveStage row ctx live w1 in
      match archived with
      | Some decided => (Some decided, live, w2)
      | None =>
        let (aliased, w3) := Accelerated.aliasStage row ctx live w2 in
        (aliased, live, w3)
      end
    end.
Proof.
  unfold Accelerated.earlierStages, bind, ret.
  destruct (Accelerated.fetchWithRetries _ _ _ w) as [live w1].
  destruct (Accelerated.liveStage row ctx live); [reflexivity|].
  destruct (Accelerated.archiveStage row ctx live w1) as [[d|] w2]; [reflexivity|].
  destruct (Accelerated.aliasStage row ctx live w2) as [aliased w3]. reflexivity.
Qed.

Lemma inspectRow_unfold (row : Row.t) (ctx : Accelerated.Context) (w : World) :
  Accelerated.inspectRow row ctx w
  = let (earlier, w') := Accelerated.earlierStages row ctx w in
    (match earlier.1 with
     | Some decided => decided
     | None =>
       match Accelerated.consensusStage row ctx earlier.2 with
       | Some decided => decided
       | None => Accelerated.unresolvedOutcome row earlier.2
       end
     end, w').
Proof.
  unfold Accelerated.inspectRow, bind, ret.
  destruct (Accelerated.earlierStages row ctx w) as [[[d|] live] w']; simpl;
    [reflexivity|].
  destruct (Accelerated.consensusStage row ctx live); reflexivity.
Qed.

(** The live fetch [earlierStages] hands on is the first answer. *)
Lemma earlierStages_live (row : Row.t) (ctx : Accelerated.Context) (w : World) :
  (Accelerated.earlierStages row ctx w).1.2
  = (Accelerated.fetchWithRetries (Row.url row) (timeoutMs (Accelerated.options ctx))
       (retries (Accelerated.options ctx)) w).1.
Proof.
  rewrite earlierStages_unfold.
  destruct (Accelerated.fetchWithRetries _ _ _ w) as [live w1]. simpl.
  destruct (Accelerated.liveStage row ctx live); [reflexivity|].
  destruct (Accelerated.archiveStage row ctx live w1) as [[d|] w2]; [reflexivity|].
  destruct (Accelerated.aliasStage row ctx live w2) as [aliased w3]. reflexivity.
Qed.

Lemma liveStage_Some (row : Row.t) (ctx : Accelerated.Context) (live : Fetched) (d : Outcome.t) :
  Accelerated.liveStage row ctx live = Some d →
  ∃ m, Accelerated.decidePage ctx live = Some m
       ∧ d = Accelerated.mappedOutcome row ctx live None None None (bcId m) (source m).
Proof.
  unfold Accelerated.liveStage.
  destruct (Accelerated.decidePage ctx live) as [m|]; [|discriminate].
  intros [= <-]. eauto.
Qed.

Lemma archiveStage_Some (row : Row.t) (ctx : Accelerated.Context) (live : Fetched)
    (w w' : World) (d : Outcome.t) :
  Accelerated.archiveStage row ctx live w = (Some d, w') →
  ∃ snapshotUrl archived m,
    Accelerated.decidePage ctx archived = Some m
    ∧ d = Accelerated.mappedOutcome row ctx live (f_status archived) (Some snapshotUrl) None
            (bcId m) ("wayback_" +:+ source m).
Proof.
  unfold Accelerated.archiveStage, bind, ret.
  destruct (useArchive _ && Accelerated.is404 live); [|discriminate].
  destruct (Accelerated.findWaybackSnapshotUrl _ _ w) as [[snapshotUrl|] w1]; [|discriminate].
  destruct (Accelerated.fetchWithRetries snapshotUrl _ _ w1) as [archived w2].
  destruct (Accelerated.decidePage ctx archived) as [m|] eqn:Hm; [|discriminate].
  intros [= <- <-]. eauto.
Qed.

Lemma consensusStage_Some (row : Row.t) (ctx : Accelerated.Context) (live : Fetched)
    (d : Outcome.t) :
  Accelerated.consensusStage row ctx live = Some d →
  ∃ top, d = Accelerated.mappedOutcome row ctx live None None None top "domain_consensus".
Proof.
  unfold Accelerated.consensusStage. repeat case_match; try discriminate.
  intros [= <-]. eauto.
Qed.





End ChainFacts.


(** ** Fallback chain: archive step, reasons, domain consensus *)

Lemma decideMappedId_source (ev : Evidence) (d : MappedId) :
  decideMappedId ev = Some d →
  source d = "license_type" ∨ source d = "combined_single"
  ∨ source d = "license_section" ∨ source d = "license_name".
Proof.
  unfold decideMappedId. repeat case_match; try discriminate; intros [= <-]; simpl; tauto.
Qed.

Lemma startsWith_append (p s : string) : startsWith (p +:+ s) p = true.
Proof.
  unfold startsWith. induction p as [|a p IH]; simpl.
  - destruct s; reflexivity.
  - destruct (ascii_dec a a); [exact IH | done].
Qed.

Section ArchiveFacts.
Context `{Platform}.

(** C2 (amended): a record whose live fetch answers 404 without decisive
    evidence and whose archived snapshot decides a license id gets an
    outcome whose provenance is the archive-prefixed source
    ([wayback_...], which no live decision carries); the merged record
    has [status = dead], the decided license, and [health_reason =
    http_404]. *)
Theorem C2_archive_decision_marks_dead (row : Row.t) (ctx : Accelerated.Context)
    (ts : string) (w w1 w2 w3 : World) (finalUrl text snapshotUrl : string)
    (archived : Fetched) (decision : MappedId) :
  let o := Accelerated.options ctx in
  useArchive o = true →
  Accelerated.fetchWithRetries (Row.url row) (timeoutMs o) (retries o) w
  = (FetchOk 404 finalUrl text, w1) →
  Accelerated.decidePage ctx (FetchOk 404 finalUrl text) = None →
  Accelerated.findWaybackSnapshotUrl (Row.url row) o w1 = (Some snapshotUrl, w2) →
  Accelerated.fetchWithRetries snapshotUrl (timeoutMs o) (archiveRetries o) w2
  = (archived, w3) →
  Accelerated.decidePage ctx archived = Some decision →
  let outcome := (Accelerated.inspectRow row ctx w).1 in
  let merged := Accelerated.mergeRow ts outcome row in
  Outcome.mapped outcome
  = Some {| Mapped.bc_id := bcId decision;
            Mapped.name := Accelerated.licenseById ctx !! bcId decision;
            Mapped.source := "wayback_" +:+ source decision |}
  ∧ Outcome.archive_url outcome = Some snapshotUrl
  ∧ startsWith ("wayback_" +:+ source decision) "wayback_" = true
  ∧ (∀ ev live, decideMappedId ev = Some live →
                source live ≠ "wayback_" +:+ source decision)
  ∧ Row.status merged = Some "dead"
  ∧ Row.license merged = Some (bcId decision)
  ∧ Row.health_reason merged = Some "http_404"
  ∧ Row.health_checked_at merged = Some ts.
Proof.
  intros o Harchive Hlive Hnone Hsnap Hfetch Hdecide outcome merged.
  assert (outcome
          = Accelerated.mappedOutcome row ctx (FetchOk 404 finalUrl text)
              (f_status archived) (Some snapshotUrl) None
              (bcId decision) ("wayback_" +:+ source decision)) as Hout.
  { unfold outcome. rewrite inspectRow_unfold, earlierStages_unfold.
    fold o. rewrite Hlive. unfold Accelerated.liveStage. rewrite Hnone.
    unfold Accelerated.archiveStage, bind, ret. fold o. rewrite Harchive. simpl.
    rewrite Hsnap, Hfetch, Hdecide. reflexivity. }
  unfold merged. rewrite Hout. unfold Accelerated.mergeRow. simpl.
  split; [reflexivity|]. split; [reflexivity|].
  split; [apply startsWith_append|]. split.
  { intros ev live Hev Heq.
    apply decideMappedId_source in Hev as [Hs|[Hs|[Hs|Hs]]];
      rewrite Hs in Heq; discriminate Heq. }
  repeat split.
Qed.

(** In the accelerated fixer an outcome without a mapping carries a reason
    that classifies the live fetch alone. *)
Lemma inspectRow_unresolved_reason (row : Row.t) (ctx : Accelerated.Context) (w : World) :
  let outcome := (Accelerated.inspectRow row ctx w).1 in
  let live := (Accelerated.fetchWithRetries (Row.url row)
                 (timeoutMs (Accelerated.options ctx))
                 (retries (Accelerated.options ctx)) w).1 in
  Outcome.mapped outcome = None →
  Outcome.reason outcome
  = Some match live with
         | FetchOk st _ _ => "unresolved_status_" +:+ showZ st
         | FetchErr e => "fetch_error:" +:+ e
         end.
Proof.
  simpl. rewrite <- earlierStages_live, inspectRow_unfold.
  rewrite earlierStages_unfold.
  destruct (Accelerated.fetchWithRetries _ _ _ w) as [live w1].
  destruct (Accelerated.liveStage row ctx live) as [d|] eqn:Hlive.
  { simpl. apply liveStage_Some in Hlive as (m & _ & ->). discriminate. }
  destruct (Accelerated.archiveStage row ctx live w1) as [[d|] w2] eqn:Harch.
  { simpl. apply archiveStage_Some in Harch as (s & a & m & _ & ->). discriminate. }
  destruct (Accelerated.aliasStage row ctx live w2) as [[d|] w3] eqn:Halias.
  { simpl. revert Halias. unfold Accelerated.aliasStage, bind, ret.
    repeat case_match; try discriminate; intros [= <- <-]; discriminate. }
  simpl.
  destruct (Accelerated.consensusStage row ctx live) as [d|] eqn:Hcons; [|reflexivity].
  apply consensusStage_Some in Hcons as (top & ->). discriminate.
Qed.

Lemma of_list_nil_inv (l : list Z) : JsSet.of_list l = [] → l = [].
Proof.
  destruct l as [|x l]; [done|]. intros Hnil.
  assert (x ∈ JsSet.of_list (x :: l)) as Hx by (apply JsSet_elem_of_of_list; left).
  rewrite Hnil in Hx. by apply elem_of_nil in Hx.
Qed.

Lemma matchedOf_nil_inv (targetMap : gmap string Exact.Target) (detected : list CcUrl) :
  detected = [] → Exact.matchedOf targetMap detected = [].
Proof. intros ->. reflexivity. Qed.

(** C8 (amended): in the exact fixer two or more distinct matched ids give
    the unresolved reason [ambiguous_exact_matches], which an outcome
    without any matched evidence never carries; in the accelerated fixer
    the reason of an unresolved outcome only classifies the live fetch. *)
Theorem C8_ambiguity_reason (listing : Row.t) (targetMap : gmap string Exact.Target)
    (status : Z) (finalUrl text : string) (ctx : Accelerated.Context) (w : World) :
  let detected := Exact.extractCcLicenseUrls text in
  let matched := Exact.matchedOf targetMap detected in
  let uniqueBcIds := JsSet.of_list (map (λ m, Exact.target_bc_id (Exact.m_target m)) matched) in
  let outcome := Exact.pageOutcome listing targetMap status finalUrl text in
  ((2 ≤ length uniqueBcIds)%nat →
     Exact.mapped outcome = None
     ∧ Exact.reason outcome = Some "ambiguous_exact_matches")
  ∧ (matched = [] →
     Exact.mapped outcome = None
     ∧ Exact.reason outcome ≠ Some "ambiguous_exact_matches")
  ∧ (let accelerated := (Accelerated.inspectRow listing ctx w).1 in
     let live := (Accelerated.fetchWithRetries (Row.url listing)
                    (timeoutMs (Accelerated.options ctx))
                    (retries (Accelerated.options ctx)) w).1 in
     Outcome.mapped accelerated = None →
     Outcome.reason accelerated
     = Some match live with
            | FetchOk st _ _ => "unresolved_status_" +:+ showZ st
            | FetchErr e => "fetch_error:" +:+ e
            end).
Proof.
  intros detected matched uniqueBcIds outcome. split; [|split].
  - intros Hmany. unfold outcome, Exact.pageOutcome.
    fold detected. fold matched. fold uniqueBcIds.
    destruct uniqueBcIds as [|a [|b ids]] eqn:Hids; simpl in Hmany; try lia.
    simpl. split; [reflexivity|].
    unfold Exact.unresolvedReason.
    destruct matched as [|m ms] eqn:Hm.
    { unfold uniqueBcIds in Hids. discriminate Hids. }
    destruct detected as [|d ds] eqn:Hd.
    { unfold matched in Hm. discriminate Hm. }
    reflexivity.
  - intros Hnil. unfold outcome, Exact.pageOutcome.
    fold detected. fold matched. rewrite Hnil. simpl.
    split; [reflexivity|].
    unfold Exact.unresolvedReason. simpl.
    destruct ((length detected =? 0)%nat && (400 <=? status)); simpl; discriminate.
  - apply inspectRow_unresolved_reason.
Qed.

End ArchiveFacts.

(** C2 as the design document states it fails: after a writing run on a
    record that answers 404 and has a snapshot with type marker 4, the
    record is dead and carries license 4, the outcome's provenance is
    [wayback_license_type], but the record's [health_reason] is
    [http_404], which does not start with the archive tag. *)
Lemma C2_health_reason_is_http_404 :
  let run := (Accelerated.main (H := Sample.scripted Sample.archived)
                (Sample.writing DEFAULTS) "2024-05-01T00:00:00.000Z"
                Sample.goneFiles 0%nat).1 in
  map (λ r, (Row.status r, Row.license r, Row.health_reason r)) (Accelerated.urls run.1.1)
  = [(Some "dead", Some 4, Some "http_404")]
  ∧ map (λ o, Mapped.source <$> Outcome.mapped o) (Accelerated.results run.2)
    = [Some "wayback_license_type"]
  ∧ startsWith "http_404" "wayback_" = false.
Proof. vm_compute. repeat split. Qed.

Lemma C2_archive_decision_marks_dead_witness :
  let ctx := Accelerated.makeContext (H := Sample.scripted Sample.archived)
               (Sample.writing DEFAULTS) Sample.goneFiles in
  let row := Sample.row 7 Sample.goneUrl None None in
  Row.health_reason
    (Accelerated.mergeRow "2024-05-01T00:00:00.000Z"
       (Accelerated.inspectRow (H := Sample.scripted Sample.archived) row ctx 0%nat).1 row)
  = Some "http_404".
Proof.
  intros ctx row.
  apply (C2_archive_decision_marks_dead (H := Sample.scripted Sample.archived)
           row ctx "2024-05-01T00:00:00.000Z" 0%nat 1%nat 2%nat 3%nat
           Sample.goneUrl "NOTFOUND" Sample.snapshotOfGone
           (FetchOk 200 Sample.snapshotOfGone "ARCHIVED")
           {| bcId := 4; source := "license_type" |});
    reflexivity.
Defined.

(** C8 as the design document states it fails in the accelerated fixer: a
    page with the conflicting type markers 3 and 5 and a page without any
    evidence get the same unresolved reason. *)
Lemma C8_accelerated_reason_not_specific :
  let P := Sample.scripted Sample.conflicting in
  let ctx := Accelerated.makeContext (H := P) DEFAULTS Sample.twoCategories in
  let evidence text :=
    Accelerated.extractEvidence (H := P) text
      (Accelerated.validBcIds ctx) (Accelerated.slugToBcId ctx) in
  let conflict := (Accelerated.inspectRow (H := P)
                     (Sample.row 1 Sample.conflictUrl None None) ctx 0%nat).1 in
  let plain := (Accelerated.inspectRow (H := P)
                  (Sample.row 2 Sample.plainUrl None None) ctx 0%nat).1 in
  typeIds (evidence "CONFLICT") = [3; 5]
  ∧ evidence "PLAIN" = {| typeIds := []; sectionIds := []; nameIds := [] |}
  ∧ Outcome.mapped conflict = None
  ∧ Outcome.reason conflict = Some "unresolved_status_200"
  ∧ Outcome.reason plain = Outcome.reason conflict.
Proof. vm_compute. repeat split. Qed.

Lemma C8_ambiguity_reason_witness :
  let P := Sample.scripted Sample.conflicting in
  let ctx := Accelerated.makeContext (H := P) DEFAULTS Sample.twoCategories in
  Outcome.reason (Accelerated.inspectRow (H := P)
                    (Sample.row 1 Sample.conflictUrl None None) ctx 0%nat).1
  = Some "unresolved_status_200".
Proof.
  intros P ctx.
  apply (proj2 (proj2 (C8_ambiguity_reason (H := P)
                         (Sample.row 1 Sample.conflictUrl None None) ∅ 200 "" ""
                         ctx 0%nat))).
  reflexivity.
Defined.

(** ** Domain consensus *)

Lemma Map_of_foldl_lookup `{Countable K} {V} (pairs : list (K * V)) (k : K) (v : V) :
  ∀ m : gmap K V,
    foldl (λ m p, <[p.1 := p.2]> m) m pairs !! k = Some v →
    (k, v) ∈ pairs ∨ m !! k = Some v.
Proof.
  induction pairs as [|[k' v'] pairs IH]; intros m; simpl; [by right|].
  intros [Hin | Hm]%IH; [left; by right|].
  destruct (decide (k' = k)) as [->|Hne].
  - rewrite lookup_insert_eq in Hm. injection Hm as ->. left; left.
  - rewrite lookup_insert_ne in Hm by done. by right.
Qed.

Lemma Map_of_lookup_Some `{Countable K} {V} (pairs : list (K * V)) (k : K) (v : V) :
  Map_of pairs !! k = Some v → (k, v) ∈ pairs.
Proof.
  unfold Map_of. intros [Hin | Hm]%Map_of_foldl_lookup; [done|].
  by rewrite lookup_empty in Hm.
Qed.

(** Every license of a bucket entry was seen at least once. *)
Abbreviation seen := (Forall (λ c : Z * Z, 0 < c.2)).

(** A bucket entry has a host name and at least one counted license. *)
Abbreviation filled :=
  (Forall (λ entry : string * list (Z * Z),
             nonEmpty entry.1 = true ∧ entry.2 ≠ [] ∧ seen entry.2)).

Lemma bump_seen (k : Z) (counts : list (Z * Z)) :
  seen counts → Accelerated.bump k counts ≠ [] ∧ seen (Accelerated.bump k counts).
Proof.
  induction counts as [|[k' c] counts IH]; intros Hseen; simpl.
  - split; [done|]. repeat constructor.
  - apply Forall_cons in Hseen as [Hc Hrest]. simpl in Hc.
    destruct (k =? k').
    + split; [done|]. constructor; [simpl; lia | done].
    + split; [done|]. constructor; [done|]. by apply IH.
Qed.

Lemma bumpHost_filled (host : string) (license : Z) (bucket : list (string * list (Z * Z))) :
  nonEmpty host = true → filled bucket → filled (Accelerated.bumpHost host license bucket).
Proof.
  intros Hhost. induction bucket as [|[h counts] bucket IH]; intros Hfilled; simpl.
  - constructor; [|constructor]. simpl.
    split; [done|]. split; [done|]. repeat constructor.
  - apply Forall_cons in Hfilled as [(Hh & Hne & Hseen) Hrest]. simpl in *.
    destruct (String.eqb h host).
    + constructor; [|done]. simpl. split; [done|]. by apply bump_seen.
    + constructor; [done|]. by apply IH.
Qed.

Lemma tally_top (counts : list (Z * Z)) : ∀ acc : Z * option Z * Z,
  seen counts →
  is_Some acc.1.2 ∨ (acc.2 = 0 ∧ counts ≠ []) →
  is_Some (foldl Accelerated.tally acc counts).1.2.
Proof.
  induction counts as [|[k c] counts IH]; intros [[total top] topCount] Hseen Hacc; simpl in *.
  - destruct Hacc as [?|[_ ?]]; done.
  - apply Forall_cons in Hseen as [Hc Hrest]. simpl in Hc.
    apply IH; [done|]. left.
    destruct (Z.ltb_spec topCount c); simpl; [by eexists|].
    destruct Hacc as [?|[-> _]]; [done | lia].
Qed.

Lemma summarizeCounts_top (counts : list (Z * Z)) :
  seen counts → counts ≠ [] → is_Some (Accelerated.topBcId (Accelerated.summarizeCounts counts)).
Proof.
  intros Hseen Hne. unfold Accelerated.summarizeCounts.
  pose proof (tally_top counts (0, None, 0) Hseen (or_intror (conj eq_refl Hne))) as Htop.
  destruct (foldl Accelerated.tally (0, None, 0) counts) as [[total top] topCount].
  exact Htop.
Qed.

Section ConsensusFacts.
Context `{Platform}.

Lemma buildBucket_filled (urls : list Row.t) : filled (Accelerated.buildBucket urls).
Proof.
  unfold Accelerated.buildBucket.
  assert (filled (@nil (string * list (Z * Z)))) as Hnil by constructor.
  revert Hnil. generalize (@nil (string * list (Z * Z))).
  induction urls as [|row urls IH]; intros bucket Hb; simpl; [done|].
  apply IH. destruct (Row.license row) as [license|]; [|done].
  destruct (Accelerated.hostnameOf (Row.url row)) as [host|]; [|done].
  destruct (nonEmpty host) eqn:Hhost; [|done].
  by apply bumpHost_filled.
Qed.

(** An entry of the consensus table belongs to a named host and has a
    majority id. *)
Lemma buildDomainConsensus_lookup (urls : list Row.t) (host : string)
    (consensus : Accelerated.Consensus) :
  Accelerated.buildDomainConsensus urls !! host = Some consensus →
  nonEmpty host = true ∧ is_Some (Accelerated.topBcId consensus).
Proof.
  unfold Accelerated.buildDomainConsensus.
  intros ([h counts] & [= -> ->] & Hin)%Map_of_lookup_Some%list_elem_of_fmap.
  pose proof (buildBucket_filled urls) as Hfilled.
  rewrite Forall_forall in Hfilled.
  destruct (Hfilled _ Hin) as (Hh & Hne & Hseen). simpl in *.
  split; [done|]. by apply summarizeCounts_top.
Qed.

End ConsensusFacts.

(** Fifteen resolved records of one domain, all with license 3: the
    record without license stays unresolved under the default
    [domainMinKnown = 20] and is mapped by consensus under
    [domainMinKnown = 10]. *)
Lemma consensus_fifteen_known :
  let P := Sample.scripted Sample.label in
  let results known :=
    Accelerated.results
      (Accelerated.main (H := P) (Sample.withMinKnown known DEFAULTS)
         "2024-05-01T00:00:00.000Z" Sample.fifteenKnown 0%nat).1.2 in
  map (λ o, Mapped.source <$> Outcome.mapped o) (results 20) = [None]
  ∧ map (λ o, Mapped.source <$> Outcome.mapped o) (results 10) = [Some "domain_consensus"].
Proof. vm_compute. split; reflexivity. Qed.

(** ** Report reconciler: replay of the live runs *)

Lemma endsWith_append (a suffix : string) : Reconcile.endsWith (a +:+ suffix) suffix = true.
Proof.
  induction a as [|c a IH].
  - change (Reconcile.endsWith suffix suffix = true).
    destruct suffix; cbn [Reconcile.endsWith]; rewrite ?String.eqb_refl; reflexivity.
  - change (String c a +:+ suffix) with (String c (a +:+ suffix)).
    cbn [Reconcile.endsWith]. rewrite IH. apply orb_true_r.
Qed.

Lemma endsWith_prepend (a b suffix : string) :
  Reconcile.endsWith b suffix = true → Reconcile.endsWith (a +:+ b) suffix = true.
Proof.
  intros Hb. induction a as [|c a IH]; [exact Hb|].
  change (String c a +:+ b) with (String c (a +:+ b)).
  cbn [Reconcile.endsWith]. rewrite IH. apply orb_true_r.
Qed.

Lemma isAcceleratedReport_reportFileOf (stamp : string) (report : Accelerated.Report) :
  Reconcile.isAcceleratedReport (Reconcile.file (Reconcile.reportFileOf stamp report)) = true.
Proof.
  unfold Reconcile.isAcceleratedReport, Reconcile.reportFileOf. simpl Reconcile.file.
  rewrite startsWith_append. apply endsWith_prepend, endsWith_append.
Qed.

(** The reconciler writes into a row what the merge loop of the fixer
    writes. *)
Lemma reconcileRow_mergeRow (ts : string) (o : Outcome.t) (row : Row.t) :
  Reconcile.reconcileRow ts o row = Accelerated.mergeRow ts o row.
Proof.
  unfold Reconcile.reconcileRow, Accelerated.mergeRow.
  destruct (Outcome.mapped o) as [m|]; [|reflexivity].
  assert ((if bool_decide (Row.license row ≠ Some (Mapped.bc_id m))
           then Some (Mapped.bc_id m) else Row.license row)
          = Some (Mapped.bc_id m)) as ->.
  { case_bool_decide as Hne; done. }
  destruct (Outcome.alias_url o) as [alias|]; [|reflexivity].
  destruct (startsWith _ "search_alias_"); [|reflexivity].
  destruct (String.eqb_spec (Row.url row) alias) as [<-|]; reflexivity.
Qed.

Lemma Map_of_foldl_notin `{Countable K} {V} (pairs : list (K * V)) (k : K) :
  ∀ m : gmap K V, k ∉ pairs.*1 → foldl (λ m p, <[p.1 := p.2]> m) m pairs !! k = m !! k.
Proof.
  induction pairs as [|[k' v'] pairs IH]; intros m Hk; simpl; [done|].
  apply not_elem_of_cons in Hk as [Hne Hk]. simpl in Hne.
  rewrite IH by done. by rewrite lookup_insert_ne.
Qed.

Lemma Map_of_foldl_NoDup `{Countable K} {V} (pairs : list (K * V)) (k : K) (v : V) :
  ∀ m : gmap K V, NoDup pairs.*1 → (k, v) ∈ pairs →
                  foldl (λ m p, <[p.1 := p.2]> m) m pairs !! k = Some v.
Proof.
  induction pairs as [|[k' v'] pairs IH]; intros m Hnd Hin; simpl.
  - by apply elem_of_nil in Hin.
  - apply NoDup_cons in Hnd as [Hk' Hnd].
    apply elem_of_cons in Hin as [[= <- <-] | Hin].
    + rewrite Map_of_foldl_notin by done. apply lookup_insert_eq.
    + by apply IH.
Qed.

Lemma Map_of_lookup_NoDup `{Countable K} {V} (pairs : list (K * V)) (k : K) (v : V) :
  NoDup pairs.*1 → (k, v) ∈ pairs → Map_of pairs !! k = Some v.
Proof. apply Map_of_foldl_NoDup. Qed.

Lemma Map_of_lookup_None `{Countable K} {V} (pairs : list (K * V)) (k : K) :
  k ∉ pairs.*1 → Map_of pairs !! k = None.
Proof. intros Hk. unfold Map_of. rewrite Map_of_foldl_notin by done. apply lookup_empty. Qed.

Lemma Map_of_foldl_is_Some `{Countable K} {V} (pairs : list (K * V)) (k : K) :
  ∀ m : gmap K V, k ∈ pairs.*1 → is_Some (foldl (λ m p, <[p.1 := p.2]> m) m pairs !! k).
Proof.
  induction pairs as [|[k' v'] pairs IH]; intros m Hk; simpl.
  - by apply elem_of_nil in Hk.
  - destruct (decide (k ∈ pairs.*1)) as [Hin|Hnotin]; [by apply IH|].
    apply elem_of_cons in Hk as [->|?]; [|done]. simpl.
    rewrite Map_of_foldl_notin by done. rewrite lookup_insert_eq. by eexists.
Qed.

Lemma rowsById_keys (urls : list Row.t) :
  (imap (λ i row, (Row.url_id row, i)) urls).*1 = Row.url_id <$> urls.
Proof.
  rewrite fmap_imap. apply list_eq. intros i.
  rewrite list_lookup_imap, list_lookup_fmap. by destruct (urls !! i).
Qed.

Lemma rowsById_Some (urls : list Row.t) (i : nat) (row : Row.t) :
  NoDup (Row.url_id <$> urls) → urls !! i = Some row →
  Reconcile.rowsById urls !! Row.url_id row = Some i.
Proof.
  intros Hnd Hi. apply Map_of_lookup_NoDup; [by rewrite rowsById_keys|].
  apply elem_of_lookup_imap. eauto.
Qed.

Lemma rowsById_Some_inv (urls : list Row.t) (id : Z) (i : nat) :
  Reconcile.rowsById urls !! id = Some i →
  ∃ row, urls !! i = Some row ∧ Row.url_id row = id.
Proof.
  intros (j & row & [= -> ->] & Hj)%Map_of_lookup_Some%elem_of_lookup_imap. eauto.
Qed.

Lemma rowsById_None (urls : list Row.t) (id : Z) :
  id ∉ Row.url_id <$> urls → Reconcile.rowsById urls !! id = None.
Proof. intros Hid. apply Map_of_lookup_None. by rewrite rowsById_keys. Qed.

Lemma rowsById_is_Some (urls : list Row.t) (id : Z) :
  id ∈ Row.url_id <$> urls → is_Some (Reconcile.rowsById urls !! id).
Proof.
  intros Hid. apply Map_of_foldl_is_Some. by rewrite rowsById_keys.
Qed.

(** What one outcome writes, row by row. *)
Abbreviation writeTo ts o :=
  (λ row : Row.t,
     if decide (Row.url_id row = Outcome.url_id o) then Accelerated.mergeRow ts o row else row).

(** One turn of the reconciler's inner loop rewrites the rows that carry
    the id of the outcome: with unique ids, the one row the index names. *)
Lemma applyResult_rows (urls0 rows : list Row.t) (ts : string) (c : Reconcile.Changes)
    (o : Outcome.t) :
  NoDup (Row.url_id <$> urls0) →
  Row.url_id <$> rows = Row.url_id <$> urls0 →
  (Reconcile.applyResult (Reconcile.rowsById urls0) ts (rows, c) o).1 = writeTo ts o <$> rows.
Proof.
  intros Hnd Hids. unfold Reconcile.applyResult.
  destruct (Reconcile.rowsById urls0 !! Outcome.url_id o) as [i|] eqn:Hi.
  - apply rowsById_Some_inv in Hi as (row0 & Hi0 & Hid).
    assert (∃ row, rows !! i = Some row ∧ Row.url_id row = Outcome.url_id o)
      as (row & Hrow & Hrid).
    { assert ((Row.url_id <$> rows) !! i = Some (Outcome.url_id o)) as Hl
        by (rewrite Hids, list_lookup_fmap, Hi0; simpl; by rewrite Hid).
      apply list_lookup_fmap_Some in Hl as (row & -> & Hl). eauto. }
    simpl. rewrite Hrow. simpl. rewrite reconcileRow_mergeRow.
    apply list_eq. intros j. rewrite list_lookup_fmap.
    destruct (decide (j = i)) as [->|Hne].
    + rewrite list_lookup_insert_eq by (by eapply lookup_lt_Some).
      rewrite Hrow. simpl. by rewrite decide_True.
    + rewrite list_lookup_insert_ne by done.
      destruct (rows !! j) as [row'|] eqn:Hj; [|done]. simpl.
      rewrite decide_False; [done|]. intros Heq. apply Hne.
      rewrite <- Hids in Hnd. apply (NoDup_lookup _ j i (Outcome.url_id o) Hnd).
      * rewrite list_lookup_fmap, Hj. simpl. by rewrite Heq.
      * rewrite list_lookup_fmap, Hrow. simpl. by rewrite Hrid.
  - simpl. rewrite <- (list_fmap_id rows) at 1. apply list_fmap_ext.
    intros j row Hj. simpl. rewrite decide_False; [done|]. intros Heq.
    assert (Outcome.url_id o ∈ Row.url_id <$> urls0) as Hin.
    { rewrite <- Hids, <- Heq. apply list_elem_of_fmap. exists row.
      split; [done|]. by eapply list_elem_of_lookup_2. }
    apply rowsById_is_Some in Hin. rewrite Hi in Hin. by destruct Hin.
Qed.

(** The merge loops are written with [map]; the list lemmas speak of
    [<$>]. *)
Ltac to_fmap :=
  repeat match goal with
         | |- context [@map ?A ?B ?f ?l] => change (@map A B f l) with (f <$> l)
         | H : context [@map ?A ?B ?f ?l] |- _ => change (@map A B f l) with (f <$> l) in H
         end.

Lemma writeTo_url_id (ts : string) (o : Outcome.t) (row : Row.t) :
  Row.url_id (writeTo ts o row) = Row.url_id row.
Proof. cbv beta. case_decide; [apply accelerated_mergeRow_url_id | done]. Qed.

Lemma writeTo_ids (ts : string) (o : Outcome.t) (rows : list Row.t) :
  Row.url_id <$> (writeTo ts o <$> rows) = Row.url_id <$> rows.
Proof.
  rewrite <- list_fmap_compose. apply list_fmap_ext. intros i row _. apply writeTo_url_id.
Qed.

Lemma applyReport_rows (urls0 : list Row.t) (report : Reconcile.Report) :
  NoDup (Row.url_id <$> urls0) →
  ∀ (rows : list Row.t) (c : Reconcile.Changes),
    Row.url_id <$> rows = Row.url_id <$> urls0 →
    (Reconcile.applyReport (Reconcile.rowsById urls0) (rows, c) report).1
    = foldl (λ rows o, writeTo (Reconcile.generated_at report) o <$> rows)
            rows (Reconcile.results report).
Proof.
  intros Hnd. unfold Reconcile.applyReport.
  induction (Reconcile.results report) as [|o results IH]; intros rows c Hids; simpl; [done|].
  pose proof (applyResult_rows urls0 rows (Reconcile.generated_at report) c o Hnd Hids) as Hstep.
  destruct (Reconcile.applyResult _ _ (rows, c) o) as [rows' c']. simpl in Hstep. subst rows'.
  apply IH. by rewrite writeTo_ids.
Qed.

Lemma foldl_writeTo (ts : string) (results : list Outcome.t) : ∀ rows : list Row.t,
  foldl (λ rows o, writeTo ts o <$> rows) rows results
  = (λ row, foldl (λ row o, writeTo ts o row) row results) <$> rows.
Proof.
  induction results as [|o results IH]; intros rows; simpl.
  - by rewrite list_fmap_id.
  - rewrite IH, <- list_fmap_compose. done.
Qed.

Lemma foldl_writeTo_notin (ts : string) (results : list Outcome.t) (row : Row.t) :
  Row.url_id row ∉ Outcome.url_id <$> results →
  foldl (λ row o, writeTo ts o row) row results = row.
Proof.
  induction results as [|o results IH]; intros Hid; simpl; [done|].
  rewrite fmap_cons in Hid. apply not_elem_of_cons in Hid as [Hne Hid].
  rewrite decide_False by done. by apply IH.
Qed.

Lemma foldl_writeTo_in (ts : string) (results : list Outcome.t) (m : Outcome.t) :
  ∀ row : Row.t,
    NoDup (Outcome.url_id <$> results) → m ∈ results → Outcome.url_id m = Row.url_id row →
    foldl (λ row o, writeTo ts o row) row results = Accelerated.mergeRow ts m row.
Proof.
  induction results as [|o results IH]; intros row Hnd Hin Hid; simpl.
  - by apply elem_of_nil in Hin.
  - rewrite fmap_cons in Hnd. apply NoDup_cons in Hnd as [Ho Hnd].
    apply elem_of_cons in Hin as [<- | Hin].
    + rewrite decide_True by done. apply foldl_writeTo_notin.
      by rewrite accelerated_mergeRow_url_id, <- Hid.
    + rewrite decide_False; [by apply IH|]. intros Heq. apply Ho.
      rewrite <- Heq, <- Hid. apply list_elem_of_fmap. eauto.
Qed.

Lemma resultById_keys (results : list Outcome.t) :
  (map (λ r, (Outcome.url_id r, r)) results).*1 = Outcome.url_id <$> results.
Proof. to_fmap. rewrite <- list_fmap_compose. done. Qed.

(** With one outcome per record id, the outcomes of a report applied one
    after the other are the merge loop of the fixer. *)
Lemma foldl_writeTo_merge (ts : string) (results : list Outcome.t) (row : Row.t) :
  NoDup (Outcome.url_id <$> results) →
  foldl (λ row o, writeTo ts o row) row results
  = match Accelerated.resultById results !! Row.url_id row with
    | Some match_ => Accelerated.mergeRow ts match_ row
    | None => row
    end.
Proof.
  intros Hnd. unfold Accelerated.resultById.
  destruct (Map_of _ !! Row.url_id row) as [m|] eqn:Hm.
  - apply Map_of_lookup_Some in Hm. to_fmap.
    apply list_elem_of_fmap in Hm as (m' & [= Hid <-] & Hin).
    by apply foldl_writeTo_in.
  - apply foldl_writeTo_notin. intros Hin.
    rewrite <- resultById_keys in Hin.
    apply (Map_of_foldl_is_Some _ _ ∅) in Hin. unfold Map_of in Hm.
    rewrite Hm in Hin. by destruct Hin.
Qed.

Lemma applyReport_mergeOutcomes (urls0 rows : list Row.t) (c : Reconcile.Changes)
    (report : Reconcile.Report) :
  NoDup (Row.url_id <$> urls0) →
  Row.url_id <$> rows = Row.url_id <$> urls0 →
  NoDup (Outcome.url_id <$> Reconcile.results report) →
  (Reconcile.applyReport (Reconcile.rowsById urls0) (rows, c) report).1
  = Accelerated.mergeOutcomes (Reconcile.generated_at report) (Reconcile.results report) rows.
Proof.
  intros Hnd Hids Hres. rewrite applyReport_rows by done. rewrite foldl_writeTo.
  unfold Accelerated.mergeOutcomes. to_fmap. apply list_fmap_ext.
  intros i row _. by apply foldl_writeTo_merge.
Qed.

Lemma mergeOutcomes_ids (ts : string) (results : list Outcome.t) (rows : list Row.t) :
  Row.url_id <$> Accelerated.mergeOutcomes ts results rows = Row.url_id <$> rows.
Proof.
  unfold Accelerated.mergeOutcomes. to_fmap. rewrite <- list_fmap_compose.
  apply list_fmap_ext. intros i row _. simpl.
  destruct (_ !! _); [apply accelerated_mergeRow_url_id | done].
Qed.

(** The merges of a sequence of reports, oldest first. *)
Abbreviation mergeAll :=
  (foldl (λ rows (report : Reconcile.Report),
            Accelerated.mergeOutcomes (Reconcile.generated_at report)
                                      (Reconcile.results report) rows)).

Lemma replay_mergeAll (urls0 : list Row.t) (reports : list Reconcile.Report) :
  NoDup (Row.url_id <$> urls0) →
  Forall (λ report, NoDup (Outcome.url_id <$> Reconcile.results report)) reports →
  ∀ (rows : list Row.t) (c : Reconcile.Changes),
    Row.url_id <$> rows = Row.url_id <$> urls0 →
    (foldl (Reconcile.applyReport (Reconcile.rowsById urls0)) (rows, c) reports).1
    = mergeAll rows reports.
Proof.
  intros Hnd. induction 1 as [|report reports Hres Hrest IH]; intros rows c Hids; simpl; [done|].
  pose proof (applyReport_mergeOutcomes urls0 rows c report Hnd Hids Hres) as Hstep.
  destruct (Reconcile.applyReport _ (rows, c) report) as [rows' c']. simpl in Hstep.
  subst rows'. apply IH. by rewrite mergeOutcomes_ids.
Qed.

Section LiveFacts.
Context `{Platform}.

Lemma aliasStage_Some (row : Row.t) (ctx : Accelerated.Context) (live : Fetched)
    (w w' : World) (d : Outcome.t) :
  Accelerated.aliasStage row ctx live w = (Some d, w') →
  ∃ aliasUrl m,
    d = Accelerated.mappedOutcome row ctx live None None (Some aliasUrl)
          (bcId m) ("search_alias_" +:+ source m).
Proof.
  unfold Accelerated.aliasStage, bind, ret.
  repeat case_match; try discriminate. intros [= <- <-]. eauto.
Qed.

Lemma inspectRow_url_id (row : Row.t) (ctx : Accelerated.Context) (w : World) :
  Outcome.url_id (Accelerated.inspectRow row ctx w).1 = Row.url_id row.
Proof.
  rewrite inspectRow_unfold, earlierStages_unfold.
  destruct (Accelerated.fetchWithRetries _ _ _ w) as [live w1].
  destruct (Accelerated.liveStage row ctx live) as [d|] eqn:Hlive.
  { simpl. apply liveStage_Some in Hlive as (m & _ & ->). reflexivity. }
  destruct (Accelerated.archiveStage row ctx live w1) as [[d|] w2] eqn:Harch.
  { simpl. apply archiveStage_Some in Harch as (s & a & m & _ & ->). reflexivity. }
  destruct (Accelerated.aliasStage row ctx live w2) as [[d|] w3] eqn:Halias.
  { simpl. apply aliasStage_Some in Halias as (a & m & ->). reflexivity. }
  simpl. destruct (Accelerated.consensusStage row ctx live) as [d|] eqn:Hcons; [|reflexivity].
  apply consensusStage_Some in Hcons as (top & ->). reflexivity.
Qed.

Lemma mapM_inspectRow_ids (ctx : Accelerated.Context) (rows : list Row.t) : ∀ w : World,
  Outcome.url_id <$> (mapM (λ row, Accelerated.inspectRow row ctx) rows w).1
  = Row.url_id <$> rows.
Proof.
  induction rows as [|row rows IH]; intros w; simpl; [done|].
  unfold bind, ret.
  pose proof (inspectRow_url_id row ctx w) as Hid.
  destruct (Accelerated.inspectRow row ctx w) as [o w1]. simpl in Hid.
  specialize (IH w1). destruct (mapM _ rows w1) as [os w2]. simpl in *.
  f_equal; done.
Qed.

Lemma NoDup_fmap_filter {A B} (f : A → B) (P : A → Prop) `{∀ x, Decision (P x)}
    (l : list A) :
  NoDup (f <$> l) → NoDup (f <$> filter P l).
Proof.
  intros Hnd. eapply sublist_NoDup; first [exact Hnd | apply fmap_sublist, sublist_filter].
Qed.

(** A writing run: the rows it leaves are the merge of its results, which
    name every record at most once, and its report carries its start
    time. *)
Lemma main_writes (options : Options) (ts : string) (files : Accelerated.Files) (w : World) :
  write options = true →
  NoDup (Row.url_id <$> Accelerated.urls files) →
  let done := (Accelerated.main options ts files w).1 in
  Accelerated.urls done.1.1
  = Accelerated.mergeOutcomes ts (Accelerated.results done.2) (Accelerated.urls files)
  ∧ Accelerated.generated_at done.2 = ts
  ∧ NoDup (Outcome.url_id <$> Accelerated.results done.2)
  ∧ Outcome.url_id <$> Accelerated.results done.2
    = Row.url_id <$> filter (λ u, Accelerated.missing u = true) (Accelerated.urls files).
Proof.
  intros Hw Hnd. unfold Accelerated.main, bind, ret.
  pose proof (mapM_inspectRow_ids (Accelerated.makeContext options files)
                (filter (λ u, Accelerated.missing u = true) (Accelerated.urls files)) w) as Hids.
  destruct (mapM _ _ w) as [results w']. simpl in *. rewrite Hw. simpl.
  split; [done|]. split; [done|]. split; [|done].
  rewrite Hids. by apply NoDup_fmap_filter.
Qed.

Lemma readReport_reportFileOf (stamp : string) (report : Accelerated.Report) :
  Accelerated.generated_at report ≠ "" →
  Reconcile.readReport (Reconcile.reportFileOf stamp report)
  = Some {| Reconcile.report_file := Reconcile.file (Reconcile.reportFileOf stamp report);
            Reconcile.generated_at := Accelerated.generated_at report;
            Reconcile.results := Accelerated.results report |}.
Proof.
  intros Hts. unfold Reconcile.readReport. simpl. unfold nonEmpty.
  destruct (String.eqb_spec (Accelerated.generated_at report) ""); done.
Qed.

Lemma loadReports_cons_reportFileOf (stamp : string) (report : Accelerated.Report)
    (files : list Reconcile.ReportFile) :
  Accelerated.generated_at report ≠ "" →
  Reconcile.loadReports (Reconcile.reportFileOf stamp report :: files)
  = {| Reconcile.report_file := Reconcile.file (Reconcile.reportFileOf stamp report);
       Reconcile.generated_at := Accelerated.generated_at report;
       Reconcile.results := Accelerated.results report |}
    :: Reconcile.loadReports files.
Proof.
  intros Hts. unfold Reconcile.loadReports.
  rewrite filter_cons_True by apply isAcceleratedReport_reportFileOf.
  cbn [omap list_omap]. by rewrite readReport_reportFileOf.
Qed.

(** The rows the live runs leave are the merges of the reports they wrote,
    oldest first; every report names a record at most once and carries the
    start time of its run. *)
Lemma liveRuns_mergeAll (runs : list Replay.Run) : ∀ (files : Accelerated.Files) (w : World),
  NoDup (Row.url_id <$> Accelerated.urls files) →
  Forall (λ run, write (Replay.run_options run) = true) runs →
  Forall (λ run, Replay.runTimestamp run ≠ "") runs →
  let live := (Replay.liveRuns runs files w).1 in
  let reports := Reconcile.loadReports live.2 in
  Accelerated.urls live.1 = mergeAll (Accelerated.urls files) reports
  ∧ Reconcile.generated_at <$> reports = Replay.runTimestamp <$> runs
  ∧ Forall (λ report, NoDup (Outcome.url_id <$> Reconcile.results report)) reports.
Proof.
  induction runs as [|run runs IH]; intros files w Hnd Hwrite Hts; simpl.
  { split; [done|]. split; [done|]. constructor. }
  apply Forall_cons in Hwrite as [Hw Hwrite]. apply Forall_cons in Hts as [Ht Hts].
  unfold bind, ret.
  pose proof (main_writes (Replay.run_options run) (Replay.runTimestamp run) files w Hw Hnd)
    as (Hurls & Hgen & Hres & _).
  destruct (Accelerated.main _ _ files w) as [[[files1 cleaned] report] w1]. simpl in *.
  assert (NoDup (Row.url_id <$> Accelerated.urls files1)) as Hnd1
    by (by rewrite Hurls, mergeOutcomes_ids).
  specialize (IH files1 w1 Hnd1 Hwrite Hts).
  destruct (Replay.liveRuns runs files1 w1) as [[final later] w2]. simpl in *.
  destruct IH as (Hfinal & Hgens & Hall).
  rewrite loadReports_cons_reportFileOf by (by rewrite Hgen).
  simpl. rewrite Hgen, <- Hurls. split; [done|]. split; [by f_equal|].
  constructor; [done | done].
Qed.

End LiveFacts.

(** *** Sorting the reports *)

(** The report [a] is older than the report [b]. *)
Abbreviation older :=
  (λ a b : Reconcile.Report,
     Reconcile.localeCompare (Reconcile.generated_at a) (Reconcile.generated_at b) = Lt).

Lemma localeCompare_Lt_Gt (a b : string) :
  Reconcile.localeCompare a b = Lt → Reconcile.localeCompare b a = Gt.
Proof.
  unfold Reconcile.localeCompare. intros Hab.
  rewrite String_as_OT.cmp_antisym, Hab. reflexivity.
Qed.

(** A report newer than those of [l1] and older than those of [l2] is
    inserted between them. *)
Lemma insertReport_middle (r : Reconcile.Report) (l2 : list Reconcile.Report) :
  ∀ l1 : list Reconcile.Report,
    Forall (λ x, older x r) l1 → Forall (older r) l2 →
    Reconcile.insertReport r (l1 ++ l2) = l1 ++ r :: l2.
Proof.
  induction l1 as [|x l1 IH]; intros H1 H2; simpl.
  - destruct l2 as [|y l2]; [reflexivity|].
    apply Forall_cons in H2 as [Hy _]. simpl. by rewrite Hy.
  - apply Forall_cons in H1 as [Hx H1].
    rewrite (localeCompare_Lt_Gt _ _ Hx). f_equal. by apply IH.
Qed.

(** Whatever the order in which the directory lists them, reports with
    pairwise different times are sorted into their order in time. *)
Lemma sortReports_Permutation (files : list Reconcile.Report) :
  ∀ reports : list Reconcile.Report,
    StronglySorted older reports → files ≡ₚ reports →
    Reconcile.sortReports files = reports.
Proof.
  induction files as [|r files IH]; intros reports Hsorted Hperm.
  - apply Permutation_nil_l in Hperm. by subst.
  - assert (r ∈ reports) as Hin by (rewrite <- Hperm; left).
    apply list_elem_of_split in Hin as (l1 & l2 & ->).
    apply Permutation_cons_app_inv in Hperm.
    apply StronglySorted_app in Hsorted as (Hcross & Hs1 & Hs2).
    apply StronglySorted_cons in Hs2 as [Hr Hs2].
    simpl. rewrite (IH (l1 ++ l2)); [| |done].
    + apply insertReport_middle; [|done].
      apply Forall_forall. intros x Hx. apply Hcross; [done | left].
    + apply StronglySorted_app. split; [|done].
      intros x1 x2 Hx1 Hx2. apply Hcross; [done | by right].
Qed.

Lemma StronglySorted_by_key {A} (key : A → string) (l : list A) :
  StronglySorted (λ a b, Reconcile.localeCompare (key a) (key b) = Lt) l
  ↔ StronglySorted (λ a b, Reconcile.localeCompare a b = Lt) (key <$> l).
Proof.
  induction l as [|x l IH].
  - split; constructor.
  - rewrite fmap_cons, !StronglySorted_cons, IH, Forall_fmap. done.
Qed.

(** *** A later outcome overrides an earlier one *)

(** What a timed outcome writes into its record. *)
Abbreviation step :=
  (λ (row : Row.t) (p : string * Outcome.t), Accelerated.mergeRow p.1 p.2 row).

Lemma mergeRow_license_None (ts : string) (o : Outcome.t) (row : Row.t) :
  Row.license (Accelerated.mergeRow ts o row) = None → Outcome.mapped o = None.
Proof.
  unfold Accelerated.mergeRow. destruct (Outcome.mapped o); [discriminate | done].
Qed.

Lemma mergeRow_after_unmapped (ts ts' : string) (o o' : Outcome.t) (row : Row.t) :
  Outcome.mapped o = None →
  Accelerated.mergeRow ts' o' (Accelerated.mergeRow ts o row) = Accelerated.mergeRow ts' o' row.
Proof.
  intros Ho. unfold Accelerated.mergeRow. rewrite Ho.
  destruct (Outcome.mapped o'); reflexivity.
Qed.

(** When every outcome meets a record without license, the outcomes
    applied in turn leave what the last one alone writes. *)
Lemma foldl_lastWins (outcomes : list (string * Outcome.t)) : ∀ row : Row.t,
  Replay.allMissing row outcomes →
  foldl step row outcomes = Replay.lastWins row outcomes.
Proof.
  unfold Replay.lastWins.
  induction outcomes as [|[ts o] outcomes IH]; intros row Hall; [done|].
  destruct Hall as [_ Hall]. simpl foldl. rewrite IH by done.
  destruct outcomes as [|[ts' o'] outcomes'].
  - simpl. by rewrite reconcileRow_mergeRow.
  - destruct Hall as [Hnone _]. apply mergeRow_license_None in Hnone.
    change (last ((ts, o) :: (ts', o') :: outcomes')) with (last ((ts', o') :: outcomes')).
    destruct (last ((ts', o') :: outcomes')) as [[t x]|] eqn:Hlast.
    + rewrite !reconcileRow_mergeRow. by apply mergeRow_after_unmapped.
    + by apply last_None in Hlast.
Qed.

Lemma allMissing_app (a b : list (string * Outcome.t)) : ∀ row : Row.t,
  Replay.allMissing row (a ++ b)
  ↔ Replay.allMissing row a ∧ Replay.allMissing (foldl step row a) b.
Proof.
  induction a as [|[ts o] a IH]; intros row; simpl; [tauto|].
  rewrite IH. tauto.
Qed.

(** The outcomes of one report for a record, applied in turn, are the
    effect of the report on the record. *)
Lemma foldl_writeTo_filter (ts : string) (id : Z) (results : list Outcome.t) :
  ∀ row : Row.t, Row.url_id row = id →
    foldl (λ row o, writeTo ts o row) row results
    = foldl step row (map (λ o, (ts, o)) (filter (λ o, Outcome.url_id o = id) results)).
Proof.
  induction results as [|o results IH]; intros row Hid; simpl; [done|].
  rewrite filter_cons. destruct (decide (Outcome.url_id o = id)) as [Ho|Ho].
  - rewrite decide_True by congruence. simpl. apply IH.
    by rewrite accelerated_mergeRow_url_id.
  - rewrite decide_False by congruence. by apply IH.
Qed.

Lemma filter_id_NoDup (id : Z) (results : list Outcome.t) :
  NoDup (Outcome.url_id <$> results) →
  filter (λ o, Outcome.url_id o = id) results = []
  ∨ ∃ m, m ∈ results ∧ Outcome.url_id m = id
         ∧ filter (λ o, Outcome.url_id o = id) results = [m].
Proof.
  induction results as [|o results IH]; intros Hnd; [by left|].
  rewrite fmap_cons in Hnd. apply NoDup_cons in Hnd as [Ho Hnd].
  rewrite filter_cons. destruct (decide (Outcome.url_id o = id)) as [Hid|Hid].
  - right. exists o. split; [left|]. split; [done|]. f_equal.
    destruct (IH Hnd) as [Hnil | (m & Hm & Hmid & _)]; [done|].
    exfalso. apply Ho. rewrite Hid, <- Hmid. apply list_elem_of_fmap. eauto.
  - destruct (IH Hnd) as [Hnil | (m & Hm & Hmid & Hf)]; [by left|].
    right. exists m. split; [by right | done].
Qed.

Lemma NoDup_fmap_eq {A B} (f : A → B) (l : list A) (x y : A) :
  NoDup (f <$> l) → x ∈ l → y ∈ l → f x = f y → x = y.
Proof.
  intros Hnd [i Hi]%list_elem_of_lookup [j Hj]%list_elem_of_lookup Hf.
  assert (i = j) as ->.
  { apply (NoDup_lookup _ i j (f x) Hnd); rewrite list_lookup_fmap.
    - by rewrite Hi.
    - rewrite Hj. simpl. by rewrite Hf. }
  congruence.
Qed.

Lemma mergeOutcomes_lookup (ts : string) (results : list Outcome.t) (rows : list Row.t)
    (i : nat) (row : Row.t) :
  NoDup (Outcome.url_id <$> results) →
  rows !! i = Some row →
  Accelerated.mergeOutcomes ts results rows !! i
  = Some (foldl step row
            (map (λ o, (ts, o)) (filter (λ o, Outcome.url_id o = Row.url_id row) results))).
Proof.
  intros Hnd Hi. unfold Accelerated.mergeOutcomes. to_fmap.
  rewrite list_lookup_fmap, Hi. simpl. f_equal.
  rewrite <- foldl_writeTo_merge by done. by apply foldl_writeTo_filter.
Qed.

Lemma outcomesFor_cons (id : Z) (report : Reconcile.Report) (reports : list Reconcile.Report) :
  Replay.outcomesFor id (report :: reports)
  = map (λ o, (Reconcile.generated_at report, o))
        (filter (λ o, Outcome.url_id o = id) (Reconcile.results report))
    ++ Replay.outcomesFor id reports.
Proof. reflexivity. Qed.

Lemma foldl_step_url_id (outcomes : list (string * Outcome.t)) : ∀ row : Row.t,
  Row.url_id (foldl step row outcomes) = Row.url_id row.
Proof.
  induction outcomes as [|[ts o] outcomes IH]; intros row; simpl; [done|].
  by rewrite IH, accelerated_mergeRow_url_id.
Qed.

(** The merges of a sequence of reports, record by record. *)
Lemma mergeAll_lookup (reports : list Reconcile.Report) :
  Forall (λ report, NoDup (Outcome.url_id <$> Reconcile.results report)) reports →
  ∀ (rows : list Row.t) (i : nat) (row : Row.t),
    rows !! i = Some row →
    mergeAll rows reports !! i
    = Some (foldl step row (Replay.outcomesFor (Row.url_id row) reports)).
Proof.
  induction 1 as [|report reports Hres Hrest IH]; intros rows i row Hi; [done|].
  simpl foldl at 1.
  rewrite (IH _ i _ (mergeOutcomes_lookup _ _ rows i row Hres Hi)).
  rewrite outcomesFor_cons, foldl_app, foldl_step_url_id. done.
Qed.

Section ReplayFacts.
Context `{Platform}.

(** In the live sequence an outcome is only ever produced for a record
    that has no license at that time. *)
Lemma liveRuns_allMissing (runs : list Replay.Run) : ∀ (files : Accelerated.Files) (w : World),
  NoDup (Row.url_id <$> Accelerated.urls files) →
  Forall (λ run, write (Replay.run_options run) = true) runs →
  Forall (λ run, Replay.runTimestamp run ≠ "") runs →
  let reports := Reconcile.loadReports (Replay.liveRuns runs files w).1.2 in
  ∀ (i : nat) (row : Row.t),
    Accelerated.urls files !! i = Some row →
    Replay.allMissing row (Replay.outcomesFor (Row.url_id row) reports).
Proof.
  induction runs as [|run runs IH]; intros files w Hnd Hwrite Hts; simpl; [done|].
  apply Forall_cons in Hwrite as [Hw Hwrite]. apply Forall_cons in Hts as [Ht Hts].
  unfold bind, ret.
  pose proof (main_writes (Replay.run_options run) (Replay.runTimestamp run) files w Hw Hnd)
    as (Hurls & Hgen & Hres & Hids).
  destruct (Accelerated.main _ _ files w) as [[[files1 cleaned] report] w1]. simpl in *.
  assert (NoDup (Row.url_id <$> Accelerated.urls files1)) as Hnd1
    by (by rewrite Hurls, mergeOutcomes_ids).
  specialize (IH files1 w1 Hnd1 Hwrite Hts).
  destruct (Replay.liveRuns runs files1 w1) as [[final later] w2]. simpl in *.
  intros i row Hi.
  rewrite loadReports_cons_reportFileOf by (by rewrite Hgen).
  rewrite outcomesFor_cons. simpl Reconcile.generated_at. simpl Reconcile.results.
  apply allMissing_app. split.
  - destruct (filter_id_NoDup (Row.url_id row) _ Hres) as [-> | (m & Hm & Hmid & ->)];
      [done|]. simpl. split; [|done].
    assert (Outcome.url_id m ∈ Outcome.url_id <$> Accelerated.results report) as Hin
      by (apply list_elem_of_fmap; eauto).
    rewrite Hids in Hin. apply list_elem_of_fmap in Hin as (row' & Hid' & Hrow').
    apply list_elem_of_filter in Hrow' as [Hmissing Hrow'].
    assert (row' = row) as ->.
    { apply (NoDup_fmap_eq Row.url_id (Accelerated.urls files)); try done.
      - by apply (list_elem_of_lookup_2 _ i).
      - congruence. }
    unfold Accelerated.missing in Hmissing. by apply bool_decide_eq_true_1 in Hmissing.
  - pose proof (mergeOutcomes_lookup (Accelerated.generated_at report)
                  (Accelerated.results report) (Accelerated.urls files) i row Hres Hi) as Hrow1.
    rewrite Hgen, <- Hurls in Hrow1. specialize (IH i _ Hrow1).
    rewrite foldl_step_url_id in IH. by rewrite Hgen.
Qed.

(** C4: for runs of the accelerated fixer that write, start at pairwise
    increasing times and begin on records with unique ids, replaying
    their reports with the reconciler against the starting records, in
    whatever order the report directory lists the files, yields exactly
    the records the live sequence of merges left; and every record ends in
    the state that the latest outcome for its id alone writes into the
    starting record. *)
Theorem C4_replay_equals_live (runs : list Replay.Run) (files : Accelerated.Files)
    (w : World) (dir : list Reconcile.ReportFile) :
  NoDup (Row.url_id <$> Accelerated.urls files) →
  Forall (λ run, write (Replay.run_options run) = true) runs →
  Forall (λ run, Replay.runTimestamp run ≠ "") runs →
  StronglySorted (λ a b, Reconcile.localeCompare (Replay.runTimestamp a)
                           (Replay.runTimestamp b) = Lt) runs →
  let live := (Replay.liveRuns runs files w).1 in
  dir ≡ₚ live.2 →
  let replayed := (Reconcile.main (Accelerated.urls files) dir).1 in
  let history := Reconcile.sortReports (Reconcile.loadReports dir) in
  replayed = Accelerated.urls live.1
  ∧ ∀ (i : nat) (row : Row.t),
      Accelerated.urls files !! i = Some row →
      replayed !! i
      = Some (Replay.lastWins row (Replay.outcomesFor (Row.url_id row) history)).
Proof.
  intros Hnd Hwrite Hts Hsorted live Hdir replayed history.
  pose proof (liveRuns_mergeAll runs files w Hnd Hwrite Hts) as (Hlive & Hgen & Hres).
  pose proof (liveRuns_allMissing runs files w Hnd Hwrite Hts) as Hmissing.
  fold live in Hlive, Hgen, Hres, Hmissing.
  assert (history = Reconcile.loadReports live.2) as Hsort.
  { apply sortReports_Permutation.
    - apply (StronglySorted_by_key Reconcile.generated_at). rewrite Hgen.
      by apply (StronglySorted_by_key Replay.runTimestamp).
    - unfold Reconcile.loadReports. by rewrite Hdir. }
  assert (replayed = mergeAll (Accelerated.urls files) (Reconcile.loadReports live.2))
    as Hreplayed.
  { unfold replayed, Reconcile.main. fold history. rewrite Hsort.
    by apply replay_mergeAll. }
  split; [by rewrite Hreplayed, Hlive|].
  intros i row Hi. rewrite Hreplayed, Hsort.
  rewrite (mergeAll_lookup _ Hres _ i row Hi). f_equal.
  apply foldl_lastWins. by apply (Hmissing i).
Qed.

End ReplayFacts.

(** Two runs on two unresolved records, the report directory listing the
    newer report first: the replay gives the records the runs left, with
    the time of the second run as [health_checked_at]. *)
Lemma C4_replay_equals_live_witness :
  let P := Sample.scripted Sample.conflicting in
  let live := (Replay.liveRuns (H := P) Sample.twoRuns Sample.twoCategories 0%nat).1 in
  let replayed :=
    (Reconcile.main (Accelerated.urls Sample.twoCategories) (reverse live.2)).1 in
  replayed = Accelerated.urls live.1
  ∧ Row.health_checked_at <$> replayed
    = [Some "2024-05-02T00:00:00.000Z"; Some "2024-05-02T00:00:00.000Z"].
Proof.
  intros P live replayed. split; [|vm_compute; reflexivity].
  apply (C4_replay_equals_live (H := P) Sample.twoRuns Sample.twoCategories 0%nat
           (reverse live.2)).
  - apply (bool_decide_unpack _). vm_compute. exact I.
  - repeat constructor.
  - repeat constructor; discriminate.
  - repeat constructor.
  - apply reverse_Permutation.
Defined.

(** ** Retries and backoff *)

Section RetryFacts.
Context `{Platform}.

Lemma afterFetches_S (url : string) (timeoutMs : Z) (n : nat) : ∀ w : World,
  Retry.afterFetches url timeoutMs (S n) w
  = (fetchText url timeoutMs (Retry.afterFetches url timeoutMs n w)).2.
Proof.
  induction n as [|n IH]; intros w; [reflexivity|].
  change (Retry.afterFetches url timeoutMs (S (S n)) w)
    with (Retry.afterFetches url timeoutMs (S n) (fetchText url timeoutMs w).2).
  rewrite IH. reflexivity.
Qed.

(** The attempt loop settles for the first answer that is not retryable,
    or for the last answer it is allowed to ask for. *)
Lemma fetchAttempts_settles (url : string) (timeoutMs : Z) (statuses : list Z)
    (retriesLeft : nat) : ∀ w : World,
  ∃ n : nat,
    (n ≤ retriesLeft)%nat
    ∧ Accelerated.fetchAttempts url timeoutMs statuses retriesLeft w
      = fetchText url timeoutMs (Retry.afterFetches url timeoutMs n w)
    ∧ (∀ k : nat, (k < n)%nat →
         Retry.retryable statuses (Retry.answer url timeoutMs k w) = true)
    ∧ ((n < retriesLeft)%nat →
         Retry.retryable statuses (Retry.answer url timeoutMs n w) = false).
Proof.
  induction retriesLeft as [|r IH]; intros w.
  - exists O. split; [lia|]. split.
    + simpl. unfold bind, ret. by destruct (fetchText url timeoutMs w).
    + split; intros; lia.
  - destruct (Retry.retryable statuses (fetchText url timeoutMs w).1) eqn:Hfirst.
    + destruct (IH (fetchText url timeoutMs w).2) as (n & Hn & Heq & Hbefore & Hlast).
      exists (S n). split; [lia|]. split; [|split].
      * simpl. unfold bind. unfold Retry.retryable in Hfirst.
        destruct (fetchText url timeoutMs w) as [[st finalUrl text|e] w1]; simpl in *.
        -- rewrite Hfirst. exact Heq.
        -- exact Heq.
      * intros [|k] Hk; [exact Hfirst|]. apply Hbefore. lia.
      * intros Hlt. apply Hlast. lia.
    + exists O. split; [lia|]. split; [|split].
      * simpl. unfold bind, ret. unfold Retry.retryable in Hfirst.
        destruct (fetchText url timeoutMs w) as [[st finalUrl text|e] w1]; simpl in *.
        -- rewrite Hfirst. reflexivity.
        -- discriminate.
      * intros k Hk. lia.
      * intros _. exact Hfirst.
Qed.

(** [fetchWithRetries] asks at most [retries + 1] times, always for the
    same URL.  What it returns is the answer to its last request; every
    answer before that one was a transport failure or carried a status of
    the retry set, and when it stops before the last attempt the answer it
    returns is neither. *)
Theorem fetchWithRetries_attempts (url : string) (timeoutMs : Z) (retries : nat) (w : World) :
  ∃ n : nat,
    (n ≤ retries)%nat
    ∧ (Accelerated.fetchWithRetries url timeoutMs retries w).1
      = Retry.answer url timeoutMs n w
    ∧ (Accelerated.fetchWithRetries url timeoutMs retries w).2
      = Retry.afterFetches url timeoutMs (S n) w
    ∧ (∀ k : nat, (k < n)%nat →
         Retry.retryable RETRYABLE_HTTP_STATUSES (Retry.answer url timeoutMs k w) = true)
    ∧ ((n < retries)%nat →
         Retry.retryable RETRYABLE_HTTP_STATUSES (Retry.answer url timeoutMs n w) = false).
Proof.
  destruct (fetchAttempts_settles url timeoutMs RETRYABLE_HTTP_STATUSES retries w)
    as (n & Hn & Heq & Hbefore & Hlast).
  exists n. unfold Accelerated.fetchWithRetries. rewrite Heq, afterFetches_S.
  split; [done|]. split; [done|]. split; [done|]. split; done.
Qed.

(** The exact fixer's attempt loop: the outcome classifies the answer to
    the last of at most [retries + 1] requests; the answers before it were
    failures or carried a status of [retryStatuses]. *)
Theorem inspectListing_attempts (listing : Row.t) (options : Exact.Options)
    (targetMap : gmap string Exact.Target) (w : World) :
  let url := Row.url listing in
  let t := Exact.timeoutMs options in
  ∃ n : nat,
    (n ≤ Exact.retries options)%nat
    ∧ (Exact.inspectListing listing options targetMap w).1
      = match Retry.answer url t n w with
        | FetchOk st finalUrl text => Exact.pageOutcome listing targetMap st finalUrl text
        | FetchErr message => Exact.fetchErrorOutcome listing message
        end
    ∧ (Exact.inspectListing listing options targetMap w).2
      = Retry.afterFetches url t (S n) w
    ∧ (∀ k : nat, (k < n)%nat →
         Retry.retryable (Exact.retryStatuses options) (Retry.answer url t k w) = true)
    ∧ ((n < Exact.retries options)%nat →
         Retry.retryable (Exact.retryStatuses options) (Retry.answer url t n w) = false).
Proof.
  intros url t. unfold Exact.inspectListing.
  generalize (Exact.retries options). intros retriesLeft. revert w.
  induction retriesLeft as [|r IH]; intros w.
  - exists O. split; [lia|]. unfold Retry.answer. simpl. unfold bind, ret.
    fold url. fold t.
    destruct (fetchText url t w) as [[st finalUrl text|e] w1]; simpl;
      (split; [done|]; split; [done|]; split; intros; lia).
  - destruct (Retry.retryable (Exact.retryStatuses options) (fetchText url t w).1) eqn:Hfirst.
    + destruct (IH (fetchText url t w).2) as (n & Hn & Hout & Hworld & Hbefore & Hlast).
      exists (S n). split; [lia|].
      assert (Exact.inspectAttempts listing options targetMap (S r) w
              = Exact.inspectAttempts listing options targetMap r (fetchText url t w).2)
        as ->.
      { simpl. unfold bind. fold url. fold t. unfold Retry.retryable in Hfirst.
        destruct (fetchText url t w) as [[st finalUrl text|e] w1]; simpl in *;
          [by rewrite Hfirst | done]. }
      split; [exact Hout|]. split; [exact Hworld|]. split.
      * intros [|k] Hk; [exact Hfirst|]. apply Hbefore. lia.
      * intros Hlt. apply Hlast. lia.
    + exists O. split; [lia|]. unfold Retry.answer in *. simpl. unfold bind, ret.
      fold url. fold t. unfold Retry.retryable in Hfirst.
      destruct (fetchText url t w) as [[st finalUrl text|e] w1]; simpl in *; [|done].
      rewrite Hfirst.
      split; [done|]. split; [done|]. split; [intros; lia | done].
Qed.

End RetryFacts.

(** The backoff of the accelerated fixer never exceeds the cap, never
    decreases from one attempt to the next, starts at the base and doubles
    as long as the cap allows. *)
Theorem backoffMs_doubles_to_cap (attempt base cap : Z) :
  0 < base → base ≤ cap → 1 ≤ attempt →
  base ≤ Accelerated.backoffMs attempt base cap ≤ cap
  ∧ Accelerated.backoffMs 1 base cap = base
  ∧ Accelerated.backoffMs attempt base cap ≤ Accelerated.backoffMs (attempt + 1) base cap
  ∧ (2 * Accelerated.backoffMs attempt base cap ≤ cap →
     Accelerated.backoffMs (attempt + 1) base cap
     = 2 * Accelerated.backoffMs attempt base cap).
Proof.
  intros Hbase Hcap Hattempt. unfold Accelerated.backoffMs.
  rewrite !Z.max_r by lia.
  replace (attempt + 1 - 1) with (Z.succ (attempt - 1)) by lia.
  rewrite Z.pow_succ_r by lia.
  assert (1 ≤ 2 ^ (attempt - 1)) as Hpow by (apply Z.pow_le_mono_r with (b := 0); lia).
  change (2 ^ (1 - 1)) with 1.
  split; [nia|]. split; [lia|]. split; [nia|]. intros Hroom. nia.
Qed.

Lemma backoffMs_doubles_to_cap_witness :
  Accelerated.backoffMs 3 600 8000 ≤ Accelerated.backoffMs (3 + 1) 600 8000.
Proof.
  apply (backoffMs_doubles_to_cap 3 600 8000); lia.
Defined.

(** The delay of the exact fixer lies between the initial backoff and the
    maximum, whatever the attempt; it is the accelerated fixer's formula
    when the initial backoff is positive, and no delay at all when it is
    zero. *)
Theorem backoffDelayMs_bounds (attempt : positive) (baseMs maxMs : Z) :
  0 ≤ baseMs → baseMs ≤ maxMs →
  baseMs ≤ ExactBackoff.backoffDelayMs attempt baseMs maxMs ≤ maxMs
  ∧ (0 < baseMs →
     ExactBackoff.backoffDelayMs attempt baseMs maxMs
     = Accelerated.backoffMs (Z.pos attempt) baseMs maxMs)
  ∧ (baseMs = 0 → ExactBackoff.backoffDelayMs attempt baseMs maxMs = 0).
Proof.
  intros Hbase Hmax. unfold ExactBackoff.backoffDelayMs, Accelerated.backoffMs.
  assert (1 ≤ 2 ^ (Z.pos attempt - 1)) as Hpow by (apply Z.pow_le_mono_r with (b := 0); lia).
  destruct (Z.leb_spec baseMs 0) as [Hle|Hgt].
  - split; [lia|]. split; [lia | done].
  - rewrite Z.max_r by lia. split; [nia|]. split; [done | lia].
Qed.

Lemma backoffDelayMs_bounds_witness :
  750 ≤ ExactBackoff.backoffDelayMs 3 750 10000 ≤ 10000.
Proof.
  apply (backoffDelayMs_bounds 3 750 10000); lia.
Defined.

(** ** The outcomes of [inspectRow] and what the merge makes of them *)

(** A number shows as one string only. *)
Lemma showZ_inj (a b : Z) : showZ a = showZ b → a = b.
Proof.
  unfold showZ. intros Heq.
  assert (∀ z, Z.to_int z ≠ Decimal.Pos Decimal.Nil ∧ Z.to_int z ≠ Decimal.Neg Decimal.Nil)
    as Hnn.
  { intros [|p|p]; simpl; split; try discriminate;
      intros [= Hp]; by apply DecimalPos.Unsigned.to_uint_nonnil in Hp. }
  assert (Some (Z.to_int a) = Some (Z.to_int b)) as [= Hint].
  { rewrite <- (NilZero.isi (Z.to_int a)), <- (NilZero.isi (Z.to_int b)) by apply Hnn.
    by rewrite Heq. }
  rewrite <- (DecimalZ.of_to a), <- (DecimalZ.of_to b). by rewrite Hint.
Qed.

(** The reason of an unresolved outcome names the status 404 exactly when
    the live answer carried it. *)
Lemma unresolvedOutcome_reason (row : Row.t) (live : Fetched) :
  ∃ reason : string,
    Outcome.reason (Accelerated.unresolvedOutcome row live) = Some reason
    ∧ (reason = "unresolved_status_404" ↔ f_status live = Some 404)
    ∧ nonEmpty reason = true
    ∧ reason ≠ "http_404".
Proof.
  destruct live as [st finalUrl text|e].
  - exists ("unresolved_status_" +:+ showZ st). split; [reflexivity|]. split; [|split].
    + change "unresolved_status_404" with ("unresolved_status_" +:+ showZ 404).
      split.
      * intros Heq%String.app_inj%showZ_inj. by subst.
      * intros [= ->]. reflexivity.
    + reflexivity.
    + discriminate.
  - exists ("fetch_error:" +:+ e). split; [reflexivity|]. split; [|split].
    + split; discriminate.
    + reflexivity.
    + discriminate.
Qed.

Section OutcomeFacts.
Context `{Platform}.

Lemma decidePage_source (ctx : Accelerated.Context) (page : Fetched) (m : MappedId) :
  Accelerated.decidePage ctx page = Some m →
  source m = "license_type" ∨ source m = "combined_single"
  ∨ source m = "license_section" ∨ source m = "license_name".
Proof.
  unfold Accelerated.decidePage. destruct (okText page); [|discriminate].
  apply decideMappedId_source.
Qed.

Lemma archiveStage_is404 (row : Row.t) (ctx : Accelerated.Context) (live : Fetched)
    (w w' : World) (d : Outcome.t) :
  Accelerated.archiveStage row ctx live w = (Some d, w') → Accelerated.is404 live = true.
Proof.
  unfold Accelerated.archiveStage, ret.
  destruct (useArchive _); destruct (Accelerated.is404 live); simpl; done.
Qed.

Lemma aliasStage_decided (row : Row.t) (ctx : Accelerated.Context) (live : Fetched)
    (w w' : World) (d : Outcome.t) :
  Accelerated.aliasStage row ctx live w = (Some d, w') →
  Accelerated.is404 live = true
  ∧ ∃ aliasUrl page m,
      Accelerated.decidePage ctx page = Some m
      ∧ d = Accelerated.mappedOutcome row ctx live None None (Some aliasUrl)
              (bcId m) ("search_alias_" +:+ source m).
Proof.
  unfold Accelerated.aliasStage, bind, ret.
  destruct (useSearchAlias _); destruct (Accelerated.is404 live); simpl; try discriminate.
  destruct (Accelerated.findBandcampAliasAlbumUrl _ _ w) as [[aliasUrl|] w1]; [|discriminate].
  destruct (nonEmpty aliasUrl); [|discriminate].
  destruct (Accelerated.fetchWithRetries aliasUrl _ _ w1) as [page w2].
  destruct (Accelerated.decidePage ctx page) as [m|] eqn:Hm; [|discriminate].
  intros [= <- <-]. split; [done|]. eauto.
Qed.

Lemma consensusStage_decided (row : Row.t) (ctx : Accelerated.Context) (live : Fetched)
    (d : Outcome.t) :
  Accelerated.consensusStage row ctx live = Some d →
  ∃ host consensus top,
    Accelerated.hostnameOf (Row.url row) = Some host
    ∧ Accelerated.domainConsensus ctx !! host = Some consensus
    ∧ Accelerated.topBcId consensus = Some top
    ∧ Accelerated.consensusAccepted (Accelerated.options ctx) consensus = true
    ∧ d = Accelerated.mappedOutcome row ctx live None None None top "domain_consensus".
Proof.
  unfold Accelerated.consensusStage.
  destruct (useDomainConsensus _); [|discriminate].
  destruct (Accelerated.hostnameOf (Row.url row)) as [host|]; [|discriminate].
  destruct (nonEmpty host); [|discriminate].
  destruct (Accelerated.domainConsensus ctx !! host) as [consensus|] eqn:Hc; [|discriminate].
  destruct (Accelerated.topBcId consensus) as [top|] eqn:Htop; [|discriminate].
  destruct (Accelerated.consensusAccepted _ consensus) eqn:Hacc; [|discriminate].
  intros [= <-]. exists host, consensus, top. done.
Qed.

(** The five ways [inspectRow] ends: a decision on the live page, on an
    archived snapshot, on an alias page, by domain consensus, or none. *)
Lemma inspectRow_cases (row : Row.t) (ctx : Accelerated.Context) (w : World) :
  let live := (Accelerated.fetchWithRetries (Row.url row)
                 (timeoutMs (Accelerated.options ctx))
                 (retries (Accelerated.options ctx)) w).1 in
  let outcome := (Accelerated.inspectRow row ctx w).1 in
  (∃ m, Accelerated.decidePage ctx live = Some m
        ∧ outcome = Accelerated.mappedOutcome row ctx live None None None (bcId m) (source m))
  ∨ (∃ snapshotUrl archived m,
        Accelerated.is404 live = true
        ∧ Accelerated.decidePage ctx archived = Some m
        ∧ outcome = Accelerated.mappedOutcome row ctx live (f_status archived)
                      (Some snapshotUrl) None (bcId m) ("wayback_" +:+ source m))
  ∨ (∃ aliasUrl page m,
        Accelerated.is404 live = true
        ∧ Accelerated.decidePage ctx page = Some m
        ∧ outcome = Accelerated.mappedOutcome row ctx live None None (Some aliasUrl)
                      (bcId m) ("search_alias_" +:+ source m))
  ∨ (∃ host consensus top,
        Accelerated.hostnameOf (Row.url row) = Some host
        ∧ Accelerated.domainConsensus ctx !! host = Some consensus
        ∧ Accelerated.topBcId consensus = Some top
        ∧ Accelerated.consensusAccepted (Accelerated.options ctx) consensus = true
        ∧ outcome = Accelerated.mappedOutcome row ctx live None None None
                      top "domain_consensus")
  ∨ outcome = Accelerated.unresolvedOutcome row live.
Proof.
  simpl. rewrite inspectRow_unfold, earlierStages_unfold.
  destruct (Accelerated.fetchWithRetries _ _ _ w) as [live w1].
  destruct (Accelerated.liveStage row ctx live) as [d|] eqn:Hlive.
  { simpl. apply liveStage_Some in Hlive as (m & Hm & ->). left. eauto. }
  destruct (Accelerated.archiveStage row ctx live w1) as [[d|] w2] eqn:Harch.
  { simpl. pose proof (archiveStage_is404 _ _ _ _ _ _ Harch) as H404.
    apply archiveStage_Some in Harch as (s & a & m & Hm & ->).
    right; left. exists s, a, m. done. }
  destruct (Accelerated.aliasStage row ctx live w2) as [[d|] w3] eqn:Halias.
  { simpl. apply aliasStage_decided in Halias as (H404 & a & page & m & Hm & ->).
    right; right; left. exists a, page, m. done. }
  simpl. destruct (Accelerated.consensusStage row ctx live) as [d|] eqn:Hcons.
  - apply consensusStage_decided in Hcons as (host & c & top & Hh & Hc & Htop & Hacc & ->).
    right; right; right; left. exists host, c, top. done.
  - right; right; right; right. reflexivity.
Qed.

(** An outcome copies the record's identity and the live answer; it
    carries a mapping or a reason, never both and never neither; and its
    provenance tells which URL it was decided on: the archive URL is set
    exactly for the [wayback_] sources, the alias URL exactly for the
    [search_alias_] sources, both only after a live 404. *)
Theorem inspectRow_outcome_shape (row : Row.t) (ctx : Accelerated.Context) (w : World) :
  let live := (Accelerated.fetchWithRetries (Row.url row)
                 (timeoutMs (Accelerated.options ctx))
                 (retries (Accelerated.options ctx)) w).1 in
  let outcome := (Accelerated.inspectRow row ctx w).1 in
  let sourceStarts prefix :=
    ∃ m, Outcome.mapped outcome = Some m ∧ startsWith (Mapped.source m) prefix = true in
  (Outcome.url_id outcome = Row.url_id row
   ∧ Outcome.url outcome = Row.url row
   ∧ Outcome.title outcome = Row.title row)
  ∧ (Outcome.status outcome = f_status live
     ∧ Outcome.final_url outcome = f_finalUrl live)
  ∧ (Outcome.reason outcome = None ↔ is_Some (Outcome.mapped outcome))
  ∧ (is_Some (Outcome.archive_url outcome) ↔ sourceStarts "wayback_")
  ∧ (is_Some (Outcome.alias_url outcome) ↔ sourceStarts "search_alias_")
  ∧ (is_Some (Outcome.archive_status outcome) → is_Some (Outcome.archive_url outcome))
  ∧ (is_Some (Outcome.archive_url outcome) ∨ is_Some (Outcome.alias_url outcome) →
     Outcome.status outcome = Some 404).
Proof.
  intros live outcome sourceStarts. unfold sourceStarts.
  destruct (inspectRow_cases row ctx w)
    as [(m & Hm & Hout)
       |[(s & a & m & H404 & Hm & Hout)
        |[(s & a & m & H404 & Hm & Hout)
         |[(host & c & top & _ & _ & _ & _ & Hout) | Hout]]]];
    fold live in Hout; fold outcome in Hout; try fold live in H404; try fold live in Hm;
    rewrite Hout; simpl.
  - apply decidePage_source in Hm.
    split; [done|]. split; [done|]. split; [split; [by eexists | done]|].
    split; [split; [by intros [? ?]|]|].
    { intros (m' & [= <-] & Hp). simpl in Hp.
      destruct Hm as [Hs|[Hs|[Hs|Hs]]]; rewrite Hs in Hp; discriminate Hp. }
    split; [split; [by intros [? ?]|]|].
    { intros (m' & [= <-] & Hp). simpl in Hp.
      destruct Hm as [Hs|[Hs|[Hs|Hs]]]; rewrite Hs in Hp; discriminate Hp. }
    split; [by intros [? ?]|]. intros [[? ?]|[? ?]]; done.
  - apply bool_decide_eq_true_1 in H404.
    split; [done|]. split; [done|]. split; [split; [by eexists | done]|].
    split; [split; [|by eexists]|].
    { intros _. eexists. split; [reflexivity|]. simpl. apply startsWith_append. }
    split; [split; [by intros [? ?]|]|].
    { intros (m' & [= <-] & Hp). simpl in Hp. discriminate Hp. }
    split; [by eexists|]. intros _. exact H404.
  - apply bool_decide_eq_true_1 in H404.
    split; [done|]. split; [done|]. split; [split; [by eexists | done]|].
    split; [split; [by intros [? ?]|]|].
    { intros (m' & [= <-] & Hp). simpl in Hp. discriminate Hp. }
    split; [split; [|by eexists]|].
    { intros _. eexists. split; [reflexivity|]. simpl. apply startsWith_append. }
    split; [by intros [? ?]|]. intros _. exact H404.
  - split; [done|]. split; [done|]. split; [split; [by eexists | done]|].
    split; [split; [by intros [? ?]|]|].
    { intros (m' & [= <-] & Hp). simpl in Hp. discriminate Hp. }
    split; [split; [by intros [? ?]|]|].
    { intros (m' & [= <-] & Hp). simpl in Hp. discriminate Hp. }
    split; [by intros [? ?]|]. intros [[? ?]|[? ?]]; done.
  - split; [done|]. split; [done|].
    split; [split; [done | by intros [? ?]]|].
    split; [split; [by intros [? ?] | by intros (? & ? & _)]|].
    split; [split; [by intros [? ?] | by intros (? & ? & _)]|].
    split; [by intros [? ?]|]. intros [[? ?]|[? ?]]; done.
Qed.

(** The status the merge writes for a record the fixer looked at: dead
    when the live URL answered 404 and no alias page decided, otherwise
    active with a decided license and unverified without; [http_404] is
    the health reason of the dead records and of no other; the URL changes
    only to a decided alias. *)
Theorem inspectRow_status_policy (row : Row.t) (ctx : Accelerated.Context) (ts : string)
    (w : World) :
  let outcome := (Accelerated.inspectRow row ctx w).1 in
  let merged := Accelerated.mergeRow ts outcome row in
  let gone := bool_decide (Outcome.status outcome = Some 404) in
  let aliased := bool_decide (is_Some (Outcome.alias_url outcome)) in
  let decided := bool_decide (is_Some (Outcome.mapped outcome)) in
  Row.status merged
  = Some (if gone && negb aliased then "dead"
          else if decided then "active" else "unverified")
  ∧ (Row.health_reason merged = Some "http_404" ↔ Row.status merged = Some "dead")
  ∧ Row.url merged = default (Row.url row) (Outcome.alias_url outcome).
Proof.
  intros outcome merged gone aliased decided.
  unfold gone, aliased, decided, merged.
  destruct (inspectRow_cases row ctx w)
    as [(m & Hm & Hout)
       |[(s & a & m & H404 & Hm & Hout)
        |[(s & a & m & H404 & Hm & Hout)
         |[(host & c & top & _ & _ & _ & _ & Hout) | Hout]]]];
    fold outcome in Hout; rewrite Hout; clear Hout;
    set (live := (Accelerated.fetchWithRetries _ _ _ w).1) in *.
  - unfold Accelerated.mergeRow. simpl.
    apply decidePage_source in Hm.
    destruct Hm as [Hs|[Hs|[Hs|Hs]]]; rewrite Hs; simpl;
      destruct (bool_decide (f_status live = Some 404)); simpl;
      (split; [reflexivity|]); (split; [split; intros; done | reflexivity]).
  - unfold Accelerated.mergeRow. simpl.
    unfold Accelerated.is404 in H404. rewrite H404.
    apply decidePage_source in Hm.
    destruct Hm as [Hs|[Hs|[Hs|Hs]]]; rewrite Hs; simpl;
      (split; [reflexivity|]); (split; [split; intros; done | reflexivity]).
  - unfold Accelerated.mergeRow. simpl.
    unfold Accelerated.is404 in H404. rewrite H404.
    apply decidePage_source in Hm.
    destruct Hm as [Hs|[Hs|[Hs|Hs]]]; rewrite Hs; simpl;
      (split; [reflexivity|]); (split; [split; intros; done | reflexivity]).
  - unfold Accelerated.mergeRow. simpl.
    destruct (bool_decide (f_status live = Some 404)); simpl;
      (split; [reflexivity|]); (split; [split; intros; done | reflexivity]).
  - destruct (unresolvedOutcome_reason row live) as (reason & Hr & Hdead & Hne & Hnot).
    unfold Accelerated.mergeRow. rewrite Hr.
    cbn [Accelerated.unresolvedOutcome Outcome.mapped Outcome.status Outcome.alias_url
         Row.status Row.health_reason Row.url].
    rewrite Hne.
    rewrite (bool_decide_ext (Some reason = Some "unresolved_status_404")
                             (f_status live = Some 404))
      by (split; [intros [= ?]; by apply Hdead | intros ?; f_equal; by apply Hdead]).
    rewrite !(bool_decide_eq_false_2 (is_Some None)) by (by intros [? ?]).
    rewrite andb_true_r.
    destruct (bool_decide (f_status live = Some 404)).
    + split; [reflexivity|]. split; [done | reflexivity].
    + split; [reflexivity|]. split; [|reflexivity].
      split; [intros [= ?]; done | discriminate].
Qed.

End OutcomeFacts.

(** ** Extraction: the ids the three strategies can find *)

Lemma decideMappedId_elem (ev : Evidence) (d : MappedId) :
  decideMappedId ev = Some d → bcId d ∈ typeIds ev ++ sectionIds ev ++ nameIds ev.
Proof.
  unfold decideMappedId, allIds. rewrite !elem_of_app.
  destruct (single (typeIds ev)) as [x|] eqn:Ht.
  { intros [= <-]. apply single_Some_elem in Ht. simpl. tauto. }
  destruct (single (JsSet.of_list _)) as [x|] eqn:Ha.
  { intros [= <-]. apply single_Some_elem in Ha.
    rewrite JsSet_elem_of_of_list, !elem_of_app in Ha. simpl. tauto. }
  destruct (single (sectionIds ev)) as [x|] eqn:Hs.
  { intros [= <-]. apply single_Some_elem in Hs. simpl. tauto. }
  destruct (single (nameIds ev)) as [x|] eqn:Hn; [|discriminate].
  intros [= <-]. apply single_Some_elem in Hn. simpl. tauto.
Qed.

Lemma foldl_addTypeId_valid (validBcIds : JsSet.t) (ms : list (list string)) :
  ∀ (out : JsSet.t) (x : Z),
    x ∈ foldl (Accelerated.addTypeId validBcIds) out ms → x ∈ out ∨ x ∈ validBcIds.
Proof.
  induction ms as [|m ms IH]; intros out x; simpl; [by left|].
  intros [Hx|Hx]%IH; [|by right].
  unfold Accelerated.addTypeId, JsSet.has in Hx.
  destruct (parseInt (group 1 m)) as [value|]; [|by left].
  case_bool_decide as Hv; [|by left].
  apply JsSet_elem_of_add in Hx as [->|Hx]; [by right | by left].
Qed.

Lemma foldl_addNameId_range (slugToBcId : gmap string Z) (ms : list (list string)) :
  ∀ (out : JsSet.t) (x : Z),
    x ∈ foldl (Accelerated.addNameId slugToBcId) out ms →
    x ∈ out ∨ ∃ slug, slugToBcId !! slug = Some x.
Proof.
  induction ms as [|m ms IH]; intros out x; simpl; [by left|].
  intros [Hx|Hx]%IH; [|by right].
  unfold Accelerated.addNameId in Hx.
  destruct (LICENSE_NAME_TO_SLUG !! group 1 m) as [slug|]; [|by left].
  destruct (slugToBcId !! slug) as [bcId|] eqn:Hslug; [|by left].
  apply JsSet_elem_of_add in Hx as [->|Hx]; [right; eauto | by left].
Qed.

Section EvidenceFacts.
Context `{Platform}.

Lemma foldl_addSectionUrl_range (slugToBcId : gmap string Z) (ms : list (list string)) :
  ∀ (out : JsSet.t) (x : Z),
    x ∈ foldl (Accelerated.addSectionUrl slugToBcId) out ms →
    x ∈ out ∨ ∃ slug, slugToBcId !! slug = Some x.
Proof.
  induction ms as [|m ms IH]; intros out x; simpl; [by left|].
  intros [Hx|Hx]%IH; [|by right].
  unfold Accelerated.addSectionUrl in Hx.
  destruct (Accelerated.normalizeCcLicenseUrl (group 0 m)) as [normalized|]; [|by left].
  destruct (slugToBcId !! slug normalized) as [bcId|] eqn:Hslug; [|by left].
  apply JsSet_elem_of_add in Hx as [->|Hx]; [right; eauto | by left].
Qed.

Lemma extractLicenseSectionIds_range (html : string) (slugToBcId : gmap string Z) (x : Z) :
  x ∈ Accelerated.extractLicenseSectionIds html slugToBcId →
  ∃ slug, slugToBcId !! slug = Some x.
Proof.
  unfold Accelerated.extractLicenseSectionIds.
  assert (∀ (sections : list (list string)) (out : JsSet.t),
            x ∈ foldl (λ out sectionMatch,
                         foldl (Accelerated.addSectionUrl slugToBcId) out
                               (regexExecAll re_cc_url (group 1 sectionMatch)))
                      out sections →
            x ∈ out ∨ ∃ slug, slugToBcId !! slug = Some x) as Hgen.
  { induction sections as [|s sections IH]; intros out; simpl; [by left|].
    intros [Hx|Hx]%IH; [|by right]. by apply foldl_addSectionUrl_range in Hx. }
  intros [Hx|Hx]%Hgen; [by apply elem_of_nil in Hx | done].
Qed.

(** Whatever the page says, the ids the three strategies extract from it
    are ids of the license table: a type marker counts only when its
    number is a known id, and a name marker or a section link only
    through the slug table. *)
Lemma extractEvidence_known (text : string) (validBcIds : JsSet.t)
    (slugToBcId : gmap string Z) (x : Z) :
  let ev := Accelerated.extractEvidence text validBcIds slugToBcId in
  x ∈ typeIds ev ++ sectionIds ev ++ nameIds ev →
  x ∈ validBcIds ∨ ∃ slug, slugToBcId !! slug = Some x.
Proof.
  simpl. rewrite !elem_of_app. intros [Hx|[Hx|Hx]].
  - left. unfold Accelerated.extractLicenseTypeIds in Hx.
    apply foldl_addTypeId_valid in Hx as [Hx|Hx]; [by apply elem_of_nil in Hx | done].
  - right. by eapply extractLicenseSectionIds_range.
  - right. unfold Accelerated.extractLicenseNameIds in Hx.
    apply foldl_addNameId_range in Hx as [Hx|Hx]; [by apply elem_of_nil in Hx | done].
Qed.

Lemma decidePage_category (options : Options) (files : Accelerated.Files) (page : Fetched)
    (m : MappedId) :
  Accelerated.decidePage (Accelerated.makeContext options files) page = Some m →
  bcId m ∈ License.bc_id <$> Accelerated.validLicensesOf (Accelerated.licenses files).
Proof.
  unfold Accelerated.decidePage. destruct (okText page) as [text|]; [|discriminate].
  intros Hd%decideMappedId_elem.
  apply extractEvidence_known in Hd as [Hv|[slug Hslug]].
  - unfold Accelerated.makeContext in Hv. cbn [Accelerated.validBcIds] in Hv.
    rewrite JsSet_elem_of_of_list in Hv. exact Hv.
  - unfold Accelerated.makeContext in Hslug. cbn [Accelerated.slugToBcId] in Hslug.
    apply Map_of_lookup_Some in Hslug. to_fmap.
    apply list_elem_of_fmap in Hslug as (l & [= _ ->] & Hl).
    apply list_elem_of_fmap. eauto.
Qed.

(** A license the fixer decides from a page (live, archived or alias) is
    a category of the license file, and the outcome names it; only the
    domain consensus decides without a page. *)
Theorem inspectRow_mapped_category (options : Options) (files : Accelerated.Files)
    (row : Row.t) (w : World) (m : Mapped.t) :
  let ctx := Accelerated.makeContext options files in
  Outcome.mapped (Accelerated.inspectRow row ctx w).1 = Some m →
  Mapped.source m ≠ "domain_consensus" →
  ∃ l : License.t,
    l ∈ Accelerated.validLicensesOf (Accelerated.licenses files)
    ∧ License.bc_id l = Mapped.bc_id m
    ∧ Mapped.name m = Some (License.name l).
Proof.
  intros ctx Hmapped Hsource.
  assert (∃ d page, Accelerated.decidePage ctx page = Some d
                    ∧ Mapped.bc_id m = bcId d
                    ∧ Mapped.name m = Accelerated.licenseById ctx !! bcId d)
    as (d & page & Hd & Hid & Hname).
  { destruct (inspectRow_cases row ctx w)
      as [(d & Hd & Hout)
         |[(s & a & d & _ & Hd & Hout)
          |[(s & a & d & _ & Hd & Hout)
           |[(host & c & top & _ & _ & _ & _ & Hout) | Hout]]]];
      rewrite Hout in Hmapped; simpl in Hmapped; try discriminate Hmapped;
      injection Hmapped as <-; simpl in *; try done; eauto. }
  apply decidePage_category in Hd.
  assert (is_Some (Accelerated.licenseById ctx !! bcId d)) as [name Hlookup].
  { apply Map_of_foldl_is_Some. to_fmap. by rewrite <- list_fmap_compose. }
  rewrite Hlookup in Hname.
  apply Map_of_lookup_Some in Hlookup. to_fmap.
  apply list_elem_of_fmap in Hlookup as (l & [= Hl ->] & Hin).
  exists l. split; [done|]. split; [by rewrite Hid | done].
Qed.

End EvidenceFacts.

Lemma inspectRow_mapped_category_witness :
  ∃ l : License.t,
    l ∈ Accelerated.validLicensesOf (Accelerated.licenses Sample.goneFiles)
    ∧ License.bc_id l = 4
    ∧ Some "by-nc" = Some (License.name l).
Proof.
  apply (inspectRow_mapped_category (H := Sample.scripted Sample.archived)
           (Sample.writing DEFAULTS) Sample.goneFiles
           (Sample.row 7 Sample.goneUrl None None) 0%nat
           {| Mapped.bc_id := 4; Mapped.name := Some "by-nc";
              Mapped.source := "wayback_license_type" |}).
  - reflexivity.
  - discriminate.
Defined.

(** ** The report of a run: counters and the records it touches *)

Lemma countWhere_cons {A} (p : A → bool) (x : A) (l : list A) :
  countWhere p (x :: l) = (if p x then 1 else 0) + countWhere p l.
Proof.
  unfold countWhere. rewrite filter_cons.
  destruct (decide (p x = true)) as [Hp|Hp].
  - rewrite Hp. simpl length. lia.
  - apply not_true_is_false in Hp. rewrite Hp. lia.
Qed.

Lemma countWhere_ext {A} (p q : A → bool) (l : list A) :
  (∀ x, p x = q x) → countWhere p l = countWhere q l.
Proof.
  intros Hpq. unfold countWhere. f_equal. f_equal.
  apply list_filter_iff. intros x. by rewrite Hpq.
Qed.

Lemma countWhere_nonneg {A} (p : A → bool) (l : list A) : 0 ≤ countWhere p l.
Proof. unfold countWhere. lia. Qed.

(** A predicate and its negation split a list. *)
Lemma countWhere_negb {A} (p : A → bool) (l : list A) :
  countWhere p l + countWhere (λ x, negb (p x)) l = Z.of_nat (length l).
Proof.
  induction l as [|x l IH]; [reflexivity|].
  rewrite !countWhere_cons. simpl length. destruct (p x); simpl; lia.
Qed.

Lemma countWhere_fmap {A B} (f : A → B) (p : B → bool) (l : list A) :
  countWhere p (f <$> l) = countWhere (λ x, p (f x)) l.
Proof.
  induction l as [|x l IH]; [done|].
  rewrite fmap_cons, !countWhere_cons, IH. done.
Qed.

Lemma countWhere_filter {A} (p q : A → bool) (l : list A) :
  countWhere p (filter (λ x, q x = true) l) = countWhere (λ x, p x && q x) l.
Proof.
  induction l as [|x l IH]; [done|].
  rewrite filter_cons, countWhere_cons.
  destruct (decide (q x = true)) as [Hq|Hq].
  - rewrite countWhere_cons, IH, Hq, andb_true_r. done.
  - apply not_true_is_false in Hq. rewrite IH, Hq, andb_false_r. done.
Qed.

(** With one result per row, in the order of the rows, and no id twice,
    the [Map] of the results by id gives every row its own result. *)
Lemma lookups_of_results {A B} (key : A → Z) (rkey : B → Z) (rows : list A)
    (results : list B) :
  NoDup (rkey <$> results) → rkey <$> results = key <$> rows →
  (λ row, Map_of ((λ r, (rkey r, r)) <$> results) !! key row) <$> rows = Some <$> results.
Proof.
  intros Hnd Hkeys. apply list_eq. intros i. rewrite !list_lookup_fmap.
  assert ((rkey <$> results) !! i = (key <$> rows) !! i) as Hi by (by rewrite Hkeys).
  rewrite !list_lookup_fmap in Hi.
  destruct (rows !! i) as [row|] eqn:Hrow; destruct (results !! i) as [r|] eqn:Hr;
    simpl in *; try done.
  injection Hi as Hi. f_equal. rewrite <- Hi. apply Map_of_lookup_NoDup.
  - by rewrite <- list_fmap_compose.
  - apply list_elem_of_fmap. exists r. split; [done|]. by eapply list_elem_of_lookup_2.
Qed.

Lemma bumpKey_lookup_key `{Countable K} (k j : K) (m : gmap K Z) :
  default 0 (Accelerated.bumpKey k m !! j)
  = default 0 (m !! j) + (if bool_decide (k = j) then 1 else 0).
Proof.
  unfold Accelerated.bumpKey. case_bool_decide as Hk.
  - subst. rewrite lookup_insert_eq. reflexivity.
  - rewrite lookup_insert_ne by done. lia.
Qed.

(** One more occurrence of a key adds one to the sum of the counters. *)
Lemma tallyTotal_bumpKey (k : string) (m : gmap string Z) :
  tallyTotal (Accelerated.bumpKey k m) = tallyTotal m + 1.
Proof.
  unfold tallyTotal, Accelerated.bumpKey.
  destruct (m !! k) as [v|] eqn:Hk; simpl.
  - rewrite <- insert_delete_eq.
    rewrite map_fold_insert_L; [|intros; lia | apply lookup_delete_eq].
    rewrite (map_fold_delete_L _ _ k v m); [lia | intros; lia | done].
  - rewrite map_fold_insert_L; [lia | intros; lia | done].
Qed.

(** The counters of [summarize]. *)
Lemma summarize_totals (results : list Outcome.t) :
  let s := Accelerated.summarize results in
  let isMapped := λ o : Outcome.t, bool_decide (is_Some (Outcome.mapped o)) in
  Accelerated.processed s = Z.of_nat (length results)
  ∧ Accelerated.mapped s = countWhere isMapped results
  ∧ Accelerated.unresolved s = countWhere (λ o, negb (isMapped o)) results
  ∧ tallyTotal (Accelerated.mappedBySource s) = Accelerated.mapped s
  ∧ tallyTotal (Accelerated.unresolvedReasons s) = Accelerated.unresolved s
  ∧ (∀ src : string,
       default 0 (Accelerated.mappedBySource s !! src)
       = countWhere (λ o, bool_decide (Mapped.source <$> Outcome.mapped o = Some src))
                    results)
  ∧ (∀ reason : string,
       default 0 (Accelerated.unresolvedReasons s !! reason)
       = countWhere (λ o, bool_decide (Outcome.mapped o = None
                                        ∧ default "null" (Outcome.reason o) = reason))
                    results).
Proof.
  intros s isMapped. unfold s, Accelerated.summarize.
  match goal with |- context [foldl ?f ?i results] => set (step := f); set (init := i) end.
  assert (∀ (l : list Outcome.t) (init : Accelerated.Summary),
            let s := foldl step init l in
            Accelerated.processed s = Accelerated.processed init
            ∧ Accelerated.mapped s = Accelerated.mapped init + countWhere isMapped l
            ∧ Accelerated.unresolved s
              = Accelerated.unresolved init + countWhere (λ o, negb (isMapped o)) l
            ∧ tallyTotal (Accelerated.mappedBySource s)
              = tallyTotal (Accelerated.mappedBySource init) + countWhere isMapped l
            ∧ tallyTotal (Accelerated.unresolvedReasons s)
              = tallyTotal (Accelerated.unresolvedReasons init)
                + countWhere (λ o, negb (isMapped o)) l
            ∧ (∀ src : string,
                 default 0 (Accelerated.mappedBySource s !! src)
                 = default 0 (Accelerated.mappedBySource init !! src)
                   + countWhere
                       (λ o, bool_decide (Mapped.source <$> Outcome.mapped o = Some src)) l)
            ∧ (∀ reason : string,
                 default 0 (Accelerated.unresolvedReasons s !! reason)
                 = default 0 (Accelerated.unresolvedReasons init !! reason)
                   + countWhere
                       (λ o, bool_decide (Outcome.mapped o = None
                                          ∧ default "null" (Outcome.reason o) = reason)) l))
    as Hgen.
  { clear init.
    assert (∀ (init : Accelerated.Summary) (o : Outcome.t),
              Accelerated.processed (step init o) = Accelerated.processed init
              ∧ Accelerated.mapped (step init o)
                = Accelerated.mapped init + (if isMapped o then 1 else 0)
              ∧ Accelerated.unresolved (step init o)
                = Accelerated.unresolved init + (if negb (isMapped o) then 1 else 0)
              ∧ tallyTotal (Accelerated.mappedBySource (step init o))
                = tallyTotal (Accelerated.mappedBySource init)
                  + (if isMapped o then 1 else 0)
              ∧ tallyTotal (Accelerated.unresolvedReasons (step init o))
                = tallyTotal (Accelerated.unresolvedReasons init)
                  + (if negb (isMapped o) then 1 else 0)
              ∧ (∀ src : string,
                   default 0 (Accelerated.mappedBySource (step init o) !! src)
                   = default 0 (Accelerated.mappedBySource init !! src)
                     + (if bool_decide (Mapped.source <$> Outcome.mapped o = Some src)
                        then 1 else 0))
              ∧ (∀ reason : string,
                   default 0 (Accelerated.unresolvedReasons (step init o) !! reason)
                   = default 0 (Accelerated.unresolvedReasons init !! reason)
                     + (if bool_decide (Outcome.mapped o = None
                                        ∧ default "null" (Outcome.reason o) = reason)
                        then 1 else 0))) as Hstep.
    { intros init o. unfold step, isMapped.
      destruct (Outcome.mapped o) as [m|]; simpl.
      - rewrite tallyTotal_bumpKey.
        split; [done|]. split; [done|]. split; [lia|]. split; [done|]. split; [lia|].
        split.
        + intros src. rewrite bumpKey_lookup_key.
          destruct (decide (Mapped.source m = src)) as [Heq|Hne].
          * rewrite !bool_decide_eq_true_2 by congruence. done.
          * rewrite !bool_decide_eq_false_2 by congruence. done.
        + intros reason. lia.
      - rewrite tallyTotal_bumpKey.
        split; [done|]. split; [lia|]. split; [done|]. split; [lia|]. split; [done|].
        split.
        + intros src. lia.
        + intros reason. rewrite bumpKey_lookup_key.
          destruct (decide (default "null" (Outcome.reason o) = reason)) as [Heq|Hne].
          * rewrite !bool_decide_eq_true_2 by auto. done.
          * rewrite !bool_decide_eq_false_2 by tauto. done. }
    induction l as [|o l IH]; intros init.
    { simpl. unfold countWhere. simpl.
      split; [done|]. split; [lia|]. split; [lia|]. split; [lia|]. split; [lia|].
      split; intros; lia. }
    simpl foldl. destruct (IH (step init o)) as (Hp & Hm & Hu & Hs & Hr & Hsrc & Hreason).
    destruct (Hstep init o) as (Hp1 & Hm1 & Hu1 & Hs1 & Hr1 & Hsrc1 & Hreason1).
    cbv zeta in *. rewrite !countWhere_cons.
    split; [congruence|]. split; [lia|]. split; [lia|]. split; [lia|]. split; [lia|].
    split.
    - intros src. rewrite Hsrc, Hsrc1, countWhere_cons. lia.
    - intros reason. rewrite Hreason, Hreason1, countWhere_cons. lia. }
  destruct (Hgen results init) as (Hp & Hm & Hu & Hs & Hr & Hsrc & Hreason).
  cbv zeta in *. unfold init in *. simpl in *.
  unfold tallyTotal in Hs, Hr. rewrite map_fold_empty in Hs, Hr.
  split; [done|]. split; [lia|]. split; [lia|].
  split; [unfold tallyTotal; lia|]. split; [unfold tallyTotal; lia|]. split.
  - intros src. rewrite Hsrc, lookup_empty. simpl. lia.
  - intros reason. rewrite Hreason, lookup_empty. simpl. lia.
Qed.

Lemma mergeRow_license (ts : string) (o : Outcome.t) (row : Row.t) :
  Row.license (Accelerated.mergeRow ts o row)
  = match Outcome.mapped o with
    | Some m => Some (Mapped.bc_id m)
    | None => Row.license row
    end.
Proof. unfold Accelerated.mergeRow. destruct (Outcome.mapped o); reflexivity. Qed.

(** After the merge the records without license are those whose outcome
    carries no mapping. *)
Lemma mergeOutcomes_missing (ts : string) (results : list Outcome.t) (urls : list Row.t) :
  NoDup (Row.url_id <$> urls) →
  Outcome.url_id <$> results
  = Row.url_id <$> filter (λ u, Accelerated.missing u = true) urls →
  Accelerated.countRows Accelerated.missing (Accelerated.mergeOutcomes ts results urls)
  = countWhere (λ o, bool_decide (Outcome.mapped o = None)) results.
Proof.
  intros Hnd Hids.
  set (unmapped := λ x : option Outcome.t,
         match x with
         | Some o => bool_decide (Outcome.mapped o = None)
         | None => true
         end).
  set (found := λ row : Row.t, Accelerated.resultById results !! Row.url_id row).
  change (Accelerated.countRows Accelerated.missing
            (Accelerated.mergeOutcomes ts results urls))
    with (countWhere Accelerated.missing
            ((λ row, match found row with
                     | Some match_ => Accelerated.mergeRow ts match_ row
                     | None => row
                     end) <$> urls)).
  rewrite countWhere_fmap.
  rewrite (countWhere_ext _ (λ row, unmapped (found row) && Accelerated.missing row)).
  2:{ intros row. unfold Accelerated.missing, unmapped.
      destruct (found row) as [o|]; [|done].
      rewrite mergeRow_license. destruct (Outcome.mapped o) as [m|].
      - by rewrite !bool_decide_eq_false_2 by done.
      - by rewrite (bool_decide_eq_true_2 (None = None)) by done. }
  rewrite <- (countWhere_filter (λ row, unmapped (found row)) Accelerated.missing).
  rewrite <- (countWhere_fmap found unmapped).
  unfold found, Accelerated.resultById. to_fmap.
  rewrite (lookups_of_results Row.url_id Outcome.url_id); [| |done].
  - by rewrite countWhere_fmap.
  - rewrite Hids. by apply NoDup_fmap_filter.
Qed.

Section ReportFacts.
Context `{Platform}.

(** The parts of what [main] returns, in terms of the outcomes of its
    missing rows. *)
Lemma main_unfold (options : Options) (ts : string) (files : Accelerated.Files) (w : World) :
  let ctx := Accelerated.makeContext options files in
  let missingRows := filter (λ u, Accelerated.missing u = true) (Accelerated.urls files) in
  let results := (mapM (λ row, Accelerated.inspectRow row ctx) missingRows w).1 in
  let merged := Accelerated.mergeOutcomes ts results (Accelerated.urls files) in
  let done := (Accelerated.main options ts files w).1 in
  Accelerated.results done.2 = results
  ∧ Accelerated.summary done.2 = Accelerated.summarize results
  ∧ Accelerated.total_urls (Accelerated.dataset done.2) = Z.of_nat (length merged)
  ∧ Accelerated.missing_before (Accelerated.dataset done.2) = Z.of_nat (length missingRows)
  ∧ Accelerated.missing_after (Accelerated.dataset done.2)
    = Accelerated.countRows Accelerated.missing merged
  ∧ Accelerated.urls done.1.1
    = (if write options then merged else Accelerated.urls files)
  ∧ Outcome.url_id <$> results = Row.url_id <$> missingRows.
Proof.
  intros ctx missingRows results merged done.
  unfold done, merged, results, Accelerated.main, bind, ret.
  pose proof (mapM_inspectRow_ids ctx missingRows w) as Hids.
  fold ctx. fold missingRows.
  destruct (mapM _ missingRows w) as [rs w']. simpl in *.
  split; [done|]. split; [done|]. split; [done|]. split; [done|]. split; [done|].
  split; [by destruct (write options) | done].
Qed.

(** The counters of a run's report agree with one another: every record
    without a license is processed, each processed record is counted as
    mapped or as unresolved, and the per-source and per-reason counters
    add up to these two; the counter of a source is the number of
    outcomes that carry it. *)
Theorem main_report_counters (options : Options) (ts : string) (files : Accelerated.Files)
    (w : World) :
  let report := (Accelerated.main options ts files w).1.2 in
  let d := Accelerated.dataset report in
  let s := Accelerated.summary report in
  Accelerated.total_urls d = Z.of_nat (length (Accelerated.urls files))
  ∧ Accelerated.missing_before d
    = Accelerated.countRows Accelerated.missing (Accelerated.urls files)
  ∧ Accelerated.processed s = Accelerated.missing_before d
  ∧ Accelerated.processed s = Z.of_nat (length (Accelerated.results report))
  ∧ Accelerated.mapped s + Accelerated.unresolved s = Accelerated.processed s
  ∧ tallyTotal (Accelerated.mappedBySource s) = Accelerated.mapped s
  ∧ tallyTotal (Accelerated.unresolvedReasons s) = Accelerated.unresolved s
  ∧ ∀ src : string,
      default 0 (Accelerated.mappedBySource s !! src)
      = countWhere (λ o, bool_decide (Mapped.source <$> Outcome.mapped o = Some src))
                   (Accelerated.results report).
Proof.
  intros report d s. unfold d, s, report.
  destruct (main_unfold options ts files w)
    as (Hresults & Hsummary & Htotal & Hbefore & _ & _ & Hids).
  cbv zeta in *.
  rewrite Hsummary, Htotal, Hbefore, Hresults.
  set (missingRows := filter _ (Accelerated.urls files)) in *.
  set (results := (mapM _ missingRows w).1) in *.
  destruct (summarize_totals results) as (Hp & Hm & Hu & Hs & Hr & Hsrc & _).
  cbv zeta in *.
  assert (length results = length missingRows) as Hlen
    by (by rewrite <- (length_fmap Outcome.url_id), Hids, length_fmap).
  split.
  { unfold Accelerated.mergeOutcomes. by rewrite length_map. }
  split; [reflexivity|].
  split; [by rewrite Hp, Hlen|]. split; [done|].
  split; [rewrite Hp, Hm, Hu; apply countWhere_negb|].
  split; [done|]. split; done.
Qed.

(** When no two records share an id, the records left without a license
    after a run are its unresolved ones: [missing_after] is the
    [unresolved] counter, and [missing_before] less the [mapped] one. *)
Theorem main_missing_after (options : Options) (ts : string) (files : Accelerated.Files)
    (w : World) :
  NoDup (Row.url_id <$> Accelerated.urls files) →
  let report := (Accelerated.main options ts files w).1.2 in
  let d := Accelerated.dataset report in
  let s := Accelerated.summary report in
  Accelerated.missing_after d = Accelerated.unresolved s
  ∧ Accelerated.missing_after d = Accelerated.missing_before d - Accelerated.mapped s.
Proof.
  intros Hnd report d s. unfold d, s, report.
  destruct (main_unfold options ts files w)
    as (Hresults & Hsummary & _ & Hbefore & Hafter & _ & Hids).
  cbv zeta in *.
  rewrite Hsummary, Hbefore, Hafter.
  set (missingRows := filter _ (Accelerated.urls files)) in *.
  set (results := (mapM _ missingRows w).1) in *.
  destruct (summarize_totals results) as (Hp & Hm & Hu & _).
  cbv zeta in *.
  rewrite (mergeOutcomes_missing ts results (Accelerated.urls files) Hnd Hids).
  assert (countWhere (λ o, bool_decide (Outcome.mapped o = None)) results
          = Accelerated.unresolved (Accelerated.summarize results)) as Hcount.
  { rewrite Hu. apply countWhere_ext. intros o.
    destruct (Outcome.mapped o) as [m|].
    - rewrite bool_decide_eq_false_2 by done.
      by rewrite (bool_decide_eq_true_2 (is_Some (Some m))) by (by eexists).
    - rewrite bool_decide_eq_true_2 by done.
      by rewrite (bool_decide_eq_false_2 (is_Some None)) by (by intros [? ?]). }
  split; [done|].
  rewrite Hcount, Hu, Hm.
  pose proof (countWhere_negb (λ o : Outcome.t, bool_decide (is_Some (Outcome.mapped o)))
                              results) as Hsplit.
  assert (length results = length missingRows) as Hlen
    by (by rewrite <- (length_fmap Outcome.url_id), Hids, length_fmap).
  rewrite Hlen in Hsplit. lia.
Qed.

(** A writing run on records with unique ids leaves every record that
    has a license exactly as it was, keeps the order, the ids, the
    titles, the tags and the favorite marks of all records, and stamps
    every record without a license with the start time of the run. *)
Theorem main_touches_missing_rows_only (options : Options) (ts : string)
    (files : Accelerated.Files) (w : World) :
  write options = true →
  NoDup (Row.url_id <$> Accelerated.urls files) →
  let before := Accelerated.urls files in
  let after := Accelerated.urls (Accelerated.main options ts files w).1.1.1 in
  (λ row, (Row.url_id row, Row.title row, Row.tags row, Row.favorite row)) <$> after
  = (λ row, (Row.url_id row, Row.title row, Row.tags row, Row.favorite row)) <$> before
  ∧ ∀ (i : nat) (row : Row.t),
      before !! i = Some row →
      match Row.license row with
      | Some _ => after !! i = Some row
      | None =>
        ∃ row', after !! i = Some row' ∧ Row.health_checked_at row' = Some ts
      end.
Proof.
  intros Hw Hnd before after. unfold after, before.
  destruct (main_unfold options ts files w) as (_ & _ & _ & _ & _ & Hurls & Hids).
  cbv zeta in *. rewrite Hurls, Hw.
  set (missingRows := filter _ (Accelerated.urls files)) in *.
  set (results := (mapM _ missingRows w).1) in *.
  split.
  - unfold Accelerated.mergeOutcomes. to_fmap. rewrite <- list_fmap_compose.
    apply list_fmap_ext. intros i row _. simpl.
    destruct (Accelerated.resultById results !! Row.url_id row) as [o|]; [|done].
    unfold Accelerated.mergeRow. by destruct (Outcome.mapped o).
  - intros i row Hi. unfold Accelerated.mergeOutcomes. to_fmap.
    rewrite list_lookup_fmap, Hi. simpl.
    destruct (Row.license row) as [l|] eqn:Hl.
    + assert (Accelerated.resultById results !! Row.url_id row = None) as ->; [|done].
      apply Map_of_lookup_None. rewrite resultById_keys, Hids.
      intros (row' & Hid & [Hmiss Hin]%list_elem_of_filter)%list_elem_of_fmap.
      assert (row = row') as <-.
      { apply (NoDup_fmap_eq Row.url_id (Accelerated.urls files)); try done.
        by apply (list_elem_of_lookup_2 _ i). }
      unfold Accelerated.missing in Hmiss. apply bool_decide_eq_true_1 in Hmiss. congruence.
    + assert (is_Some (Accelerated.resultById results !! Row.url_id row)) as [o ->].
      { apply Map_of_foldl_is_Some. rewrite resultById_keys, Hids.
        apply list_elem_of_fmap. exists row. split; [done|].
        apply list_elem_of_filter. split.
        - unfold Accelerated.missing. by apply bool_decide_eq_true_2.
        - by apply (list_elem_of_lookup_2 _ i). }
      eexists. split; [reflexivity|].
      unfold Accelerated.mergeRow. by destruct (Outcome.mapped o).
Qed.

End ReportFacts.

Lemma main_missing_after_witness :
  let report := (Accelerated.main (H := Sample.scripted Sample.conflicting) DEFAULTS
                   "2024-05-01T00:00:00.000Z" Sample.twoCategories 0%nat).1.2 in
  Accelerated.missing_after (Accelerated.dataset report)
  = Accelerated.unresolved (Accelerated.summary report).
Proof.
  apply (main_missing_after (H := Sample.scripted Sample.conflicting) DEFAULTS
           "2024-05-01T00:00:00.000Z" Sample.twoCategories 0%nat).
  apply (bool_decide_unpack _). vm_compute. exact I.
Defined.

Lemma main_touches_missing_rows_only_witness :
  let after := Accelerated.urls
                 (Accelerated.main (H := Sample.scripted Sample.label)
                    (Sample.writing DEFAULTS) "2024-05-01T00:00:00.000Z"
                    Sample.fifteenKnown 0%nat).1.1.1 in
  after !! 0%nat = Some (Sample.row 1 Sample.labelUrl (Some 3) None).
Proof.
  apply (proj2 (main_touches_missing_rows_only (H := Sample.scripted Sample.label)
                  (Sample.writing DEFAULTS) "2024-05-01T00:00:00.000Z"
                  Sample.fifteenKnown 0%nat eq_refl
                  ltac:(apply (bool_decide_unpack _); vm_compute; exact I))
               0%nat (Sample.row 1 Sample.labelUrl (Some 3) None) eq_refl).
Defined.

(** ** Domain consensus: what the table says about a host *)

Lemma countOf_cons (j k c : Z) (counts : list (Z * Z)) :
  Tally.countOf j ((k, c) :: counts)
  = (if bool_decide (k = j) then c else 0) + Tally.countOf j counts.
Proof.
  unfold Tally.countOf. simpl. destruct (Z.eqb_spec k j).
  - by rewrite bool_decide_eq_true_2.
  - by rewrite bool_decide_eq_false_2.
Qed.

Lemma totalOf_cons (k c : Z) (counts : list (Z * Z)) :
  Tally.totalOf ((k, c) :: counts) = c + Tally.totalOf counts.
Proof. reflexivity. Qed.

Lemma countAt_cons (host h : string) (j : Z) (cs : list (Z * Z))
    (bucket : list (string * list (Z * Z))) :
  Tally.countAt host j ((h, cs) :: bucket)
  = (if bool_decide (h = host) then Tally.countOf j cs else 0) + Tally.countAt host j bucket.
Proof.
  unfold Tally.countAt. simpl. destruct (String.eqb_spec h host).
  - by rewrite bool_decide_eq_true_2.
  - by rewrite bool_decide_eq_false_2.
Qed.

Lemma totalAt_cons (host h : string) (cs : list (Z * Z))
    (bucket : list (string * list (Z * Z))) :
  Tally.totalAt host ((h, cs) :: bucket)
  = (if bool_decide (h = host) then Tally.totalOf cs else 0) + Tally.totalAt host bucket.
Proof.
  unfold Tally.totalAt. simpl. destruct (String.eqb_spec h host).
  - by rewrite bool_decide_eq_true_2.
  - by rewrite bool_decide_eq_false_2.
Qed.

(** [bump] adds one to the counter of its key and to no other. *)
Lemma countOf_bump (k j : Z) (counts : list (Z * Z)) :
  Tally.countOf j (Accelerated.bump k counts)
  = Tally.countOf j counts + (if bool_decide (k = j) then 1 else 0).
Proof.
  induction counts as [|[k' c] counts IH]; cbn [Accelerated.bump].
  - rewrite countOf_cons. unfold Tally.countOf. simpl. lia.
  - destruct (Z.eqb_spec k k') as [->|Hne].
    + rewrite !countOf_cons. case_bool_decide; lia.
    + rewrite !countOf_cons, IH. lia.
Qed.

Lemma totalOf_bump (k : Z) (counts : list (Z * Z)) :
  Tally.totalOf (Accelerated.bump k counts) = Tally.totalOf counts + 1.
Proof.
  induction counts as [|[k' c] counts IH]; cbn [Accelerated.bump]; [reflexivity|].
  destruct (Z.eqb_spec k k') as [->|Hne]; rewrite !totalOf_cons; [lia|].
  rewrite IH. lia.
Qed.

Lemma bump_keys (k x : Z) (counts : list (Z * Z)) :
  x ∈ (Accelerated.bump k counts).*1 ↔ x = k ∨ x ∈ counts.*1.
Proof.
  induction counts as [|[k' c] counts IH]; simpl.
  - rewrite list_elem_of_singleton, elem_of_nil. tauto.
  - destruct (Z.eqb_spec k k') as [->|Hne]; simpl.
    + rewrite !elem_of_cons. tauto.
    + rewrite !elem_of_cons, IH. tauto.
Qed.

Lemma bump_NoDup (k : Z) (counts : list (Z * Z)) :
  NoDup counts.*1 → NoDup (Accelerated.bump k counts).*1.
Proof.
  induction counts as [|[k' c] counts IH]; simpl; intros Hnd.
  - apply NoDup_singleton.
  - apply NoDup_cons in Hnd as [Hk' Hnd].
    destruct (Z.eqb_spec k k') as [->|Hne]; simpl.
    + by apply NoDup_cons.
    + apply NoDup_cons. split; [|by apply IH].
      rewrite bump_keys. intros [?|?]; [congruence | done].
Qed.

(** A bucket with one entry per host, each with one counter per license. *)
Abbreviation tidy :=
  (λ bucket : list (string * list (Z * Z)),
     NoDup bucket.*1 ∧ Forall (λ entry, NoDup entry.2.*1) bucket).

Lemma countAt_bumpHost (host h : string) (license j : Z)
    (bucket : list (string * list (Z * Z))) :
  Tally.countAt h j (Accelerated.bumpHost host license bucket)
  = Tally.countAt h j bucket + (if bool_decide (host = h ∧ license = j) then 1 else 0).
Proof.
  induction bucket as [|[h' cs] bucket IH]; cbn [Accelerated.bumpHost Accelerated.bump].
  - rewrite countAt_cons, countOf_cons. unfold Tally.countAt, Tally.countOf. simpl.
    repeat case_bool_decide; first [lia | exfalso; tauto].
  - destruct (String.eqb_spec h' host) as [->|Hne].
    + rewrite !countAt_cons, countOf_bump.
      repeat case_bool_decide; first [lia | exfalso; tauto].
    + rewrite !countAt_cons, IH. lia.
Qed.

Lemma totalAt_bumpHost (host h : string) (license : Z)
    (bucket : list (string * list (Z * Z))) :
  Tally.totalAt h (Accelerated.bumpHost host license bucket)
  = Tally.totalAt h bucket + (if bool_decide (host = h) then 1 else 0).
Proof.
  induction bucket as [|[h' cs] bucket IH]; cbn [Accelerated.bumpHost Accelerated.bump].
  - rewrite totalAt_cons. unfold Tally.totalAt. simpl.
    case_bool_decide; reflexivity.
  - destruct (String.eqb_spec h' host) as [->|Hne].
    + rewrite !totalAt_cons, totalOf_bump. case_bool_decide; lia.
    + rewrite !totalAt_cons, IH. lia.
Qed.

Lemma bumpHost_keys (host x : string) (license : Z) (bucket : list (string * list (Z * Z))) :
  x ∈ (Accelerated.bumpHost host license bucket).*1 ↔ x = host ∨ x ∈ bucket.*1.
Proof.
  induction bucket as [|[h' cs] bucket IH]; simpl.
  - rewrite list_elem_of_singleton, elem_of_nil. tauto.
  - destruct (String.eqb_spec h' host) as [->|Hne]; simpl.
    + rewrite !elem_of_cons. tauto.
    + rewrite !elem_of_cons, IH. tauto.
Qed.

Lemma bumpHost_tidy (host : string) (license : Z) (bucket : list (string * list (Z * Z))) :
  tidy bucket → tidy (Accelerated.bumpHost host license bucket).
Proof.
  induction bucket as [|[h' cs] bucket IH]; simpl; intros [Hnd Hall].
  - split; [apply NoDup_singleton|]. constructor; [|constructor].
    simpl. apply NoDup_singleton.
  - apply NoDup_cons in Hnd as [Hh' Hnd]. apply Forall_cons in Hall as [Hcs Hall].
    destruct (String.eqb_spec h' host) as [->|Hne]; simpl.
    + split; [by apply NoDup_cons|]. constructor; [by apply bump_NoDup | done].
    + destruct (IH (conj Hnd Hall)) as [Hnd' Hall'].
      split; [|by constructor].
      apply NoDup_cons. split; [|done].
      rewrite bumpHost_keys. intros [?|?]; [congruence | done].
Qed.

Lemma countAt_notin (host : string) (j : Z) (bucket : list (string * list (Z * Z))) :
  host ∉ bucket.*1 → Tally.countAt host j bucket = 0 ∧ Tally.totalAt host bucket = 0.
Proof.
  induction bucket as [|[h cs] bucket IH]; intros Hnotin; [done|].
  rewrite fmap_cons in Hnotin. apply not_elem_of_cons in Hnotin as [Hne Hnotin].
  destruct (IH Hnotin) as [Hc Ht]. simpl in Hne.
  rewrite countAt_cons, totalAt_cons, Hc, Ht.
  rewrite !bool_decide_eq_false_2 by congruence. done.
Qed.

(** With one entry per host, the counters of a host are those of its
    entry. *)
Lemma countAt_entry (host : string) (counts : list (Z * Z)) (j : Z)
    (bucket : list (string * list (Z * Z))) :
  NoDup bucket.*1 → (host, counts) ∈ bucket →
  Tally.countAt host j bucket = Tally.countOf j counts
  ∧ Tally.totalAt host bucket = Tally.totalOf counts.
Proof.
  induction bucket as [|[h cs] bucket IH]; intros Hnd Hin.
  - by apply elem_of_nil in Hin.
  - rewrite fmap_cons in Hnd. apply NoDup_cons in Hnd as [Hh Hnd]. simpl in Hh.
    rewrite countAt_cons, totalAt_cons.
    apply elem_of_cons in Hin as [[= <- <-] | Hin].
    + destruct (countAt_notin host j bucket Hh) as [-> ->].
      rewrite !bool_decide_eq_true_2 by done. lia.
    + destruct (IH Hnd Hin) as [-> ->].
      assert (h ≠ host) as Hne.
      { intros ->. apply Hh. apply list_elem_of_fmap. by exists (host, counts). }
      rewrite !bool_decide_eq_false_2 by done. done.
Qed.

Lemma countOf_notin (j : Z) (counts : list (Z * Z)) :
  j ∉ counts.*1 → Tally.countOf j counts = 0.
Proof.
  induction counts as [|[k c] counts IH]; intros Hnotin; [done|].
  rewrite fmap_cons in Hnotin. apply not_elem_of_cons in Hnotin as [Hne Hnotin].
  simpl in Hne. rewrite countOf_cons, IH by done.
  by rewrite bool_decide_eq_false_2 by congruence.
Qed.

Lemma countOf_elem (j c : Z) (counts : list (Z * Z)) :
  NoDup counts.*1 → (j, c) ∈ counts → Tally.countOf j counts = c.
Proof.
  induction counts as [|[k c'] counts IH]; intros Hnd Hin.
  - by apply elem_of_nil in Hin.
  - rewrite fmap_cons in Hnd. apply NoDup_cons in Hnd as [Hk Hnd]. simpl in Hk.
    rewrite countOf_cons. apply elem_of_cons in Hin as [[= <- <-] | Hin].
    + rewrite countOf_notin by done. rewrite bool_decide_eq_true_2 by done. lia.
    + rewrite IH by done.
      assert (k ≠ j) as Hne.
      { intros ->. apply Hk. apply list_elem_of_fmap. by exists (j, c). }
      rewrite bool_decide_eq_false_2 by done. lia.
Qed.

(** The summary loop: the running total is the sum of the counters, and
    the running top is a largest counter seen so far. *)
Lemma tally_majority (counts : list (Z * Z)) : ∀ acc : Z * option Z * Z,
  let result := foldl Accelerated.tally acc counts in
  result.1.1 = acc.1.1 + Tally.totalOf counts
  ∧ acc.2 ≤ result.2
  ∧ (∀ (j c : Z), (j, c) ∈ counts → c ≤ result.2)
  ∧ ((result.1.2, result.2) = (acc.1.2, acc.2)
     ∨ ∃ top, result.1.2 = Some top ∧ (top, result.2) ∈ counts).
Proof.
  induction counts as [|[k c] counts IH]; intros [[total top] topCount].
  - simpl. split; [lia|]. split; [lia|].
    split; [by intros j c ?%elem_of_nil | by left].
  - cbn [foldl]. rewrite totalOf_cons.
    destruct (IH (Accelerated.tally (total, top, topCount) (k, c)))
      as (Htotal & Hle & Hall & Htop).
    cbv zeta in *.
    set (result := foldl Accelerated.tally
                     (Accelerated.tally (total, top, topCount) (k, c)) counts) in *.
    unfold Accelerated.tally in Htotal, Hle, Htop.
    destruct (Z.ltb_spec topCount c) as [Hlt|Hge]; cbn [fst snd] in *.
    + split; [lia|]. split; [lia|]. split.
      * intros j c' [[= -> ->] | Hin]%elem_of_cons; [lia | by apply (Hall j)].
      * right. destruct Htop as [Heq | (t & Ht & Hin)].
        -- exists k. injection Heq as Hk Hc. split; [done|]. rewrite Hc. left.
        -- exists t. split; [done | by right].
    + split; [lia|]. split; [lia|]. split.
      * intros j c' [[= -> ->] | Hin]%elem_of_cons; [lia | by apply (Hall j)].
      * destruct Htop as [Heq | (t & Ht & Hin)]; [by left|].
        right. exists t. split; [done | by right].
Qed.

Lemma countWhere_le {A} (p q : A → bool) (l : list A) :
  (∀ x, p x = true → q x = true) → countWhere p l ≤ countWhere q l.
Proof.
  intros Hpq. induction l as [|x l IH]; [done|].
  rewrite !countWhere_cons. specialize (Hpq x).
  destruct (p x); destruct (q x); try lia; by specialize (Hpq eq_refl).
Qed.

Lemma countWhere_pos {A} (p : A → bool) (l : list A) :
  0 < countWhere p l → ∃ x, x ∈ l ∧ p x = true.
Proof.
  induction l as [|x l IH]; [unfold countWhere; simpl; lia|].
  rewrite countWhere_cons. destruct (p x) eqn:Hp.
  - intros _. exists x. split; [left | done].
  - intros Hpos. destruct IH as (y & Hy & Hpy); [lia|]. exists y. split; [by right | done].
Qed.

Section MajorityFacts.
Context `{Platform}.

(** The bucket after the rows: for every named host, the counters count
    the licensed records on it. *)
Lemma buildBucket_counts (urls : list Row.t) (host : string) :
  nonEmpty host = true →
  tidy (Accelerated.buildBucket urls)
  ∧ Tally.totalAt host (Accelerated.buildBucket urls) = knownOn host urls
  ∧ ∀ j : Z, Tally.countAt host j (Accelerated.buildBucket urls) = knownAs host j urls.
Proof.
  intros Hhost. unfold Accelerated.buildBucket.
  match goal with |- context [foldl ?f [] urls] => set (step := f) end.
  assert (∀ (l : list Row.t) (bucket : list (string * list (Z * Z))),
            tidy bucket →
            tidy (foldl step bucket l)
            ∧ Tally.totalAt host (foldl step bucket l)
              = Tally.totalAt host bucket + knownOn host l
            ∧ ∀ j : Z, Tally.countAt host j (foldl step bucket l)
                       = Tally.countAt host j bucket + knownAs host j l) as Hgen.
  { induction l as [|row l IH]; intros bucket Htidy.
    { simpl. unfold knownOn, knownAs, countWhere. simpl.
      split; [done|]. split; [lia | intros; lia]. }
    simpl foldl.
    assert (tidy (step bucket row)
            ∧ Tally.totalAt host (step bucket row)
              = Tally.totalAt host bucket
                + (if bool_decide (is_Some (Row.license row)) && onHost host row
                   then 1 else 0)
            ∧ ∀ j : Z, Tally.countAt host j (step bucket row)
                       = Tally.countAt host j bucket
                         + (if bool_decide (Row.license row = Some j) && onHost host row
                            then 1 else 0)) as (Htidy1 & Htotal1 & Hcount1).
    { unfold step, onHost.
      destruct (Row.license row) as [license|].
      - rewrite (bool_decide_eq_true_2 (is_Some (Some license))) by (by eexists).
        destruct (Accelerated.hostnameOf (Row.url row)) as [h|].
        + destruct (nonEmpty h) eqn:Hh.
          * split; [by apply bumpHost_tidy|].
            destruct (decide (h = host)) as [->|Hne].
            -- rewrite (bool_decide_eq_true_2 (Some host = Some host)) by done.
               split.
               ++ rewrite totalAt_bumpHost, bool_decide_eq_true_2 by done. done.
               ++ intros j. rewrite countAt_bumpHost.
                  destruct (decide (license = j)) as [->|Hj].
                  ** rewrite !bool_decide_eq_true_2 by done. done.
                  ** rewrite (bool_decide_eq_false_2 (host = host ∧ license = j)) by tauto.
                     rewrite (bool_decide_eq_false_2 (Some license = Some j))
                       by congruence.
                     done.
            -- rewrite (bool_decide_eq_false_2 (Some h = Some host)) by congruence.
               rewrite !andb_false_r. split.
               ++ rewrite totalAt_bumpHost, bool_decide_eq_false_2 by done. done.
               ++ intros j. rewrite countAt_bumpHost, bool_decide_eq_false_2 by tauto.
                  by rewrite andb_false_r.
          * assert (h ≠ host) as Hne by (intros ->; congruence).
            rewrite (bool_decide_eq_false_2 (Some h = Some host)) by congruence.
            rewrite !andb_false_r. split; [done|].
            split; [lia | intros; rewrite andb_false_r; lia].
        + rewrite (bool_decide_eq_false_2 (None = Some host)) by done.
          rewrite !andb_false_r. split; [done|].
          split; [lia | intros; rewrite andb_false_r; lia].
      - rewrite (bool_decide_eq_false_2 (is_Some None)) by (by intros [? ?]).
        split; [done|]. split; [simpl; lia|]. intros j.
        rewrite (bool_decide_eq_false_2 (None = Some j)) by done. simpl. lia. }
    destruct (IH (step bucket row) Htidy1) as (Htidy2 & Htotal2 & Hcount2).
    split; [done|]. split.
    - rewrite Htotal2, Htotal1. unfold knownOn. rewrite countWhere_cons. lia.
    - intros j. rewrite Hcount2, Hcount1. unfold knownAs. rewrite countWhere_cons. lia. }
  destruct (Hgen urls []) as (Htidy & Htotal & Hcount).
  { split; [apply NoDup_nil_2 | constructor]. }
  split; [done|]. split; [rewrite Htotal; reflexivity|].
  intros j. rewrite Hcount. reflexivity.
Qed.

(** An entry of the consensus table: [total] is the number of licensed
    records on the host, [topBcId] a license most of them carry and
    [topCount] the number of records that carry it. *)
Lemma buildDomainConsensus_entry (urls : list Row.t) (host : string)
    (consensus : Accelerated.Consensus) :
  Accelerated.buildDomainConsensus urls !! host = Some consensus →
  Accelerated.total consensus = knownOn host urls
  ∧ ∃ top : Z,
      Accelerated.topBcId consensus = Some top
      ∧ Accelerated.topCount consensus = knownAs host top urls
      ∧ (∀ k : Z, knownAs host k urls ≤ Accelerated.topCount consensus)
      ∧ 0 < Accelerated.topCount consensus ≤ Accelerated.total consensus.
Proof.
  intros Hlookup.
  pose proof (buildDomainConsensus_lookup urls host consensus Hlookup) as [Hhost _].
  unfold Accelerated.buildDomainConsensus in Hlookup.
  apply Map_of_lookup_Some in Hlookup. to_fmap.
  apply list_elem_of_fmap in Hlookup as ([h counts] & [= -> ->] & Hin). simpl in *.
  destruct (buildBucket_counts urls h Hhost) as ([Hnd Hall] & Htotal & Hcount).
  pose proof (buildBucket_filled urls) as Hfilled.
  rewrite Forall_forall in Hfilled, Hall.
  destruct (Hfilled _ Hin) as (_ & Hne & Hseen). specialize (Hall _ Hin). simpl in *.
  assert (Tally.totalAt h (Accelerated.buildBucket urls) = Tally.totalOf counts) as Htot
    by (by destruct (countAt_entry h counts 0 _ Hnd Hin)).
  assert (∀ j, Tally.countAt h j (Accelerated.buildBucket urls) = Tally.countOf j counts)
    as Hcnt by (intros j; by destruct (countAt_entry h counts j _ Hnd Hin)).
  destruct (tally_majority counts (0, None, 0)) as (Hsum & Hle & Hmax & Htop).
  unfold Accelerated.summarizeCounts.
  destruct (foldl Accelerated.tally (0, None, 0) counts) as [[total top] topCount].
  cbv zeta in *. simpl in *.
  assert (0 < topCount) as Hpos.
  { destruct counts as [|[k c] counts']; [done|].
    apply Forall_cons in Hseen as [Hc _]. simpl in Hc.
    specialize (Hmax k c ltac:(left)). lia. }
  destruct Htop as [[= -> ->] | (t & -> & Hint)]; [lia|].
  split; [lia|]. exists t. split; [done|].
  assert (topCount = knownAs h t urls) as Htc
    by (rewrite <- Hcount, Hcnt; symmetry; by apply countOf_elem).
  split; [done|]. split.
  - intros k. rewrite <- Hcount, Hcnt.
    destruct (decide (k ∈ counts.*1)) as [Hk|Hk].
    + apply list_elem_of_fmap in Hk as ([k' c] & -> & Hkc). simpl.
      rewrite (countOf_elem k' c) by done. by apply (Hmax k').
    + rewrite countOf_notin by done. lia.
  - split; [done|]. rewrite Hsum, <- Htot, Htotal, Htc. simpl.
    apply countWhere_le. intros row [Hl Hon]%andb_true_iff.
    apply bool_decide_eq_true_1 in Hl. rewrite Hon, Hl.
    by rewrite (bool_decide_eq_true_2 (is_Some (Some t))) by (by eexists).
Qed.

(** The consensus table of a host: the number of its licensed records,
    and a license that no other license of the host outnumbers, with the
    number of records that carry it. *)
Theorem buildDomainConsensus_majority (urls : list Row.t) (host : string)
    (consensus : Accelerated.Consensus) :
  Accelerated.buildDomainConsensus urls !! host = Some consensus →
  nonEmpty host = true
  ∧ Accelerated.total consensus = knownOn host urls
  ∧ ∃ top : Z,
      Accelerated.topBcId consensus = Some top
      ∧ Accelerated.topCount consensus = knownAs host top urls
      ∧ (∀ k : Z, knownAs host k urls ≤ knownAs host top urls)
      ∧ 0 < knownAs host top urls ≤ knownOn host urls.
Proof.
  intros Hlookup.
  pose proof (buildDomainConsensus_lookup urls host consensus Hlookup) as [Hhost _].
  destruct (buildDomainConsensus_entry urls host consensus Hlookup)
    as (Htotal & top & Htop & Hcount & Hmax & Hpos).
  split; [done|]. split; [done|]. exists top.
  rewrite <- Hcount, <- Htotal. done.
Qed.

(** A license decided by domain consensus is one that records of the
    same host already carry: the most frequent among at least
    [domainMinKnown] licensed records of that host. *)
Theorem inspectRow_consensus_majority (options : Options) (files : Accelerated.Files)
    (row : Row.t) (w : World) (m : Mapped.t) :
  let ctx := Accelerated.makeContext options files in
  Outcome.mapped (Accelerated.inspectRow row ctx w).1 = Some m →
  Mapped.source m = "domain_consensus" →
  ∃ host : string,
    Accelerated.hostnameOf (Row.url row) = Some host
    ∧ domainMinKnown options ≤ knownOn host (Accelerated.urls files)
    ∧ (∀ k : Z, knownAs host k (Accelerated.urls files)
                ≤ knownAs host (Mapped.bc_id m) (Accelerated.urls files))
    ∧ ∃ known : Row.t,
        known ∈ Accelerated.urls files
        ∧ Row.license known = Some (Mapped.bc_id m)
        ∧ Accelerated.hostnameOf (Row.url known) = Some host.
Proof.
  intros ctx Hmapped Hsource.
  destruct (inspectRow_cases row ctx w)
    as [(d & Hd & Hout)
       |[(s & a & d & _ & Hd & Hout)
        |[(s & a & d & _ & Hd & Hout)
         |[(host & c & top & Hhost & Hc & Htop & Hacc & Hout) | Hout]]]];
    rewrite Hout in Hmapped; simpl in Hmapped; try discriminate Hmapped;
    injection Hmapped as <-; simpl in *.
  - apply decidePage_source in Hd as [Hs|[Hs|[Hs|Hs]]]; rewrite Hs in Hsource;
      discriminate Hsource.
  - discriminate Hsource.
  - discriminate Hsource.
  - destruct (buildDomainConsensus_entry _ _ _ Hc)
      as (Htotal & top' & Htop' & Hcount & Hmax & Hpos).
    rewrite Htop in Htop'. injection Htop' as <-.
    exists host. split; [done|]. split.
    { unfold Accelerated.consensusAccepted in Hacc.
      apply andb_true_iff in Hacc as [[Hk _]%andb_true_iff _].
      apply Z.leb_le in Hk. by rewrite <- Htotal. }
    split; [intros k; rewrite <- Hcount; apply Hmax|].
    destruct (countWhere_pos _ (Accelerated.urls files)
                ltac:(unfold knownAs in Hcount; rewrite <- Hcount; lia))
      as (known & Hin & [Hl Hon]%andb_true_iff).
    exists known. split; [done|].
    split; [by apply bool_decide_eq_true_1 in Hl | by apply bool_decide_eq_true_1 in Hon].
Qed.

End MajorityFacts.

Lemma buildDomainConsensus_majority_witness :
  Accelerated.total
    {| Accelerated.total := 15; Accelerated.topBcId := Some 3;
       Accelerated.topCount := 15; Accelerated.purity := 1%float |}
  = knownOn (H := Sample.scripted Sample.label) "label.bandcamp.com"
      (Accelerated.urls Sample.fifteenKnown).
Proof.
  apply (buildDomainConsensus_majority (H := Sample.scripted Sample.label)
           (Accelerated.urls Sample.fifteenKnown) "label.bandcamp.com").
  vm_compute. reflexivity.
Defined.

Lemma inspectRow_consensus_majority_witness :
  ∃ host : string,
    Accelerated.hostnameOf (H := Sample.scripted Sample.label) Sample.labelUrl = Some host
    ∧ 10 ≤ knownOn (H := Sample.scripted Sample.label) host
             (Accelerated.urls Sample.fifteenKnown).
Proof.
  destruct (inspectRow_consensus_majority (H := Sample.scripted Sample.label)
              (Sample.withMinKnown 10 DEFAULTS) Sample.fifteenKnown
              (Sample.row 16 Sample.labelUrl None None) 0%nat
              {| Mapped.bc_id := 3; Mapped.name := Some "by";
                 Mapped.source := "domain_consensus" |}
              eq_refl eq_refl) as (host & Hhost & Hknown & _).
  exists host. split; [exact Hhost | exact Hknown].
Defined.

(** *** The gate of the consensus fallback *)

Lemma summarizeCounts_purity (counts : list (Z * Z)) :
  let c := Accelerated.summarizeCounts counts in
  Accelerated.purity c
  = if 0 <? Accelerated.total c
    then PrimFloat.div (Accelerated.toNumber (Accelerated.topCount c))
                       (Accelerated.toNumber (Accelerated.total c))
    else 0%float.
Proof.
  unfold Accelerated.summarizeCounts.
  destruct (foldl Accelerated.tally (0, None, 0) counts) as [[total top] topCount].
  reflexivity.
Qed.

Section GateFacts.
Context `{Platform}.

(** The purity the table keeps for a host is the quotient of the two
    counts, as a double. *)
Lemma buildDomainConsensus_purity (urls : list Row.t) (host : string)
    (consensus : Accelerated.Consensus) :
  Accelerated.buildDomainConsensus urls !! host = Some consensus →
  Accelerated.purity consensus
  = PrimFloat.div (Accelerated.toNumber (Accelerated.topCount consensus))
                  (Accelerated.toNumber (Accelerated.total consensus)).
Proof.
  intros Hlookup.
  destruct (buildDomainConsensus_entry urls host consensus Hlookup)
    as (_ & top & _ & _ & _ & Hpos).
  unfold Accelerated.buildDomainConsensus in Hlookup.
  apply Map_of_lookup_Some in Hlookup. to_fmap.
  apply list_elem_of_fmap in Hlookup as ([h counts] & [= -> ->] & _).
  cbn [fst snd] in *. rewrite summarizeCounts_purity.
  destruct (Z.ltb_spec 0 (Accelerated.total (Accelerated.summarizeCounts counts)));
    [reflexivity | lia].
Qed.

(** A host without an entry in the table has no licensed record. *)
Lemma buildDomainConsensus_absent (urls : list Row.t) (host : string) :
  nonEmpty host = true →
  Accelerated.buildDomainConsensus urls !! host = None →
  knownOn host urls = 0.
Proof.
  intros Hhost Hnone.
  destruct (buildBucket_counts urls host Hhost) as (_ & <- & _).
  apply countAt_notin with (j := 0). intros Hin.
  unfold Accelerated.buildDomainConsensus, Map_of in Hnone.
  destruct (Map_of_foldl_is_Some
              (map (λ entry, (entry.1, Accelerated.summarizeCounts entry.2))
                   (Accelerated.buildBucket urls)) host ∅) as [c Hc].
  - to_fmap. rewrite <- list_fmap_compose. exact Hin.
  - rewrite Hnone in Hc. discriminate Hc.
Qed.

(** C6: when the live, archive and alias steps decide nothing, the
    domain-consensus fallback (enabled) accepts the majority id of the
    record's domain exactly when the number of licensed records of the
    domain is at least [domainMinKnown] and the purity, the share of the
    majority id among them computed as a double, is at least
    [domainMinPurity]; otherwise, and for a domain without licensed
    records, the record stays unmapped.  A domain whose 15 licensed
    records all carry the same id (purity 1) is rejected under
    [domainMinKnown = 20], and accepted under [domainMinKnown = 10] for
    every minimum purity up to 1. *)
Theorem C6_consensus_gate (row : Row.t) (urls : list Row.t) (ctx : Accelerated.Context)
    (w : World) (host : string) :
  let o := Accelerated.options ctx in
  useDomainConsensus o = true →
  Accelerated.domainConsensus ctx = Accelerated.buildDomainConsensus urls →
  Accelerated.hostnameOf (Row.url row) = Some host →
  nonEmpty host = true →
  (Accelerated.earlierStages row ctx w).1.1 = None →
  let outcome := (Accelerated.inspectRow row ctx w).1 in
  let known := knownOn host urls in
  let accepts (top : Z) :=
    Outcome.mapped outcome
    = Some {| Mapped.bc_id := top;
              Mapped.name := Accelerated.licenseById ctx !! top;
              Mapped.source := "domain_consensus" |} in
  let gate (top : Z) :=
    domainMinKnown o ≤ known
    ∧ PrimFloat.leb (domainMinPurity o)
        (PrimFloat.div (Accelerated.toNumber (knownAs host top urls))
                       (Accelerated.toNumber known)) = true in
  (known = 0 → Outcome.mapped outcome = None)
  ∧ (0 < known →
     ∃ top : Z,
       (0 < knownAs host top urls ≤ known
        ∧ ∀ k : Z, knownAs host k urls ≤ knownAs host top urls)
       ∧ (accepts top ↔ gate top)
       ∧ (Outcome.mapped outcome = None ↔ ¬ gate top)
       ∧ (known = 15 → knownAs host top urls = 15 →
          (domainMinKnown o = 20 → Outcome.mapped outcome = None)
          ∧ (domainMinKnown o = 10 →
             PrimFloat.leb (domainMinPurity o) 1%float = true → accepts top))).
Proof.
  intros o Huse Htable Hhost Hname Hearlier outcome known accepts gate.
  assert (outcome
          = match Accelerated.consensusStage row ctx
                    (Accelerated.earlierStages row ctx w).1.2 with
            | Some decided => decided
            | None => Accelerated.unresolvedOutcome row
                        (Accelerated.earlierStages row ctx w).1.2
            end) as Hout.
  { unfold outcome. rewrite inspectRow_unfold.
    destruct (Accelerated.earlierStages row ctx w) as [[earlier live] w'].
    cbn [fst snd] in *. subst earlier. reflexivity. }
  set (live := (Accelerated.earlierStages row ctx w).1.2) in *.
  unfold Accelerated.consensusStage in Hout. fold o in Hout.
  rewrite Huse, Hhost, Hname, Htable in Hout.
  destruct (Accelerated.buildDomainConsensus urls !! host) as [consensus|] eqn:Hlookup.
  - destruct (buildDomainConsensus_entry urls host consensus Hlookup)
      as (Htotal & top & Htop & Hcount & Hmax & Hpos).
    pose proof (buildDomainConsensus_purity urls host consensus Hlookup) as Hpurity.
    fold known in Htotal. rewrite Htop in Hout.
    unfold Accelerated.consensusAccepted in Hout. fold o in Hout.
    rewrite Htop, Hpurity, Htotal, Hcount in Hout.
    rewrite (bool_decide_eq_true_2 (is_Some (Some top))) in Hout by (by eexists).
    rewrite andb_true_r in Hout.
    split; [lia|]. intros _. exists top.
    assert (accepts top ↔ gate top) as Hiff.
    { unfold accepts, gate. rewrite Hout.
      destruct (Z.leb_spec (domainMinKnown o) known) as [Hk|Hk];
        destruct (PrimFloat.leb _ _) eqn:Hp; cbn [andb].
      - split; [done|]. intros _. reflexivity.
      - split; [discriminate | intros [_ ?]; done].
      - split; [discriminate | intros [? _]; lia].
      - split; [discriminate | intros [? _]; lia]. }
    assert (Outcome.mapped outcome = None ↔ ¬ gate top) as Hnone.
    { unfold gate. rewrite Hout.
      destruct (Z.leb_spec (domainMinKnown o) known) as [Hk|Hk];
        destruct (PrimFloat.leb _ _) eqn:Hp; cbn [andb].
      - split; [discriminate|]. intros Hng. exfalso. by apply Hng.
      - split; [|done]. intros _ [_ ?]. done.
      - split; [|done]. intros _ [? _]. lia.
      - split; [|done]. intros _ [? _]. lia. }
    split; [rewrite <- Hcount; split; [lia | exact Hmax]|].
    split; [exact Hiff|]. split; [exact Hnone|].
    intros Hfifteen Hall. split.
    + intros Hknown. apply Hnone. unfold gate. rewrite Hknown, Hfifteen. lia.
    + intros Hknown Hmin. apply Hiff. unfold gate. rewrite Hknown, Hfifteen, Hall.
      split; [lia | exact Hmin].
  - pose proof (buildDomainConsensus_absent urls host Hname Hlookup) as Hzero.
    fold known in Hzero. split; [intros _; by rewrite Hout | lia].
Qed.

End GateFacts.

(** Twenty licensed records of one domain, half with license 3 and half
    with license 4: the purity is one half, so the record without license
    stays unresolved under the default minimum purity 1, and is mapped by
    consensus when the minimum purity is one half. *)
Lemma consensus_split_domain :
  let P := Sample.scripted Sample.label in
  let results purity :=
    Accelerated.results
      (Accelerated.main (H := P) (GateCases.gated 10 purity DEFAULTS)
         "2024-05-01T00:00:00.000Z" GateCases.splitDomain 0%nat).1.2 in
  map (λ o, Mapped.bc_id <$> Outcome.mapped o) (results 1%float) = [None]
  ∧ map (λ o, Mapped.bc_id <$> Outcome.mapped o) (results 0.5%float) = [Some 3].
Proof. vm_compute. split; reflexivity. Qed.

Lemma C6_consensus_gate_witness :
  let P := Sample.scripted Sample.label in
  let urls := Accelerated.urls Sample.fifteenKnown in
  let ctx := Accelerated.makeContext (H := P) (Sample.withMinKnown 10 DEFAULTS)
               Sample.fifteenKnown in
  let row := Sample.row 16 Sample.labelUrl None None in
  ∃ top : Z,
    knownAs (H := P) "label.bandcamp.com" top urls = 15
    ∧ Mapped.bc_id <$> Outcome.mapped (Accelerated.inspectRow (H := P) row ctx 0%nat).1
      = Some top.
Proof.
  intros P urls ctx row.
  destruct (C6_consensus_gate (H := P) row urls ctx 0%nat "label.bandcamp.com"
              eq_refl eq_refl eq_refl eq_refl eq_refl) as [_ Hknown].
  assert (knownOn (H := P) "label.bandcamp.com" urls = 15) as Hfifteen
    by (vm_compute; reflexivity).
  assert (knownAs (H := P) "label.bandcamp.com" 3 urls = 15) as Hthree
    by (vm_compute; reflexivity).
  destruct Hknown as (top & ([_ Hle] & Hmax) & _ & _ & Hcase); [rewrite Hfifteen; lia|].
  specialize (Hmax 3). rewrite Hthree in Hmax. rewrite Hfifteen in Hle.
  assert (knownAs (H := P) "label.bandcamp.com" top urls = 15) as Htop by lia.
  destruct (Hcase Hfifteen Htop) as [_ Haccepted].
  exists top. split; [exact Htop|]. rewrite (Haccepted eq_refl eq_refl). reflexivity.
Defined.

(** ** Alias discovery: what a found alias is *)

Lemma StrSet_add_elem (x y : string) (s : list string) :
  y ∈ StrSet_add x s ↔ y = x ∨ y ∈ s.
Proof.
  unfold StrSet_add. case_bool_decide.
  - split; [auto | intros [-> | ?]; auto].
  - rewrite elem_of_app, list_elem_of_singleton. tauto.
Qed.

Section AliasResult.
Context `{Platform}.

Lemma addCandidates_elem (slug : string) (links : list string) :
  ∀ (candidates : list string) (x : string),
    x ∈ Accelerated.addCandidates slug candidates links
    ↔ x ∈ candidates ∨ (x ∈ links ∧ Accelerated.slugOfAlbumUrl x = Some slug).
Proof.
  unfold Accelerated.addCandidates.
  induction links as [|link links IH]; intros candidates x; simpl.
  - rewrite elem_of_nil. tauto.
  - rewrite IH, elem_of_cons. case_bool_decide as Hslug.
    + rewrite StrSet_add_elem. split; [|tauto].
      intros [[->|?]|?]; tauto.
    + split; [tauto|]. intros [?|[[->|?] ?]]; tauto.
Qed.

(** The candidates the search loop ends with carry the wanted slug and
    were linked from the answer to one of the queries. *)
Lemma searchLoop_candidates (slug : string) (options : Options) (queries : list string) :
  ∀ (candidates : list string) (w : World) (found : list string) (x : string),
    (Accelerated.searchLoop slug options queries candidates w).1 = Some found →
    x ∈ found →
    x ∈ candidates
    ∨ ∃ (query : string) (w0 : World),
        query ∈ queries
        ∧ x ∈ Accelerated.matchingLinks slug
                (Accelerated.fetchWithRetries (Accelerated.searchUrlOf query)
                   (timeoutMs options) (retries options) w0).1.
Proof.
  induction queries as [|query rest IH]; intros candidates w found x; simpl.
  - intros [= <-] Hx. by left.
  - unfold bind.
    destruct (Accelerated.fetchWithRetries _ _ _ w) as [searched w1] eqn:Hfetch.
    assert (∀ y text, okText searched = Some text →
              y ∈ Accelerated.addCandidates slug candidates
                    (Accelerated.extractBandcampAlbumLinks text) →
              y ∈ candidates
              ∨ ∃ (q : string) (w0 : World),
                  q ∈ query :: rest
                  ∧ y ∈ Accelerated.matchingLinks slug
                          (Accelerated.fetchWithRetries (Accelerated.searchUrlOf q)
                             (timeoutMs options) (retries options) w0).1) as Hadd.
    { intros y text Hok [Hy|[Hy Hslug]]%addCandidates_elem; [by left|].
      right. exists query, w. split; [left|]. rewrite Hfetch. simpl.
      unfold Accelerated.matchingLinks. rewrite Hok.
      apply list_elem_of_filter. done. }
    destruct (okText searched) as [text|] eqn:Hok.
    + destruct (1 <? length _)%nat; [discriminate|].
      destruct (length _ =? 1)%nat.
      * intros [= <-] Hx. by apply (Hadd x text).
      * intros Hloop Hx.
        destruct (IH _ _ _ _ Hloop Hx) as [Hc | (q & w0 & Hq & Hin)].
        -- by apply (Hadd x text).
        -- right. exists q, w0. split; [by right | done].
    + intros Hloop Hx. destruct (IH _ _ _ _ Hloop Hx) as [Hc | (q & w0 & Hq & Hin)].
      * by left.
      * right. exists q, w0. split; [by right | done].
Qed.

(** An alias the search proposes is another URL than the record's own,
    carries the record's slug, and is an album link of the answer to one
    of the queries made for the record. *)
Theorem findBandcampAliasAlbumUrl_found (originalUrl : string) (options : Options)
    (w : World) (aliasUrl : string) :
  (Accelerated.findBandcampAliasAlbumUrl originalUrl options w).1 = Some aliasUrl →
  aliasUrl ≠ originalUrl
  ∧ ∃ host slug : string,
      Accelerated.hostnameOf originalUrl = Some host
      ∧ Accelerated.slugOfAlbumUrl originalUrl = Some slug
      ∧ Accelerated.slugOfAlbumUrl aliasUrl = Some slug
      ∧ ∃ (query : string) (w0 : World),
          query ∈ Accelerated.aliasQueries host slug
          ∧ aliasUrl ∈ Accelerated.extractBandcampAlbumLinks
                         (default ""
                            (okText (Accelerated.fetchWithRetries
                                       (Accelerated.searchUrlOf query)
                                       (timeoutMs options) (retries options) w0).1)).
Proof.
  unfold Accelerated.findBandcampAliasAlbumUrl.
  destruct (Accelerated.hostnameOf originalUrl) as [host|]; [|discriminate].
  destruct (Accelerated.slugOfAlbumUrl originalUrl) as [slug|]; [|discriminate].
  destruct (nonEmpty host && nonEmpty slug); [|discriminate].
  unfold bind, ret.
  destruct (Accelerated.searchLoop slug options _ [] w) as [found w1] eqn:Hloop.
  destruct found as [[|a [|b rest]]|]; try discriminate.
  destruct (String.eqb_spec a originalUrl) as [->|Hne]; [discriminate|].
  intros [= <-]. split; [done|]. exists host, slug. split; [done|]. split; [done|].
  destruct (searchLoop_candidates slug options (Accelerated.aliasQueries host slug)
              [] w [a] a) as [Hnil | (query & w0 & Hq & Hin)].
  { by rewrite Hloop. }
  { left. }
  { by apply elem_of_nil in Hnil. }
  unfold Accelerated.matchingLinks in Hin.
  destruct (okText _) as [text|] eqn:Hok; [|by apply elem_of_nil in Hin].
  apply list_elem_of_filter in Hin as [Hslug Hin].
  split; [done|]. exists query, w0. split; [done|]. by rewrite Hok.
Qed.

End AliasResult.

Lemma findBandcampAliasAlbumUrl_found_witness :
  (Accelerated.findBandcampAliasAlbumUrl (H := Sample.scripted Cases.uniqueSearch)
     Sample.songUrl DEFAULTS 0%nat).1 = Some Sample.songOne
  ∧ Sample.songOne ≠ Sample.songUrl.
Proof.
  split; [vm_compute; reflexivity|].
  apply (findBandcampAliasAlbumUrl_found (H := Sample.scripted Cases.uniqueSearch)
           Sample.songUrl DEFAULTS 0%nat Sample.songOne).
  vm_compute. reflexivity.
Defined.

(** ** The exact fixer: outcomes, targets and the report *)

Lemma countWhere_app {A} (p : A → bool) (l k : list A) :
  countWhere p (l ++ k) = countWhere p l + countWhere p k.
Proof.
  induction l as [|x l IH]; [unfold countWhere; simpl; lia|].
  rewrite <- app_comm_cons, !countWhere_cons, IH. lia.
Qed.

Lemma countWhere_all {A} (p : A → bool) (l : list A) :
  (∀ x, x ∈ l → p x = true) → countWhere p l = Z.of_nat (length l).
Proof.
  induction l as [|x l IH]; intros Hall; [done|].
  rewrite countWhere_cons, Hall by left. rewrite IH by (intros y Hy; apply Hall; by right).
  simpl length. lia.
Qed.

Lemma unresolvedReason_cases (detected : list CcUrl) (matched : list Exact.Matched)
    (status : Z) :
  Exact.unresolvedReason detected matched status = "http_status_" +:+ showZ status
  ∨ Exact.unresolvedReason detected matched status = "no_exact_legitimate_match"
  ∨ Exact.unresolvedReason detected matched status = "ambiguous_exact_matches".
Proof.
  unfold Exact.unresolvedReason.
  destruct (_ && _); [by left|]. destruct (_ =? _)%nat; [right; by left | right; by right].
Qed.

Lemma exact_summarize_mapped (results : list Exact.Outcome) :
  let s := Exact.summarize results in
  let isMapped := λ o : Exact.Outcome, bool_decide (is_Some (Exact.mapped o)) in
  Exact.processed s = Z.of_nat (length results)
  ∧ Exact.summary_mapped s = countWhere isMapped results
  ∧ Exact.unresolved s = countWhere (λ o, negb (isMapped o)) results
  ∧ Exact.fetch_errors s
    = countWhere (λ o, negb (isMapped o) && bool_decide (Exact.reason o = Some "fetch_error"))
                 results.
Proof.
  intros s isMapped. unfold s, Exact.summarize.
  match goal with |- context [foldl ?f ?i results] => set (step := f); set (init := i) end.
  assert (∀ (l : list Exact.Outcome) (init : Exact.Summary),
            let s := foldl step init l in
            Exact.processed s = Exact.processed init
            ∧ Exact.summary_mapped s = Exact.summary_mapped init + countWhere isMapped l
            ∧ Exact.unresolved s
              = Exact.unresolved init + countWhere (λ o, negb (isMapped o)) l
            ∧ Exact.fetch_errors s
              = Exact.fetch_errors init
                + countWhere (λ o, negb (isMapped o)
                                   && bool_decide (Exact.reason o = Some "fetch_error")) l)
    as Hgen.
  { clear init. induction l as [|o l IH]; intros init.
    { unfold countWhere. simpl. lia. }
    cbn [foldl]. destruct (IH (step init o)) as (Hp & Hm & Hu & He).
    cbv zeta in *. rewrite Hp, Hm, Hu, He, !countWhere_cons.
    unfold step, isMapped. destruct (Exact.mapped o) as [m|]; cbn [Exact.processed
      Exact.summary_mapped Exact.unresolved Exact.fetch_errors].
    - rewrite (bool_decide_eq_true_2 (is_Some (Some m))) by (by eexists).
      cbn [negb andb]. lia.
    - rewrite (bool_decide_eq_false_2 (is_Some None)) by (by intros [? ?]).
      cbn [negb andb]. destruct (bool_decide (Exact.reason o = Some "fetch_error")); lia. }
  destruct (Hgen results init) as (Hp & Hm & Hu & He).
  cbv zeta in *. unfold init in *. cbn [Exact.processed Exact.summary_mapped
    Exact.unresolved Exact.fetch_errors] in *.
  split; [done|]. split; [lia|]. split; lia.
Qed.

Lemma exact_mergeRow_license (match_ : option Exact.Outcome) (row : Row.t) :
  Row.license (Exact.mergeRow match_ row)
  = match match_ with
    | Some o =>
      match Exact.mapped o with
      | Some m => Some (Exact.bc_id m)
      | None => Row.license row
      end
    | None => Row.license row
    end.
Proof. destruct match_ as [[? ? ? ? ? [?|] ? ? ?]|]; reflexivity. Qed.

Lemma exact_mergeRow_unmapped (match_ : option Exact.Outcome) (row : Row.t) :
  (∀ o, match_ = Some o → Exact.mapped o = None) → Exact.mergeRow match_ row = row.
Proof.
  intros Hun. destruct match_ as [[? ? ? ? ? [m|] ? ? ?]|]; try reflexivity.
  by specialize (Hun _ eq_refl).
Qed.

Section ExactFacts.
Context `{Platform}.

(** The attempt loop ends with the outcome of a page or with the fetch
    error. *)
Lemma inspectAttempts_cases (listing : Row.t) (options : Exact.Options)
    (targetMap : gmap string Exact.Target) (retriesLeft : nat) : ∀ w : World,
  let outcome := (Exact.inspectAttempts listing options targetMap retriesLeft w).1 in
  (∃ (status : Z) (finalUrl text : string),
      outcome = Exact.pageOutcome listing targetMap status finalUrl text)
  ∨ (∃ message : string, outcome = Exact.fetchErrorOutcome listing message).
Proof.
  induction retriesLeft as [|n IH]; intros w; simpl; unfold bind, ret;
    destruct (fetchText _ _ w) as [[st finalUrl text|message] w1]; simpl.
  - left. eauto.
  - right. eauto.
  - destruct (bool_decide _); [apply IH | left; eauto].
  - apply IH.
Qed.

Lemma pageOutcome_url_id (listing : Row.t) (targetMap : gmap string Exact.Target)
    (status : Z) (finalUrl text : string) :
  Exact.url_id (Exact.pageOutcome listing targetMap status finalUrl text)
  = Row.url_id listing.
Proof. unfold Exact.pageOutcome. repeat case_match; reflexivity. Qed.

Lemma inspectListing_url_id (listing : Row.t) (options : Exact.Options)
    (targetMap : gmap string Exact.Target) (w : World) :
  Exact.url_id (Exact.inspectListing listing options targetMap w).1 = Row.url_id listing.
Proof.
  unfold Exact.inspectListing.
  destruct (inspectAttempts_cases listing options targetMap (Exact.retries options) w)
    as [(st & f & t & ->) | (e & ->)]; [apply pageOutcome_url_id | reflexivity].
Qed.

Lemma mapM_inspectListing_ids (options : Exact.Options)
    (targetMap : gmap string Exact.Target) (rows : list Row.t) : ∀ w : World,
  Exact.url_id <$> (mapM (λ row, Exact.inspectListing row options targetMap) rows w).1
  = Row.url_id <$> rows.
Proof.
  induction rows as [|row rows IH]; intros w; simpl; [done|].
  unfold bind, ret.
  pose proof (inspectListing_url_id row options targetMap w) as Hid.
  destruct (Exact.inspectListing row options targetMap w) as [o w1]. simpl in Hid.
  specialize (IH w1). destruct (mapM _ rows w1) as [os w2]. simpl in *.
  f_equal; done.
Qed.

(** What a mapped page outcome rests on: a detected URL that is a target
    of the mapped category, while no detected URL is a target of another
    category. *)
Lemma pageOutcome_mapped (listing : Row.t) (targetMap : gmap string Exact.Target)
    (status : Z) (finalUrl text : string) (m : Exact.MappedExact) :
  let outcome := Exact.pageOutcome listing targetMap status finalUrl text in
  Exact.mapped outcome = Some m →
  targetMap !! Exact.matched_url m
  = Some {| Exact.target_bc_id := Exact.bc_id m; Exact.target_name := Exact.name m |}
  ∧ Exact.matched_url m ∈ Exact.detected_urls outcome
  ∧ ∀ (d : CcUrl) (t : Exact.Target),
      d ∈ Exact.extractCcLicenseUrls text → targetMap !! canonical d = Some t →
      Exact.target_bc_id t = Exact.bc_id m.
Proof.
  unfold Exact.pageOutcome.
  set (detected := Exact.extractCcLicenseUrls text).
  set (matched := Exact.matchedOf targetMap detected).
  set (ids := JsSet.of_list (map (λ x, Exact.target_bc_id (Exact.m_target x)) matched)).
  assert (∀ x, x ∈ matched → Exact.target_bc_id (Exact.m_target x) ∈ ids) as Hids.
  { intros x Hx. apply JsSet_elem_of_of_list. to_fmap. apply list_elem_of_fmap. eauto. }
  assert (∀ x, x ∈ matched →
               Exact.m_detected x ∈ detected
               ∧ targetMap !! canonical (Exact.m_detected x) = Some (Exact.m_target x))
    as Hmatched.
  { intros x (d & Hd & Hx)%list_elem_of_omap.
    destruct (targetMap !! canonical d) as [t|] eqn:Ht; [|discriminate].
    injection Hx as <-. done. }
  destruct ids as [|bcId [|? ?]] eqn:Hset; destruct matched as [|first rest] eqn:Hm;
    cbn [Exact.mapped Exact.detected_urls]; try discriminate.
  intros [= <-]. cbn [Exact.matched_url Exact.bc_id Exact.name].
  destruct (Hmatched first ltac:(left)) as [Hdet Hlookup].
  pose proof (Hids first ltac:(left)) as Hfirst.
  apply list_elem_of_singleton in Hfirst.
  split; [|split].
  - rewrite Hlookup. f_equal. destruct (Exact.m_target first) as [b n]. simpl in *.
    by subst.
  - to_fmap. apply list_elem_of_fmap. eauto.
  - intros d t Hd Ht.
    assert ({| Exact.m_detected := d; Exact.m_target := t |} ∈ first :: rest) as Hin.
    { rewrite <- Hm. apply list_elem_of_omap. exists d. split; [done|]. by rewrite Ht. }
    apply Hids in Hin. by apply list_elem_of_singleton in Hin.
Qed.

(** Every entry of the target map belongs to a valid license: its URL is
    the license's own URL in canonical form or the URL of its name at one
    of the target versions. *)
Lemma buildLegitimateTargetMap_lookup (validLicenses : list License.t)
    (targetVersions : list string) (u : string) (t : Exact.Target) :
  Exact.buildLegitimateTargetMap validLicenses targetVersions !! u = Some t →
  ∃ l : License.t,
    l ∈ validLicenses
    ∧ t = {| Exact.target_bc_id := License.bc_id l; Exact.target_name := License.name l |}
    ∧ ((∃ base normalized, License.url l = Some base
                           ∧ Exact.normalizeCcLicenseUrl base = Some normalized
                           ∧ u = canonical normalized)
       ∨ ∃ version, version ∈ targetVersions
                    ∧ u = "https://creativecommons.org/licenses/" +:+ License.name l
                          +:+ "/" +:+ version +:+ "/").
Proof.
  unfold Exact.buildLegitimateTargetMap.
  match goal with |- context [foldl ?f ∅ validLicenses] => set (step := f) end.
  set (legit := λ (m : gmap string Exact.Target),
         ∀ (u : string) (t : Exact.Target), m !! u = Some t →
           ∃ l : License.t,
             l ∈ validLicenses
             ∧ t = {| Exact.target_bc_id := License.bc_id l;
                      Exact.target_name := License.name l |}
             ∧ ((∃ base normalized, License.url l = Some base
                                    ∧ Exact.normalizeCcLicenseUrl base = Some normalized
                                    ∧ u = canonical normalized)
                ∨ ∃ version, version ∈ targetVersions
                             ∧ u = "https://creativecommons.org/licenses/"
                                   +:+ License.name l +:+ "/" +:+ version +:+ "/")).
  assert (∀ (l : License.t) (entry : Exact.Target) (versions : list string)
            (m : gmap string Exact.Target) (u : string) (t : Exact.Target),
            foldl (λ m version,
                     <["https://creativecommons.org/licenses/" +:+ License.name l
                       +:+ "/" +:+ version +:+ "/" := entry]> m) m versions !! u = Some t →
            m !! u = Some t
            ∨ (t = entry
               ∧ ∃ version, version ∈ versions
                            ∧ u = "https://creativecommons.org/licenses/" +:+ License.name l
                                  +:+ "/" +:+ version +:+ "/")) as Hversions.
  { intros l entry versions. induction versions as [|v versions IH]; intros m u0 t0.
    { intros Hm. by left. }
    cbn [foldl]. intros [Hm | (-> & v' & Hv' & ->)]%IH.
    - destruct (decide ("https://creativecommons.org/licenses/" +:+ License.name l
                        +:+ "/" +:+ v +:+ "/" = u0)) as [<-|Hne].
      + rewrite lookup_insert_eq in Hm. injection Hm as <-.
        right. split; [done|]. exists v. split; [left | done].
      + rewrite lookup_insert_ne in Hm by done. by left.
    - right. split; [done|]. exists v'. split; [by right | done]. }
  assert (∀ (m : gmap string Exact.Target) (l : License.t),
            l ∈ validLicenses → legit m → legit (step m l)) as Hstep.
  { intros m l Hl Hm u0 t0 Hlookup. unfold step in Hlookup.
    apply Hversions in Hlookup as [Hbase | (-> & v & Hv & ->)].
    - destruct (License.url l) as [base|] eqn:Hurl; [|by apply Hm].
      destruct (Exact.normalizeCcLicenseUrl base) as [normalized|] eqn:Hnorm; [|by apply Hm].
      destruct (decide (canonical normalized = u0)) as [<-|Hne].
      + rewrite lookup_insert_eq in Hbase. injection Hbase as <-.
        exists l. split; [done|]. split; [done|]. left. eauto.
      + rewrite lookup_insert_ne in Hbase by done. by apply Hm.
    - exists l. split; [done|]. split; [done|]. right. eauto. }
  assert (∀ (ls : list License.t) (m : gmap string Exact.Target),
            (∀ l, l ∈ ls → l ∈ validLicenses) → legit m → legit (foldl step m ls)) as Hgen.
  { induction ls as [|l ls IH]; intros m Hls Hm; [done|].
    cbn [foldl]. apply IH.
    - intros l' Hl'. apply Hls. by right.
    - apply Hstep; [apply Hls; left | done]. }
  apply (Hgen validLicenses ∅); [done|].
  intros u0 t0 Hempty. by rewrite lookup_empty in Hempty.
Qed.

(** A license the exact fixer maps is a valid category, named in the
    outcome, and rests on a URL found on the page that is a legitimate
    target of that category: the category's own URL or the URL of its
    name at a target version.  No URL found on the page is a target of
    another category. *)
Theorem inspectListing_mapped_category (listing : Row.t) (options : Exact.Options)
    (validLicenses : list License.t) (w : World) (m : Exact.MappedExact) :
  let targetMap :=
    Exact.buildLegitimateTargetMap validLicenses (Exact.targetVersions options) in
  let outcome := (Exact.inspectListing listing options targetMap w).1 in
  Exact.mapped outcome = Some m →
  Exact.matched_url m ∈ Exact.detected_urls outcome
  ∧ (∀ (u : string) (t : Exact.Target),
       u ∈ Exact.detected_urls outcome → targetMap !! u = Some t →
       Exact.target_bc_id t = Exact.bc_id m)
  ∧ ∃ l : License.t,
      l ∈ validLicenses
      ∧ License.bc_id l = Exact.bc_id m
      ∧ License.name l = Exact.name m
      ∧ ((∃ base normalized, License.url l = Some base
                             ∧ Exact.normalizeCcLicenseUrl base = Some normalized
                             ∧ Exact.matched_url m = canonical normalized)
         ∨ ∃ version, version ∈ Exact.targetVersions options
                      ∧ Exact.matched_url m
                        = "https://creativecommons.org/licenses/" +:+ License.name l
                          +:+ "/" +:+ version +:+ "/").
Proof.
  intros targetMap outcome. unfold outcome, Exact.inspectListing.
  destruct (inspectAttempts_cases listing options targetMap (Exact.retries options) w)
    as [(st & f & text & ->) | (e & ->)]; [|discriminate].
  intros Hmapped.
  destruct (pageOutcome_mapped listing targetMap st f text m Hmapped)
    as (Htarget & Hdetected & Hunique).
  split; [done|]. split.
  - intros u t Hu Ht.
    assert (Exact.detected_urls (Exact.pageOutcome listing targetMap st f text)
            = canonical <$> Exact.extractCcLicenseUrls text) as Hurls.
    { unfold Exact.pageOutcome. repeat case_match; reflexivity. }
    rewrite Hurls in Hu. apply list_elem_of_fmap in Hu as (d & -> & Hd).
    by apply (Hunique d).
  - apply buildLegitimateTargetMap_lookup in Htarget as (l & Hl & [= Hid Hname] & Hurl).
    exists l. split; [done|]. split; [done|]. split; done.
Qed.

(** An outcome of the exact fixer copies the record's identity, carries a
    mapping or a reason and never both, and has no status exactly when
    every attempt failed: then the reason is [fetch_error], the error is
    set and nothing was detected. *)
Theorem inspectListing_outcome_shape (listing : Row.t) (options : Exact.Options)
    (targetMap : gmap string Exact.Target) (w : World) :
  let outcome := (Exact.inspectListing listing options targetMap w).1 in
  (Exact.url_id outcome = Row.url_id listing
   ∧ Exact.url outcome = Row.url listing
   ∧ Exact.title outcome = Row.title listing)
  ∧ (Exact.reason outcome = None ↔ is_Some (Exact.mapped outcome))
  ∧ (Exact.status outcome = None ↔ Exact.reason outcome = Some "fetch_error")
  ∧ (Exact.status outcome = None ↔ is_Some (Exact.error outcome))
  ∧ (Exact.status outcome = None → Exact.detected_urls outcome = []).
Proof.
  intros outcome. unfold outcome, Exact.inspectListing.
  destruct (inspectAttempts_cases listing options targetMap (Exact.retries options) w)
    as [(st & f & text & ->) | (e & ->)].
  - unfold Exact.pageOutcome.
    set (detected := Exact.extractCcLicenseUrls text).
    set (matched := Exact.matchedOf targetMap detected).
    assert (Exact.unresolvedReason detected matched st ≠ "fetch_error") as Hreason.
    { destruct (unresolvedReason_cases detected matched st) as [->|[->| ->]];
        discriminate. }
    destruct (JsSet.of_list _) as [|bcId [|? ?]]; destruct matched as [|first rest];
      cbn [Exact.url_id Exact.url Exact.title Exact.reason Exact.mapped Exact.status
           Exact.error Exact.detected_urls];
      (split; [done|]);
      (split; [split; [intros Hr; first [discriminate Hr | by eexists]
                      | intros [x Hx]; first [discriminate Hx | done]]|]);
      (split; [split; [done | intros [= ?]; done]|]);
      (split; [split; [done | by intros [? ?]] | done]).
  - cbn [Exact.fetchErrorOutcome Exact.url_id Exact.url Exact.title Exact.reason
         Exact.mapped Exact.status Exact.error Exact.detected_urls].
    split; [done|]. split; [split; [done | by intros [? ?]]|].
    split; [done|]. split; [split; [by eexists | done] | done].
Qed.

(** The parts of what the exact fixer's [main] returns. *)
Lemma exact_main_unfold (options : Exact.Options) (generatedAt : string)
    (files : Accelerated.Files) (w : World) :
  let urls := Accelerated.urls files in
  let validLicenses := Accelerated.validLicensesOf (Accelerated.licenses files) in
  let targetMap :=
    Exact.buildLegitimateTargetMap validLicenses (Exact.targetVersions options) in
  let missingRows := filter (λ u, Accelerated.missing u = true) urls in
  let toProcess := match Exact.limit options with
                   | None => missingRows
                   | Some n => take n missingRows
                   end in
  let results := (mapM (λ row, Exact.inspectListing row options targetMap) toProcess w).1 in
  let merged := Exact.mergeOutcomes results urls in
  let done := (Exact.main options generatedAt files w).1 in
  Exact.results done.2 = results
  ∧ Exact.summary done.2 = Exact.summarize results
  ∧ Exact.missing_before (Exact.dataset done.2) = Z.of_nat (length missingRows)
  ∧ Exact.missing_after (Exact.dataset done.2) = countWhere Accelerated.missing merged
  ∧ Accelerated.urls done.1.1 = (if Exact.write options then merged else urls)
  ∧ Exact.url_id <$> results = Row.url_id <$> toProcess.
Proof.
  intros urls validLicenses targetMap missingRows toProcess results merged done.
  unfold done, merged, results, Exact.main, bind, ret.
  pose proof (mapM_inspectListing_ids options targetMap toProcess w) as Hids.
  fold urls. fold validLicenses. fold targetMap. fold missingRows. fold toProcess.
  destruct (mapM _ toProcess w) as [rs w']. simpl in *.
  split; [done|]. split; [done|]. split; [done|]. split; [done|].
  split; [by destruct (Exact.write options) | done].
Qed.

(** The accounts of one pass of the exact fixer on records with unique ids. *)
Lemma exact_pass_accounts (options : Exact.Options) (generatedAt : string)
    (files : Accelerated.Files) (w : World) :
  NoDup (Row.url_id <$> Accelerated.urls files) →
  let done := (Exact.main options generatedAt files w).1 in
  let d := Exact.dataset done.2 in
  let s := Exact.summary done.2 in
  Exact.missing_after d = Exact.missing_before d - Exact.summary_mapped s
  ∧ Exact.summary_mapped s + Exact.unresolved s = Exact.processed s
  ∧ Exact.processed s
    = match Exact.limit options with
      | None => Exact.missing_before d
      | Some n => Z.min (Z.of_nat n) (Exact.missing_before d)
      end
  ∧ (Exact.summary_mapped s = 0 → Accelerated.urls done.1.1 = Accelerated.urls files).
Proof.
  intros Hnd done d s. unfold d, s, done.
  destruct (exact_main_unfold options generatedAt files w)
    as (Hresults & Hsummary & Hbefore & Hafter & Hurls & Hids).
  cbv zeta in *. rewrite Hsummary, Hbefore, Hafter, Hurls. clear Hsummary Hbefore Hafter Hurls.
  set (urls := Accelerated.urls files) in *.
  set (missingRows := filter (λ u, Accelerated.missing u = true) urls) in *.
  set (n := default (length missingRows) (Exact.limit options)).
  assert (match Exact.limit options with
          | None => missingRows
          | Some n => take n missingRows
          end = take n missingRows) as Htake.
  { unfold n. destruct (Exact.limit options); [done|]. simpl. by rewrite firstn_all. }
  rewrite Htake in *.
  set (results := (mapM _ (take n missingRows) w).1) in *.
  destruct (exact_summarize_mapped results) as (Hp & Hm & Hu & _). cbv zeta in *.
  set (isMapped := λ o : Exact.Outcome, bool_decide (is_Some (Exact.mapped o))) in *.
  pose proof (countWhere_negb isMapped results) as Hsplit.
  assert (NoDup (Row.url_id <$> missingRows)) as Hndm by (by apply NoDup_fmap_filter).
  assert (length results = length (take n missingRows)) as Hlen
    by (by rewrite <- (length_fmap Exact.url_id), Hids, length_fmap).
  set (found := λ row : Row.t, Exact.resultsById results !! Row.url_id row).
  set (unmapped := λ x : option Exact.Outcome,
         match x with
         | Some o => negb (isMapped o)
         | None => true
         end).
  assert (countWhere Accelerated.missing (Exact.mergeOutcomes results urls)
          = countWhere (λ row, unmapped (found row)) missingRows) as Hcount.
  { unfold Exact.mergeOutcomes. to_fmap. rewrite countWhere_fmap.
    unfold missingRows. rewrite countWhere_filter. apply countWhere_ext. intros row.
    unfold Accelerated.missing. rewrite exact_mergeRow_license. fold (found row).
    unfold unmapped, isMapped. destruct (found row) as [o|]; [|done].
    destruct (Exact.mapped o) as [m|].
    - rewrite bool_decide_eq_false_2 by done.
      by rewrite (bool_decide_eq_true_2 (is_Some (Some m))) by (by eexists).
    - by rewrite (bool_decide_eq_false_2 (is_Some None)) by (by intros [? ?]). }
  assert (countWhere (λ row, unmapped (found row)) (take n missingRows)
          = countWhere (λ o, negb (isMapped o)) results) as Htaken.
  { rewrite <- (countWhere_fmap found unmapped).
    unfold found, Exact.resultsById. to_fmap.
    rewrite (lookups_of_results Row.url_id Exact.url_id); [| |done].
    - by rewrite countWhere_fmap.
    - rewrite Hids. rewrite <- (take_drop n missingRows), fmap_app in Hndm.
      by apply NoDup_app in Hndm as [? _]. }
  assert (countWhere (λ row, unmapped (found row)) (drop n missingRows)
          = Z.of_nat (length (drop n missingRows))) as Hdropped.
  { apply countWhere_all. intros row Hrow.
    assert (found row = None) as ->; [|done].
    apply Map_of_lookup_None. to_fmap. rewrite <- list_fmap_compose.
    change (Row.url_id row ∉ Exact.url_id <$> results). rewrite Hids.
    rewrite <- (take_drop n missingRows), fmap_app in Hndm.
    apply NoDup_app in Hndm as (_ & Hdisjoint & _).
    intros Hin. apply (Hdisjoint _ Hin). apply list_elem_of_fmap. eauto. }
  assert (length missingRows = (length (take n missingRows) + length (drop n missingRows))%nat)
    as Hparts by (by rewrite <- length_app, take_drop).
  split; [|split; [|split]].
  - rewrite Hcount, <- (take_drop n missingRows) at 1.
    rewrite countWhere_app, Htaken, Hdropped, Hm. lia.
  - rewrite Hp, Hm, Hu. exact Hsplit.
  - rewrite Hp, Hlen. unfold n. destruct (Exact.limit options) as [k|]; simpl.
    + rewrite length_take. lia.
    + by rewrite firstn_all.
  - intros Hnone. destruct (Exact.write options); [|done].
    unfold Exact.mergeOutcomes. to_fmap.
    rewrite <- (list_fmap_id urls) at 2. apply list_fmap_ext. intros i row _. simpl.
    apply exact_mergeRow_unmapped. intros o Ho.
    apply Map_of_lookup_Some in Ho. to_fmap.
    apply list_elem_of_fmap in Ho as (o' & [= _ ->] & Hin).
    destruct (Exact.mapped o') as [m|] eqn:Hmapped; [|done]. exfalso.
    assert (0 < countWhere isMapped results); [|lia].
    apply list_elem_of_split in Hin as (l1 & l2 & ->).
    rewrite countWhere_app, countWhere_cons. unfold isMapped at 2. rewrite Hmapped.
    rewrite (bool_decide_eq_true_2 (is_Some (Some m))) by (by eexists).
    pose proof (countWhere_nonneg isMapped l1). pose proof (countWhere_nonneg isMapped l2).
    lia.
Qed.

(** The report of a pass of the exact fixer on records with unique ids:
    what is left without a license is what was missing less what the pass
    mapped; the pass processes the missing records up to its limit; and a
    pass that maps nothing changes no record. *)
Theorem exact_main_progress (options : Exact.Options) (generatedAt : string)
    (files : Accelerated.Files) (w : World) :
  NoDup (Row.url_id <$> Accelerated.urls files) →
  let done := (Exact.main options generatedAt files w).1 in
  let d := Exact.dataset done.2 in
  let s := Exact.summary done.2 in
  Exact.missing_after d = Exact.missing_before d - Exact.summary_mapped s
  ∧ Exact.summary_mapped s + Exact.unresolved s = Exact.processed s
  ∧ Exact.processed s
    = match Exact.limit options with
      | None => Exact.missing_before d
      | Some n => Z.min (Z.of_nat n) (Exact.missing_before d)
      end
  ∧ (Exact.summary_mapped s = 0 → Accelerated.urls done.1.1 = Accelerated.urls files).
Proof. exact (exact_pass_accounts options generatedAt files w). Qed.

End ExactFacts.

Lemma inspectListing_mapped_category_witness :
  ∃ l : License.t,
    l ∈ Accelerated.validLicensesOf (Accelerated.licenses ExactCases.oneMissing)
    ∧ License.bc_id l = 3.
Proof.
  destruct (inspectListing_mapped_category (H := Sample.scripted ExactCases.ccPage)
              (Sample.row 1 ExactCases.pageUrl None None) Sample.exactWrite
              (Accelerated.validLicensesOf (Accelerated.licenses ExactCases.oneMissing))
              0%nat
              {| Exact.bc_id := 3; Exact.name := "by";
                 Exact.matched_url := ExactCases.byUrl |}
              eq_refl) as (_ & _ & l & Hl & Hid & _).
  exists l. split; [exact Hl | exact Hid].
Defined.

Lemma exact_main_progress_witness :
  let report := (Exact.main (H := Sample.scripted ExactCases.ccPage) Sample.exactWrite
                   "2024-05-01T00:00:00.000Z" ExactCases.oneMissing 0%nat).1.2 in
  Exact.missing_after (Exact.dataset report)
  = Exact.missing_before (Exact.dataset report) - Exact.summary_mapped (Exact.summary report).
Proof.
  apply (exact_main_progress (H := Sample.scripted ExactCases.ccPage) Sample.exactWrite
           "2024-05-01T00:00:00.000Z" ExactCases.oneMissing 0%nat).
  apply (bool_decide_unpack _). vm_compute. exact I.
Defined.

(** ** Multi-pass orchestrator: the pass cap, crashes, and running on *)

Section OrchestratorEnds.

Variable passResult : nat → Exhaustive.PassResult.
Variable options : Exhaustive.Options.

Lemma exitAfter_None_cap (n : nat) (report : Exhaustive.PassReport) :
  passResult n = Exhaustive.PassDone report →
  Exhaustive.exitAfter passResult options n = None →
  (0 < Exhaustive.maxPasses options)%nat → (n < Exhaustive.maxPasses options)%nat.
Proof.
  unfold Exhaustive.exitAfter. intros -> Hnone Hcap.
  destruct (bool_decide _); [discriminate|].
  destruct (_ && _); [discriminate|].
  destruct (0 <? Exhaustive.maxPasses options)%nat eqn:Hpos;
    [|apply Nat.ltb_ge in Hpos; lia].
  destruct (Nat.leb_spec (Exhaustive.maxPasses options) n); [discriminate | done].
Qed.

Lemma loop_within_cap (fuel : nat) : ∀ p : nat,
  (p < Exhaustive.maxPasses options)%nat →
  (Exhaustive.maxPasses options ≤ p + fuel)%nat →
  ∃ n : nat,
    (p < n ≤ Exhaustive.maxPasses options)%nat
    ∧ (Exhaustive.loop passResult options fuel p
         (Exhaustive.noProgressAfter passResult p) = Exhaustive.Crashed n
       ∨ ∃ why, Exhaustive.loop passResult options fuel p
                  (Exhaustive.noProgressAfter passResult p) = Exhaustive.Done n why).
Proof.
  induction fuel as [|fuel IH]; intros p Hp Hfuel; [lia|].
  rewrite loop_step.
  destruct (passResult (S p)) as [|report] eqn:Hpass.
  { exists (S p). split; [lia | by left]. }
  destruct (Exhaustive.exitAfter passResult options (S p)) as [why|] eqn:Hexit.
  { exists (S p). split; [lia | right; by exists why]. }
  pose proof (exitAfter_None_cap (S p) report Hpass Hexit ltac:(lia)) as Hnext.
  destruct (IH (S p) Hnext ltac:(lia)) as (n & Hn & Hend).
  exists n. split; [lia | done].
Qed.

(** With a pass cap the loop ends, by an exit or by the failure of a
    pass, after at most that many passes. *)
Theorem main_ends_within_cap (fuel : nat) :
  (0 < Exhaustive.maxPasses options)%nat →
  (Exhaustive.maxPasses options ≤ fuel)%nat →
  ∃ n : nat,
    (1 ≤ n ≤ Exhaustive.maxPasses options)%nat
    ∧ (Exhaustive.main passResult options fuel = Exhaustive.Crashed n
       ∨ ∃ why, Exhaustive.main passResult options fuel = Exhaustive.Done n why).
Proof.
  intros Hcap Hfuel.
  destruct (loop_within_cap fuel 0 Hcap ltac:(lia)) as (n & Hn & Hend).
  exists n. split; [lia | exact Hend].
Qed.

Lemma loop_running (fuel : nat) : ∀ p : nat,
  (∀ k : nat, (p < k)%nat →
     passResult k ≠ Exhaustive.PassFailed
     ∧ Exhaustive.exitAfter passResult options k = None) →
  Exhaustive.loop passResult options fuel p (Exhaustive.noProgressAfter passResult p)
  = Exhaustive.StillRunning.
Proof.
  induction fuel as [|fuel IH]; intros p Hon; [reflexivity|].
  rewrite loop_step. destruct (Hon (S p) ltac:(lia)) as [Hok Hnone].
  destruct (passResult (S p)) as [|report]; [done|].
  rewrite Hnone. apply IH. intros k Hk. apply Hon. lia.
Qed.

(** Without a pass cap, and with the stall rule off or a mapping in
    every pass, the loop has no way out but completion or a failing
    pass: while records stay unresolved it runs on, whatever the number
    of passes it is allowed. *)
Theorem main_runs_on (fuel : nat) :
  Exhaustive.maxPasses options = 0%nat →
  Exhaustive.stopAfterNoProgressPasses options = 0%nat
  ∨ (∀ k : nat, (1 ≤ k)%nat → Exhaustive.mappedAt passResult k ≠ 0) →
  (∀ k : nat, (1 ≤ k)%nat →
     ∃ report, passResult k = Exhaustive.PassDone report
               ∧ Exhaustive.missingAfter report ≠ Some 0) →
  Exhaustive.main passResult options fuel = Exhaustive.StillRunning.
Proof.
  intros Hcap Hstall Hpasses. apply (loop_running fuel 0). intros k Hk.
  destruct (Hpasses k ltac:(lia)) as (report & Hpass & Hmissing).
  split; [by rewrite Hpass|].
  unfold Exhaustive.exitAfter. rewrite Hpass, Hcap.
  rewrite bool_decide_eq_false_2 by done.
  assert ((0 <? Exhaustive.stopAfterNoProgressPasses options)%nat
          && (Exhaustive.stopAfterNoProgressPasses options
              <=? Exhaustive.noProgressAfter passResult k)%nat = false) as ->; [|done].
  destruct Hstall as [-> | Hmapped]; [done|].
  destruct k as [|k]; [lia|]. simpl Exhaustive.noProgressAfter.
  rewrite countNoProgress_reset by (apply Hmapped; lia).
  destruct (Exhaustive.stopAfterNoProgressPasses options); reflexivity.
Qed.

Lemma loop_crashed (fuel : nat) : ∀ p n : nat,
  Exhaustive.loop passResult options fuel p (Exhaustive.noProgressAfter passResult p)
  = Exhaustive.Crashed n
  ↔ (p < n ≤ p + fuel)%nat
    ∧ passResult n = Exhaustive.PassFailed
    ∧ ∀ m : nat, (p < m < n)%nat →
        passResult m ≠ Exhaustive.PassFailed
        ∧ Exhaustive.exitAfter passResult options m = None.
Proof.
  induction fuel as [|fuel IH]; intros p n.
  { split; [discriminate | intros [? _]; lia]. }
  rewrite loop_step.
  destruct (passResult (S p)) as [|report] eqn:Hpass.
  { split.
    - intros [= <-]. split; [lia|]. split; [done|]. intros m Hm. lia.
    - intros (Hn & Hfail & Hbefore). destruct (decide (n = S p)) as [->|Hne]; [done|].
      destruct (Hbefore (S p) ltac:(lia)) as [Hok _]. by rewrite Hpass in Hok. }
  destruct (Exhaustive.exitAfter passResult options (S p)) as [why|] eqn:Hexit.
  { split; [discriminate|]. intros (Hn & Hfail & Hbefore).
    destruct (decide (n = S p)) as [->|Hne]; [by rewrite Hpass in Hfail|].
    destruct (Hbefore (S p) ltac:(lia)) as [_ Hnone]. by rewrite Hexit in Hnone. }
  rewrite IH. split.
  - intros (Hn & Hfail & Hbefore). split; [lia|]. split; [done|].
    intros m Hm. destruct (decide (m = S p)) as [->|Hne].
    + split; [by rewrite Hpass | done].
    + apply Hbefore. lia.
  - intros (Hn & Hfail & Hbefore).
    assert (n ≠ S p) by (intros ->; by rewrite Hpass in Hfail).
    split; [lia|]. split; [done|]. intros m Hm. apply Hbefore. lia.
Qed.

(** The loop is lost to a failing pass exactly when that pass is the
    first to fail and no pass before it met the stopping rule. *)
Theorem main_crashes (fuel n : nat) :
  Exhaustive.main passResult options fuel = Exhaustive.Crashed n
  ↔ (1 ≤ n ≤ fuel)%nat
    ∧ passResult n = Exhaustive.PassFailed
    ∧ ∀ m : nat, (1 ≤ m < n)%nat →
        passResult m ≠ Exhaustive.PassFailed
        ∧ ¬ Exhaustive.stopsAfter passResult options m.
Proof.
  unfold Exhaustive.main. rewrite (loop_crashed fuel 0 n). split.
  - intros (Hn & Hfail & Hbefore). split; [lia|]. split; [done|].
    assert (∀ k : nat, (1 ≤ k ≤ n - 1)%nat → passResult k ≠ Exhaustive.PassFailed) as Hok
      by (intros k Hk; apply Hbefore; lia).
    intros m Hm. split; [apply Hbefore; lia|].
    apply (proj1 (first_exit_first_stop passResult options (n - 1) Hok)); [|lia].
    intros j Hj. apply Hbefore. lia.
  - intros (Hn & Hfail & Hbefore). split; [lia|]. split; [done|].
    assert (∀ k : nat, (1 ≤ k ≤ n - 1)%nat → passResult k ≠ Exhaustive.PassFailed) as Hok
      by (intros k Hk; apply Hbefore; lia).
    intros m Hm. split; [apply Hbefore; lia|].
    apply (proj2 (first_exit_first_stop passResult options (n - 1) Hok)); [|lia].
    intros j Hj. apply Hbefore. lia.
Qed.

End OrchestratorEnds.

Lemma main_ends_within_cap_witness :
  let capped := {| Exhaustive.maxPasses := 2;
                   Exhaustive.stopAfterNoProgressPasses := 0;
                   Exhaustive.sleepMs := 0;
                   Exhaustive.passOptions := Sample.exactWrite |} in
  ∃ n : nat,
    (1 ≤ n ≤ 2)%nat
    ∧ (Exhaustive.main Sample.stalled capped 5 = Exhaustive.Crashed n
       ∨ ∃ why, Exhaustive.main Sample.stalled capped 5 = Exhaustive.Done n why).
Proof.
  intros capped. apply (main_ends_within_cap Sample.stalled capped 5); simpl; lia.
Defined.

Lemma main_runs_on_witness :
  let unlimited := {| Exhaustive.maxPasses := 0;
                      Exhaustive.stopAfterNoProgressPasses := 0;
                      Exhaustive.sleepMs := 0;
                      Exhaustive.passOptions := Sample.exactWrite |} in
  Exhaustive.main Sample.stalled unlimited 100 = Exhaustive.StillRunning.
Proof.
  intros unlimited. apply (main_runs_on Sample.stalled unlimited 100).
  - reflexivity.
  - left. reflexivity.
  - intros k _. eexists. split; [reflexivity | discriminate].
Defined.

(** ** The reconciler: status counts, the order of the reports, and what a
    replay leaves alone *)

(** The [final_status_counts] of the reconciler's report: every record is
    counted once, under its normalized status; a record with an absent or
    unknown status counts as active. *)
Theorem summarizeStatuses_partition (rows : list Row.t) :
  let s := ReconcileReport.summarizeStatuses rows in
  let has := λ (st : string) (row : Row.t),
               String.eqb (Accelerated.normalizedStatus (Row.status row)) st in
  ReconcileReport.active s = countWhere (has "active") rows
  ∧ ReconcileReport.dead s = countWhere (has "dead") rows
  ∧ ReconcileReport.unverified s = countWhere (has "unverified") rows
  ∧ ReconcileReport.active s + ReconcileReport.dead s + ReconcileReport.unverified s
    = Z.of_nat (length rows)
  ∧ ReconcileReport.dead s = countWhere (λ row, bool_decide (Row.status row = Some "dead")) rows
  ∧ ReconcileReport.unverified s
    = countWhere (λ row, bool_decide (Row.status row = Some "unverified")) rows.
Proof.
  intros s has.
  assert (∀ (l : list Row.t) (init : ReconcileReport.StatusCounts),
            let s := foldl ReconcileReport.countStatus init l in
            ReconcileReport.active s = ReconcileReport.active init + countWhere (has "active") l
            ∧ ReconcileReport.dead s = ReconcileReport.dead init + countWhere (has "dead") l
            ∧ ReconcileReport.unverified s
              = ReconcileReport.unverified init + countWhere (has "unverified") l
            ∧ ReconcileReport.active s + ReconcileReport.dead s + ReconcileReport.unverified s
              = ReconcileReport.active init + ReconcileReport.dead init
                + ReconcileReport.unverified init + Z.of_nat (length l)) as Hgen.
  { assert (∀ (init : ReconcileReport.StatusCounts) (row : Row.t),
              let one := λ st : string, if has st row then 1 else 0 in
              ReconcileReport.active (ReconcileReport.countStatus init row)
              = ReconcileReport.active init + one "active"
              ∧ ReconcileReport.dead (ReconcileReport.countStatus init row)
                = ReconcileReport.dead init + one "dead"
              ∧ ReconcileReport.unverified (ReconcileReport.countStatus init row)
                = ReconcileReport.unverified init + one "unverified"
              ∧ one "active" + one "dead" + one "unverified" = 1) as Hstep.
    { intros init row. unfold ReconcileReport.countStatus, has, Accelerated.normalizedStatus.
      destruct (Row.status row) as [st|]; [|simpl; lia].
      destruct (String.eqb_spec st "active") as [->|Hna]; [simpl; lia|].
      destruct (String.eqb_spec st "dead") as [->|Hnd]; [simpl; lia|].
      destruct (String.eqb_spec st "unverified") as [->|Hnu]; simpl; lia. }
    induction l as [|row l IH]; intros init.
    { unfold countWhere. simpl. lia. }
    cbn [foldl length]. destruct (IH (ReconcileReport.countStatus init row)) as (Ha & Hd & Hu & Hsum).
    destruct (Hstep init row) as (Ha1 & Hd1 & Hu1 & Hone).
    cbv zeta in *. rewrite !countWhere_cons. lia. }
  destruct (Hgen rows {| ReconcileReport.active := 0; ReconcileReport.dead := 0;
                         ReconcileReport.unverified := 0 |}) as (Ha & Hd & Hu & Hsum).
  cbv zeta in *. simpl in Ha, Hd, Hu, Hsum. unfold s, ReconcileReport.summarizeStatuses.
  split; [done|]. split; [done|]. split; [done|]. split; [lia|].
  split.
  - rewrite Hd. apply countWhere_ext. intros row. unfold has, Accelerated.normalizedStatus.
    destruct (Row.status row) as [st|]; [|done].
    destruct (String.eqb_spec st "active") as [->|Hna]; [done|].
    destruct (String.eqb_spec st "dead") as [->|Hnd]; [done|].
    destruct (String.eqb_spec st "unverified") as [->|Hnu]; simpl.
    + done.
    + rewrite bool_decide_eq_false_2 by congruence. done.
  - rewrite Hu. apply countWhere_ext. intros row. unfold has, Accelerated.normalizedStatus.
    destruct (Row.status row) as [st|]; [|done].
    destruct (String.eqb_spec st "active") as [->|Hna]; [done|].
    destruct (String.eqb_spec st "dead") as [->|Hnd]; [done|].
    destruct (String.eqb_spec st "unverified") as [->|Hnu]; simpl.
    + done.
    + rewrite bool_decide_eq_false_2 by congruence. done.
Qed.

(** *** The sort of the reports *)

Lemma insertReport_Permutation (r : Reconcile.Report) (l : list Reconcile.Report) :
  Reconcile.insertReport r l ≡ₚ r :: l.
Proof.
  induction l as [|x l IH]; [done|]. simpl.
  destruct (Reconcile.localeCompare (Reconcile.generated_at r) (Reconcile.generated_at x));
    try done.
  rewrite IH. apply perm_swap.
Qed.

Lemma sortReports_same_reports (reports : list Reconcile.Report) :
  Reconcile.sortReports reports ≡ₚ reports.
Proof.
  unfold Reconcile.sortReports.
  induction reports as [|r reports IH]; simpl; [done|].
  by rewrite insertReport_Permutation, IH.
Qed.

(** The sort of the reconciler is the sort under the order of the code
    units. *)
Lemma sortReports_codeUnits (reports : list Reconcile.Report) :
  Reconcile.sortReports reports
  = ReportOrder.sortReports Reconcile.localeCompare reports.
Proof.
  unfold Reconcile.sortReports, ReportOrder.sortReports.
  induction reports as [|r reports IH]; [done|]. cbn [foldr]. rewrite IH.
  generalize (foldr (ReportOrder.insertReport Reconcile.localeCompare) [] reports).
  induction l as [|x l IHl]; [done|]. cbn [Reconcile.insertReport ReportOrder.insertReport].
  by rewrite IHl.
Qed.

(** The order of the code units is a collation. *)
Lemma codeUnits_opposite (a b : string) :
  Reconcile.localeCompare b a = CompOpp (Reconcile.localeCompare a b).
Proof. unfold Reconcile.localeCompare. apply String_as_OT.cmp_antisym. Qed.

Lemma codeUnits_transitive (a b c : string) :
  Reconcile.localeCompare a b ≠ Gt → Reconcile.localeCompare b c ≠ Gt →
  Reconcile.localeCompare a c ≠ Gt.
Proof.
  unfold Reconcile.localeCompare. intros Hab Hbc Hac.
  assert (String_as_OT.lt c a) as Hca
    by (apply String_as_OT.cmp_lt; rewrite String_as_OT.cmp_antisym, Hac; done).
  destruct (String_as_OT.cmp a b) eqn:Eab; [| |done].
  - apply String_as_OT.cmp_eq in Eab as ->.
    apply String_as_OT.cmp_lt in Hca. rewrite String_as_OT.cmp_antisym, Hca in Hbc. done.
  - apply String_as_OT.cmp_lt in Eab.
    pose proof (String_as_OT.lt_trans _ _ _ Hca Eab) as Hcb.
    apply String_as_OT.cmp_lt in Hcb. rewrite String_as_OT.cmp_antisym, Hcb in Hbc. done.
Qed.

Section SortFacts.

Variable localeCompare : string → string → comparison.

(** The collation is an order: comparing the other way round gives the
    opposite answer, and not being after is transitive. *)
Hypothesis collation_opposite :
  ∀ a b : string, localeCompare b a = CompOpp (localeCompare a b).
Hypothesis collation_transitive :
  ∀ a b c : string,
    localeCompare a b ≠ Gt → localeCompare b c ≠ Gt → localeCompare a c ≠ Gt.

Abbreviation insert := (ReportOrder.insertReport localeCompare).
Abbreviation notAfter := (ReportOrder.notAfter localeCompare).
Abbreviation sameTime := (ReportOrder.sameTime localeCompare).

Lemma insert_Permutation (r : Reconcile.Report) (l : list Reconcile.Report) :
  insert r l ≡ₚ r :: l.
Proof.
  induction l as [|x l IH]; [done|]. cbn [ReportOrder.insertReport].
  destruct (localeCompare (Reconcile.generated_at r) (Reconcile.generated_at x));
    try done.
  rewrite IH. apply perm_swap.
Qed.

Lemma insert_HdRel (x r : Reconcile.Report) (l : list Reconcile.Report) :
  notAfter x r → HdRel notAfter x l → HdRel notAfter x (insert r l).
Proof.
  intros Hxr Hl. destruct l as [|y l]; cbn [ReportOrder.insertReport].
  - by constructor.
  - apply HdRel_inv in Hl.
    destruct (localeCompare (Reconcile.generated_at r) (Reconcile.generated_at y));
      by constructor.
Qed.

Lemma insert_Sorted (r : Reconcile.Report) (l : list Reconcile.Report) :
  Sorted notAfter l → Sorted notAfter (insert r l).
Proof.
  induction l as [|x l IH]; intros Hsorted; cbn [ReportOrder.insertReport].
  - repeat constructor.
  - apply Sorted_inv in Hsorted as [Hl Hx].
    destruct (localeCompare (Reconcile.generated_at r) (Reconcile.generated_at x))
      eqn:Hcmp.
    + constructor; [by constructor|]. constructor.
      unfold ReportOrder.notAfter. by rewrite Hcmp.
    + constructor; [by constructor|]. constructor.
      unfold ReportOrder.notAfter. by rewrite Hcmp.
    + constructor; [by apply IH|]. apply insert_HdRel; [|done].
      unfold ReportOrder.notAfter. rewrite collation_opposite, Hcmp. done.
Qed.

(** A report keeps its place among the reports of its own time. *)
Lemma insert_stable (t : string) (r : Reconcile.Report) (l : list Reconcile.Report) :
  filter (sameTime t) (insert r l) = filter (sameTime t) (r :: l).
Proof.
  induction l as [|x l IH]; [done|]. cbn [ReportOrder.insertReport].
  destruct (localeCompare (Reconcile.generated_at r) (Reconcile.generated_at x))
    eqn:Hcmp; try done.
  rewrite (filter_cons _ x), IH, !(filter_cons _ r), (filter_cons _ x).
  destruct (decide (sameTime t x)) as [Hx|Hx];
    destruct (decide (sameTime t r)) as [Hr|Hr]; try done.
  exfalso. unfold ReportOrder.sameTime in Hx, Hr.
  apply (collation_transitive (Reconcile.generated_at r) t (Reconcile.generated_at x)).
  - by rewrite Hr.
  - by rewrite collation_opposite, Hx.
  - exact Hcmp.
Qed.

(** The reports are replayed oldest first, whatever the collation of the
    host: the sort returns the reports it is given, none of them after a
    later one, and reports whose times the collation does not tell apart
    stay in the order of the directory listing. *)
Theorem sortReports_sorted (reports : list Reconcile.Report) :
  let sorted := ReportOrder.sortReports localeCompare reports in
  sorted ≡ₚ reports
  ∧ StronglySorted notAfter sorted
  ∧ ∀ t : string, filter (sameTime t) sorted = filter (sameTime t) reports.
Proof.
  intros sorted. unfold sorted, ReportOrder.sortReports.
  assert (Transitive notAfter) as Htrans.
  { intros a b c. unfold ReportOrder.notAfter. apply collation_transitive. }
  split; [|split].
  - induction reports as [|r reports IH]; cbn [foldr]; [done|].
    by rewrite insert_Permutation, IH.
  - apply Sorted_StronglySorted; [done|].
    induction reports as [|r reports IH]; cbn [foldr]; [constructor|].
    by apply insert_Sorted.
  - intros t. induction reports as [|r reports IH]; cbn [foldr]; [done|].
    by rewrite insert_stable, !filter_cons, IH.
Qed.

End SortFacts.

(** Under the order of the code units, which is the collation of the
    timestamps the fixers write, a report of May listed after a report of
    June is replayed before it. *)
Lemma sortReports_sorted_witness :
  let may := {| Reconcile.report_file := "b.json";
                Reconcile.generated_at := "2024-05-01T00:00:00.000Z";
                Reconcile.results := [] |} in
  let june := {| Reconcile.report_file := "a.json";
                 Reconcile.generated_at := "2024-06-01T00:00:00.000Z";
                 Reconcile.results := [] |} in
  Reconcile.sortReports [june; may] = [may; june]
  ∧ StronglySorted (ReportOrder.notAfter Reconcile.localeCompare)
      (ReportOrder.sortReports Reconcile.localeCompare [june; may]).
Proof.
  intros may june. split; [reflexivity|].
  apply (sortReports_sorted Reconcile.localeCompare codeUnits_opposite
           codeUnits_transitive [june; may]).
Defined.

(** *** What a replay leaves alone *)

(** What the reconciler never writes. *)
Abbreviation fixedPart :=
  (λ row : Row.t, (Row.url_id row, Row.title row, Row.tags row, Row.favorite row)).

Lemma reconcileRow_fixedPart (ts : string) (o : Outcome.t) (row : Row.t) :
  fixedPart (Reconcile.reconcileRow ts o row) = fixedPart row.
Proof. unfold Reconcile.reconcileRow. destruct (Outcome.mapped o); reflexivity. Qed.

(** One turn of the inner loop: the fixed parts stay, and so does every
    row with another id than the result's. *)
Lemma applyResult_frame (urls : list Row.t) (ts : string) (state : list Row.t * Reconcile.Changes)
    (result : Outcome.t) :
  fixedPart <$> state.1 = fixedPart <$> urls →
  let state' := Reconcile.applyResult (Reconcile.rowsById urls) ts state result in
  fixedPart <$> state'.1 = fixedPart <$> urls
  ∧ (∀ (j : nat) (row : Row.t),
       urls !! j = Some row → Row.url_id row ≠ Outcome.url_id result →
       state'.1 !! j = state.1 !! j)
  ∧ (∀ id : Z, id ∈ Reconcile.touchedIds state'.2 →
       id ∈ Reconcile.touchedIds state.2
       ∨ (id = Outcome.url_id result ∧ id ∈ Row.url_id <$> urls))
  ∧ (NoDup (Reconcile.touchedIds state.2) → NoDup (Reconcile.touchedIds state'.2)).
Proof.
  intros Hfixed. unfold Reconcile.applyResult.
  destruct (Reconcile.rowsById urls !! Outcome.url_id result) as [i|] eqn:Hi;
    [|by split; [|split; [|split; [left|]]]].
  destruct (state.1 !! i) as [row|] eqn:Hrow;
    [|by split; [|split; [|split; [left|]]]].
  apply rowsById_Some_inv in Hi as (row0 & Hi0 & Hid0).
  assert (fixedPart row = fixedPart row0) as Hsame.
  { assert ((fixedPart <$> state.1) !! i = (fixedPart <$> urls) !! i) as Hl
      by (by rewrite Hfixed).
    rewrite !list_lookup_fmap, Hrow, Hi0 in Hl. simpl in Hl. congruence. }
  cbv zeta. cbn [fst snd Reconcile.touchedIds Reconcile.countChanges].
  split; [|split; [|split]].
  - rewrite list_fmap_insert, reconcileRow_fixedPart, <- Hfixed.
    apply list_insert_id. by rewrite list_lookup_fmap, Hrow.
  - intros j r Hj Hne. apply list_lookup_insert_ne. intros ->.
    rewrite Hi0 in Hj. injection Hj as <-. done.
  - intros id [->|Hin]%JsSet_elem_of_add; [|by left]. right.
    assert (Row.url_id row = Row.url_id row0) as -> by (by injection Hsame).
    split; [done|]. apply list_elem_of_fmap. exists row0.
    split; [done|]. by apply (list_elem_of_lookup_2 _ i).
  - apply JsSet_NoDup_add.
Qed.

(** The records after a replay, in their order, have the ids, titles,
    tags and favorite marks they had; a record that no result of any
    report names is left exactly as it was; and the reconciler counts a
    record as touched at most once, for an id that a result names. *)
Theorem reconcile_main_frame (urls : list Row.t) (files : list Reconcile.ReportFile) :
  let replayed := Reconcile.main urls files in
  let named := λ id : Z,
    ∃ (report : Reconcile.Report) (result : Outcome.t),
      report ∈ Reconcile.loadReports files
      ∧ result ∈ Reconcile.results report
      ∧ Outcome.url_id result = id in
  fixedPart <$> replayed.1 = fixedPart <$> urls
  ∧ (∀ (j : nat) (row : Row.t),
       urls !! j = Some row → ¬ named (Row.url_id row) → replayed.1 !! j = Some row)
  ∧ NoDup (Reconcile.touchedIds replayed.2)
  ∧ ∀ id : Z, id ∈ Reconcile.touchedIds replayed.2 →
      named id ∧ id ∈ Row.url_id <$> urls.
Proof.
  intros replayed named. unfold replayed, Reconcile.main.
  pose proof (sortReports_same_reports (Reconcile.loadReports files)) as Hperm.
  set (namedIn := λ (reports : list Reconcile.Report) (id : Z),
         ∃ (report : Reconcile.Report) (result : Outcome.t),
           report ∈ reports ∧ result ∈ Reconcile.results report
           ∧ Outcome.url_id result = id).
  set (good := λ (reports : list Reconcile.Report) (state : list Row.t * Reconcile.Changes),
         fixedPart <$> state.1 = fixedPart <$> urls
         ∧ (∀ (j : nat) (row : Row.t),
              urls !! j = Some row → ¬ namedIn reports (Row.url_id row) →
              state.1 !! j = Some row)
         ∧ NoDup (Reconcile.touchedIds state.2)
         ∧ ∀ id : Z, id ∈ Reconcile.touchedIds state.2 →
             namedIn reports id ∧ id ∈ Row.url_id <$> urls).
  assert (∀ (ts : string) (results seen : list Outcome.t)
            (state : list Row.t * Reconcile.Changes),
            let state' := foldl (Reconcile.applyResult (Reconcile.rowsById urls) ts)
                                state results in
            fixedPart <$> state.1 = fixedPart <$> urls →
            fixedPart <$> state'.1 = fixedPart <$> urls
            ∧ (∀ (j : nat) (row : Row.t),
                 urls !! j = Some row → Row.url_id row ∉ Outcome.url_id <$> results →
                 state'.1 !! j = state.1 !! j)
            ∧ (∀ id : Z, id ∈ Reconcile.touchedIds state'.2 →
                 id ∈ Reconcile.touchedIds state.2
                 ∨ (id ∈ Outcome.url_id <$> results ∧ id ∈ Row.url_id <$> urls))
            ∧ (NoDup (Reconcile.touchedIds state.2) → NoDup (Reconcile.touchedIds state'.2)))
    as Hreport.
  { intros ts results _. induction results as [|result results IH]; intros state.
    { cbv zeta. cbn [foldl]. intros Hfixed.
      split; [done|]. split; [done|]. split; [by left | done]. }
    cbv zeta. cbn [foldl]. intros Hfixed.
    destruct (applyResult_frame urls ts state result Hfixed) as (Hf1 & Hsame1 & Hin1 & Hnd1).
    cbv zeta in *.
    destruct (IH _ Hf1) as (Hf2 & Hsame2 & Hin2 & Hnd2).
    split; [done|]. split; [|split].
    - intros j row Hj Hnotin. rewrite fmap_cons in Hnotin.
      apply not_elem_of_cons in Hnotin as [Hne Hnotin].
      rewrite (Hsame2 j row Hj Hnotin). by apply (Hsame1 j row).
    - intros id [Hin | [Hin Hurls]]%Hin2.
      + destruct (Hin1 id Hin) as [? | [-> ?]]; [by left|].
        right. split; [|done]. rewrite fmap_cons. left.
      + right. split; [|done]. rewrite fmap_cons. by right.
    - intros Hnd. by apply Hnd2, Hnd1. }
  assert (∀ (reports seen : list Reconcile.Report) (state : list Row.t * Reconcile.Changes),
            good seen state →
            good (seen ++ reports)
                 (foldl (Reconcile.applyReport (Reconcile.rowsById urls)) state reports))
    as Hall.
  { induction reports as [|report reports IH]; intros seen state Hgood.
    { by rewrite app_nil_r. }
    cbn [foldl].
    replace (seen ++ report :: reports) with ((seen ++ [report]) ++ reports)
      by (by rewrite <- app_assoc).
    apply IH. destruct Hgood as (Hfixed & Hkept & Hnd & Htouched).
    unfold Reconcile.applyReport.
    destruct (Hreport (Reconcile.generated_at report) (Reconcile.results report) [] state
                Hfixed) as (Hf & Hsame & Hin & Hnd').
    cbv zeta in *.
    assert (∀ id, namedIn seen id → namedIn (seen ++ [report]) id) as Hwiden.
    { intros id (r & o & Hr & Ho & Hid). exists r, o.
      split; [apply elem_of_app; by left | done]. }
    assert (∀ id, id ∈ Outcome.url_id <$> Reconcile.results report →
                  namedIn (seen ++ [report]) id) as Hnew.
    { intros id (o & -> & Ho)%list_elem_of_fmap. exists report, o.
      split; [apply elem_of_app; right; left | done]. }
    split; [done|]. split; [|split].
    - intros j row Hj Hunnamed. rewrite (Hsame j row Hj).
      + apply (Hkept j row Hj). intros Hn. by apply Hunnamed, Hwiden.
      + intros Hn. by apply Hunnamed, Hnew.
    - by apply Hnd'.
    - intros id [Hold | [Hres Hurls]]%Hin.
      + destruct (Htouched id Hold) as [Hn Hu]. split; [by apply Hwiden | done].
      + split; [by apply Hnew | done]. }
  assert (good [] (urls, Reconcile.noChanges)) as Hstart.
  { split; [done|]. split; [done|]. split; [apply NoDup_nil_2|].
    intros id Hid. by apply elem_of_nil in Hid. }
  destruct (Hall (Reconcile.sortReports (Reconcile.loadReports files)) [] _ Hstart)
    as (Hfixed & Hkept & Hnd & Htouched).
  rewrite app_nil_l in Hkept, Htouched.
  assert (∀ id, namedIn (Reconcile.sortReports (Reconcile.loadReports files)) id ↔ named id)
    as Hnamed.
  { intros id. unfold namedIn, named. split; intros (r & o & Hr & Ho & Hid);
      exists r, o; (split; [|done]).
    - by rewrite <- Hperm.
    - by rewrite Hperm. }
  split; [done|]. split; [|split; [done|]].
  - intros j row Hj Hunnamed. apply (Hkept j row Hj). by rewrite Hnamed.
  - intros id Hid. destruct (Htouched id Hid) as [Hn Hu]. split; [by apply Hnamed | done].
Qed.

(** ** The dataset verifier on what the fixers write *)

(** The id loop of the verifier, as a loop over the ids. *)
Lemma seenAndDuplicates_ids (urls : list Row.t) :
  Verify.seenAndDuplicates urls
  = foldl (λ (state : JsSet.t * list Z) (id : Z),
             if JsSet.has id state.1 then (state.1, state.2 ++ [id])
             else (JsSet.add id state.1, state.2))
          ([], []) (Row.url_id <$> urls).
Proof.
  unfold Verify.seenAndDuplicates. generalize (@nil Z, @nil Z).
  induction urls as [|row urls IH]; intros state; [done|].
  rewrite fmap_cons. cbn [foldl]. apply IH.
Qed.

Lemma duplicates_foldl (ids : list Z) : ∀ (seen : JsSet.t) (dups : list Z),
  let state := foldl (λ (state : JsSet.t * list Z) (id : Z),
                        if JsSet.has id state.1 then (state.1, state.2 ++ [id])
                        else (JsSet.add id state.1, state.2))
                     (seen, dups) ids in
  (∃ more, state.2 = dups ++ more)
  ∧ (state.2 = dups ↔ NoDup ids ∧ ∀ x, x ∈ ids → x ∉ seen).
Proof.
  induction ids as [|id ids IH]; intros seen dups; cbv zeta; cbn [foldl fst snd].
  - split; [exists []; by rewrite app_nil_r|]. split; [|done].
    intros _. split; [apply NoDup_nil_2|]. intros x Hx. by apply elem_of_nil in Hx.
  - destruct (JsSet.has id seen) eqn:Hhas.
    + assert (id ∈ seen) as Hseen by (by apply bool_decide_eq_true_1 in Hhas).
      destruct (IH seen (dups ++ [id])) as ([more Hmore] & _). cbv zeta in Hmore.
      split; [exists ([id] ++ more); by rewrite Hmore, <- app_assoc|].
      split.
      * intros Heq. rewrite Hmore, <- app_assoc in Heq.
        apply (f_equal length) in Heq. rewrite !length_app in Heq. simpl in Heq. lia.
      * intros [_ Hfresh]. exfalso. apply (Hfresh id); [left | done].
    + assert (id ∉ seen) as Hseen by (by apply bool_decide_eq_false_1 in Hhas).
      destruct (IH (JsSet.add id seen) dups) as (Hmore & Hiff). cbv zeta in *.
      split; [done|]. rewrite Hiff, NoDup_cons. split.
      * intros [Hnd Hfresh]. split.
        -- split; [|done]. intros Hin. apply (Hfresh id Hin).
           apply JsSet_elem_of_add. by left.
        -- intros x [->|Hx]%elem_of_cons; [done|].
           intros Hin. apply (Hfresh x Hx). apply JsSet_elem_of_add. by right.
      * intros [[Hid Hnd] Hfresh]. split; [done|].
        intros x Hx [->|Hin]%JsSet_elem_of_add; [done|].
        apply (Hfresh x); [by right | done].
Qed.

(** The verifier reports no duplicate id exactly when no two records
    share an id. *)
Theorem duplicateUrlIds_nil_iff (urls : list Row.t) :
  Verify.duplicateUrlIds urls = [] ↔ NoDup (Row.url_id <$> urls).
Proof.
  unfold Verify.duplicateUrlIds. rewrite seenAndDuplicates_ids.
  destruct (duplicates_foldl (Row.url_id <$> urls) [] []) as [_ Hiff].
  cbv zeta in Hiff. rewrite Hiff. split; [by intros [? _]|].
  intros Hnd. split; [done|]. intros x _ Hx. by apply elem_of_nil in Hx.
Qed.

(** The counter the verifier keeps for a license. *)
Lemma licenseCounts_lookup (visible : list Row.t) (k : option Z) :
  default 0 (Verify.licenseCounts visible !! k)
  = Z.of_nat (length (filter (λ row, Row.license row = k) visible)).
Proof.
  unfold Verify.licenseCounts.
  assert (∀ (l : list Row.t) (m : gmap (option Z) Z),
            default 0 (foldl (λ counts row, Accelerated.bumpKey (Row.license row) counts)
                             m l !! k)
            = default 0 (m !! k)
              + Z.of_nat (length (filter (λ row, Row.license row = k) l))) as Hgen.
  { induction l as [|row l IH]; intros m; cbn [foldl]; [simpl; lia|].
    rewrite IH, bumpKey_lookup_key, length_filter_cons. lia. }
  rewrite Hgen, lookup_empty. simpl. lia.
Qed.

Lemma omap_nil_all {A B} (f : A → option B) (l : list A) :
  (∀ x, x ∈ l → f x = None) → omap f l = [].
Proof.
  induction l as [|x l IH]; intros Hall; [done|].
  cbn [omap list_omap]. rewrite (Hall x) by left.
  apply IH. intros y Hy. apply Hall. by right.
Qed.

Section VerifyFacts.
Context `{Platform}.

(** After a writing run of the accelerated fixer the license file passes
    the verifier's count check against the rewritten records, and the
    verifier reports the duplicate ids it reported before the run. *)
Theorem accelerated_run_passes_count_check (options : Options) (ts : string)
    (files : Accelerated.Files) (w : World) :
  write options = true →
  let after := (Accelerated.main options ts files w).1.1.1 in
  Verify.licenseCountMismatches (Accelerated.urls after) (Accelerated.licenses after) = []
  ∧ Verify.duplicateUrlIds (Accelerated.urls after)
    = Verify.duplicateUrlIds (Accelerated.urls files).
Proof.
  intros Hw after. unfold after, Accelerated.main, bind, ret.
  destruct (mapM _ _ w) as [results w']. cbn [fst snd]. rewrite Hw.
  cbn [Accelerated.urls Accelerated.licenses].
  set (validLicenses := Accelerated.validLicensesOf (Accelerated.licenses files)).
  set (V := Accelerated.validBcIds (Accelerated.makeContext options files)).
  set (merged := Accelerated.mergeOutcomes ts results (Accelerated.urls files)).
  set (cleaned := Accelerated.cleanedLicenses validLicenses
                    (Accelerated.countsByBcId V merged)).
  assert (Verify.validLicenseIds (map Accelerated.toRaw cleaned) = V) as Hvalid.
  { unfold Verify.validLicenseIds, V, Accelerated.makeContext.
    cbn [Accelerated.validBcIds]. fold validLicenses. f_equal.
    unfold cleaned, Accelerated.cleanedLicenses. to_fmap.
    induction validLicenses as [|l ls IH]; [done|].
    rewrite !fmap_cons. cbn [omap list_omap]. simpl. by rewrite IH. }
  split.
  - unfold Verify.licenseCountMismatches. apply omap_nil_all.
    intros raw Hraw. to_fmap.
    apply list_elem_of_fmap in Hraw as (c & -> & Hc).
    unfold cleaned, Accelerated.cleanedLicenses in Hc. to_fmap.
    apply list_elem_of_fmap in Hc as (l & -> & Hl).
    cbn [Accelerated.toRaw RawLicense.bc_id RawLicense.count License.bc_id License.count].
    rewrite bool_decide_eq_true_2; [done|]. f_equal.
    rewrite licenseCounts_lookup. unfold Verify.visibleRows.
    change (map Accelerated.toRaw ?x) with (Accelerated.toRaw <$> x) in Hvalid.
    rewrite Hvalid, list_filter_filter.
    unfold Accelerated.countsByBcId.
    rewrite accelerated_counts_foldl, lookup_empty. simpl default.
    rewrite Z.add_0_l.
    f_equal. f_equal. apply list_filter_iff. intros row. tauto.
  - unfold Verify.duplicateUrlIds. rewrite !seenAndDuplicates_ids.
    unfold merged. by rewrite mergeOutcomes_ids.
Qed.

End VerifyFacts.

Lemma accelerated_run_passes_count_check_witness :
  let after := (Accelerated.main (H := Sample.scripted Sample.archived)
                  (Sample.writing DEFAULTS) "2024-05-01T00:00:00.000Z"
                  Sample.goneFiles 0%nat).1.1.1 in
  Verify.licenseCountMismatches (Accelerated.urls after) (Accelerated.licenses after) = [].
Proof.
  apply (accelerated_run_passes_count_check (H := Sample.scripted Sample.archived)
           (Sample.writing DEFAULTS) "2024-05-01T00:00:00.000Z" Sample.goneFiles 0%nat).
  reflexivity.
Defined.

(** ** Requests and detected URLs *)

Section TrafficFacts.
Context `{Platform}.

(** The fallbacks cost no request unless the live page answered 404
    without deciding: when the live answer is not a 404, or decides, or
    both remote fallbacks are switched off, [inspectRow] asks for nothing
    but the record's own URL, and its outcome names neither an archive
    nor an alias. *)
Theorem inspectRow_fallbacks_only_after_404 (row : Row.t) (ctx : Accelerated.Context)
    (w : World) :
  let o := Accelerated.options ctx in
  let live := Accelerated.fetchWithRetries (Row.url row) (timeoutMs o) (retries o) w in
  let done := Accelerated.inspectRow row ctx w in
  Accelerated.is404 live.1 = false
  ∨ is_Some (Accelerated.liveStage row ctx live.1)
  ∨ (useArchive o = false ∧ useSearchAlias o = false) →
  done.2 = live.2
  ∧ Outcome.archive_url done.1 = None
  ∧ Outcome.alias_url done.1 = None.
Proof.
  intros o live done Hcase. unfold done, live in *.
  rewrite inspectRow_unfold, earlierStages_unfold. fold o in Hcase |- *.
  destruct (Accelerated.fetchWithRetries _ _ _ w) as [answer w1]. cbn [fst snd] in *.
  destruct (Accelerated.liveStage row ctx answer) as [d|] eqn:Hlive.
  { apply liveStage_Some in Hlive as (m & _ & ->). done. }
  assert (useArchive o && Accelerated.is404 answer = false
          ∧ useSearchAlias o && Accelerated.is404 answer = false) as [Harchive Halias].
  { destruct Hcase as [-> | [[? ?] | [-> ->]]]; [|done|done].
    by rewrite !andb_false_r. }
  unfold Accelerated.archiveStage, Accelerated.aliasStage, ret. fold o.
  rewrite Harchive, Halias. cbn [fst snd].
  destruct (Accelerated.consensusStage row ctx answer) as [d|] eqn:Hcons; [|done].
  apply consensusStage_Some in Hcons as (top & ->). done.
Qed.

Lemma extractCcLicenseUrls_NoDup (html : string) :
  NoDup (canonical <$> Exact.extractCcLicenseUrls html).
Proof.
  unfold Exact.extractCcLicenseUrls.
  match goal with |- context [foldl ?f _ _] => set (step := f) end.
  assert (∀ ms urls, NoDup (canonical <$> urls) →
            NoDup (canonical <$> foldl step urls ms)) as Hgen.
  { induction ms as [|m ms IH]; intros urls Hurls; cbn [foldl]; [done|].
    apply IH. unfold step.
    destruct (Exact.normalizeCcLicenseUrl (group 2 m)) as [normalized|]; [|done].
    case_bool_decide as Hseen; [done|].
    rewrite fmap_app. apply NoDup_app. split; [done|]. split; [|apply NoDup_singleton].
    intros x Hx ->%list_elem_of_singleton. done. }
  apply Hgen, NoDup_nil_2.
Qed.

(** The URLs an outcome of the exact fixer lists as detected are pairwise
    different. *)
Theorem inspectListing_detected_distinct (listing : Row.t) (options : Exact.Options)
    (targetMap : gmap string Exact.Target) (w : World) :
  NoDup (Exact.detected_urls (Exact.inspectListing listing options targetMap w).1).
Proof.
  unfold Exact.inspectListing.
  destruct (inspectAttempts_cases listing options targetMap (Exact.retries options) w)
    as [(st & f & text & ->) | (e & ->)]; [|apply NoDup_nil_2].
  assert (Exact.detected_urls (Exact.pageOutcome listing targetMap st f text)
          = canonical <$> Exact.extractCcLicenseUrls text) as ->.
  { unfold Exact.pageOutcome. repeat case_match; reflexivity. }
  apply extractCcLicenseUrls_NoDup.
Qed.

End TrafficFacts.

Lemma inspectRow_fallbacks_only_after_404_witness :
  let P := Sample.scripted Sample.conflicting in
  let ctx := Accelerated.makeContext (H := P) DEFAULTS Sample.twoCategories in
  (Accelerated.inspectRow (H := P) (Sample.row 2 Sample.plainUrl None None) ctx 0%nat).2
  = 1%nat.
Proof.
  intros P ctx.
  apply (inspectRow_fallbacks_only_after_404 (H := P)
           (Sample.row 2 Sample.plainUrl None None) ctx 0%nat).
  left. reflexivity.
Defined.

Lemma accelerated_main_counts_witness :
  let run := (Accelerated.main (H := Sample.scripted Sample.archived)
                (Sample.writing DEFAULTS) "2024-05-01T00:00:00.000Z"
                Sample.goneFiles 0%nat).1 in
  0 = activeReferencing 4 (Accelerated.urls run.1.1).
Proof.
  apply (accelerated_main_counts (H := Sample.scripted Sample.archived)
           (Sample.writing DEFAULTS) "2024-05-01T00:00:00.000Z" Sample.goneFiles 0%nat
           {| License.name := "by-nc";
              License.url := Some "https://creativecommons.org/licenses/by-nc/3.0/";
              License.bc_id := 4; License.count := 0 |}).
  - reflexivity.
  - vm_compute. left.
Defined.

(** ** The orchestrator on real passes: it comes to an end *)

Lemma exact_mergeOutcomes_ids (results : list Exact.Outcome) (rows : list Row.t) :
  Row.url_id <$> Exact.mergeOutcomes results rows = Row.url_id <$> rows.
Proof.
  unfold Exact.mergeOutcomes. to_fmap. rewrite <- list_fmap_compose.
  apply list_fmap_ext. intros i row _. simpl. unfold Exact.mergeRow.
  repeat case_match; reflexivity.
Qed.

Section PassesFacts.
Context `{Platform}.

Variable options : Exhaustive.Options.
Variable clock : nat → string.
Variable files : Accelerated.Files.
Variable w : World.

Hypothesis unique_ids : NoDup (Row.url_id <$> Accelerated.urls files).

(** The records without a license after [n] passes. *)
Abbreviation left n :=
  (countWhere Accelerated.missing (Accelerated.urls (Passes.after options clock files w n).1)).
Abbreviation result := (Passes.passResult options clock files w).
Abbreviation threshold := (Exhaustive.stopAfterNoProgressPasses options).
Abbreviation streak := (Exhaustive.noProgressAfter (Passes.passResult options clock files w)).
Abbreviation exitAfter :=
  (Exhaustive.exitAfter (Passes.passResult options clock files w) options).

Lemma after_ids (n : nat) :
  Row.url_id <$> Accelerated.urls (Passes.after options clock files w n).1
  = Row.url_id <$> Accelerated.urls files.
Proof.
  induction n as [|n IH]; [done|]. cbn [Passes.after fst snd].
  destruct (exact_main_unfold (Passes.childOptions options) (clock (S n))
              (Passes.after options clock files w n).1
              (Passes.after options clock files w n).2) as (_ & _ & _ & _ & Hurls & _).
  cbv zeta in Hurls. rewrite Hurls. cbn [Passes.childOptions Exact.write].
  by rewrite exact_mergeOutcomes_ids.
Qed.

(** Pass [n + 1] reports what it leaves, which is what pass [n] left less
    what pass [n + 1] mapped. *)
Lemma pass_accounts (n : nat) :
  let report := Passes.reportOf options clock files w (S n) in
  Exact.missing_after (Exact.dataset report) = left (S n)
  ∧ left (S n) = left n - Exact.summary_mapped (Exact.summary report)
  ∧ 0 ≤ Exact.summary_mapped (Exact.summary report).
Proof.
  intros report. unfold report, Passes.reportOf.
  replace (S n - 1)%nat with n by lia. cbn [Passes.after fst snd].
  set (before := Passes.after options clock files w n).
  destruct (exact_main_unfold (Passes.childOptions options) (clock (S n))
              before.1 before.2) as (_ & Hsummary & Hbefore & Hafter & Hurls & _).
  destruct (exact_pass_accounts (Passes.childOptions options) (clock (S n))
              before.1 before.2) as (Hprogress & _).
  { unfold before. by rewrite after_ids. }
  cbv zeta in *. rewrite Hurls. cbn [Passes.childOptions Exact.write].
  rewrite <- Hafter. split; [done|]. split.
  - rewrite Hprogress, Hbefore. reflexivity.
  - rewrite Hsummary.
    destruct (exact_summarize_mapped
                (mapM (λ row, Exact.inspectListing row (Passes.childOptions options)
                                (Exact.buildLegitimateTargetMap
                                   (Accelerated.validLicensesOf
                                      (Accelerated.licenses before.1))
                                   (Exact.targetVersions (Passes.childOptions options))))
                      match Exact.limit (Passes.childOptions options) with
                      | Some n0 =>
                        take n0 (filter (λ u, Accelerated.missing u = true)
                                        (Accelerated.urls before.1))
                      | None => filter (λ u, Accelerated.missing u = true)
                                       (Accelerated.urls before.1)
                      end before.2).1) as (_ & -> & _).
    apply countWhere_nonneg.
Qed.

(** While no exit is taken the passes pay: each one either maps a record
    or lengthens the run of passes without progress, which stays below
    the threshold. *)
Lemma passes_descend (n : nat) :
  (0 < threshold)%nat →
  (∀ m : nat, (1 ≤ m ≤ n)%nat → exitAfter m = None) →
  (streak n < threshold)%nat
  ∧ left n * Z.of_nat threshold + (Z.of_nat threshold - 1 - Z.of_nat (streak n))
    ≤ left 0 * Z.of_nat threshold + Z.of_nat threshold - 1 - Z.of_nat n.
Proof.
  intros Hpos. induction n as [|n IH]; intros Hnone.
  { cbn [Exhaustive.noProgressAfter]. split; lia. }
  destruct IH as [Hstreak Hmeasure]; [intros m Hm; apply Hnone; lia|].
  pose proof (Hnone (S n) ltac:(lia)) as Hexit.
  destruct (pass_accounts n) as (_ & Hleft & Hmapped). cbv zeta in *.
  unfold Exhaustive.exitAfter in Hexit. cbn [Passes.passResult] in Hexit.
  cbn [Exhaustive.missingAfter Exhaustive.mapped] in Hexit.
  destruct (bool_decide _); [discriminate|].
  apply Nat.ltb_lt in Hpos as Hposb. rewrite Hposb in Hexit. cbn [andb] in Hexit.
  destruct (Nat.leb_spec threshold (streak (S n))) as [|Hbelow]; [discriminate|].
  split; [done|].
  cbn [Exhaustive.noProgressAfter] in Hbelow |- *.
  unfold Exhaustive.mappedAt in Hbelow |- *. cbn [Passes.passResult] in Hbelow |- *.
  cbn [Exhaustive.mapped] in Hbelow |- *.
  set (mapped := Exact.summary_mapped _) in *.
  unfold Exhaustive.countNoProgress in Hbelow |- *.
  destruct (Z.eqb_spec mapped 0) as [Hzero|Hsome].
  - rewrite Hleft, Hzero. lia.
  - assert (left (S n) * Z.of_nat threshold ≤ (left n - 1) * Z.of_nat threshold)
      by (apply Z.mul_le_mono_nonneg_r; lia).
    lia.
Qed.

Lemma first_exit (N : nat) :
  (∀ m : nat, (1 ≤ m ≤ N)%nat → exitAfter m = None)
  ∨ ∃ (n : nat) (why : Exhaustive.Reason),
      (1 ≤ n ≤ N)%nat ∧ exitAfter n = Some why
      ∧ ∀ m : nat, (1 ≤ m < n)%nat → exitAfter m = None.
Proof.
  induction N as [|N [Hnone | (n & why & Hn & Hexit & Hfirst)]].
  - left. intros m Hm. lia.
  - destruct (exitAfter (S N)) as [why|] eqn:Hexit.
    + right. exists (S N), why. split; [lia|]. split; [done|].
      intros m Hm. apply Hnone. lia.
    + left. intros m Hm. destruct (decide (m = S N)) as [->|]; [done|].
      apply Hnone. lia.
  - right. exists n, why. split; [lia | done].
Qed.

(** With the stall rule on, the orchestrator comes to an end on every
    dataset with unique ids, whatever the network answers: it takes an
    exit after at most [(missing + 1) * threshold] passes, [missing] being
    the number of records without a license at the start. *)
Theorem orchestrator_terminates :
  (0 < threshold)%nat →
  let missing := length (filter (λ row, Accelerated.missing row = true)
                                (Accelerated.urls files)) in
  ∃ (n : nat) (why : Exhaustive.Reason),
    (1 ≤ n ≤ (missing + 1) * threshold)%nat
    ∧ ∀ fuel : nat, (n ≤ fuel)%nat →
        Passes.main options clock files w fuel = Exhaustive.Done n why.
Proof.
  intros Hpos missing.
  assert (missing = Z.to_nat (left 0)) as ->
    by (unfold missing, countWhere; cbn [Passes.after fst]; by rewrite Nat2Z.id).
  set (N := ((Z.to_nat (left 0) + 1) * threshold)%nat).
  destruct (first_exit N) as [Hnone | (n & why & Hn & Hexit & Hfirst)].
  - exfalso. destruct (passes_descend N Hpos Hnone) as [Hstreak Hmeasure].
    pose proof (countWhere_nonneg Accelerated.missing
                  (Accelerated.urls (Passes.after options clock files w N).1)) as HN.
    pose proof (countWhere_nonneg Accelerated.missing
                  (Accelerated.urls (Passes.after options clock files w 0).1)) as H0.
    assert (0 ≤ left N * Z.of_nat threshold) by (apply Z.mul_nonneg_nonneg; lia).
    assert (Z.of_nat N = (left 0 + 1) * Z.of_nat threshold) as HNeq
      by (unfold N; rewrite Nat2Z.inj_mul, Nat2Z.inj_add, Z2Nat.id by lia; lia).
    lia.
  - exists n, why. split; [done|]. intros fuel Hfuel.
    unfold Passes.main, Exhaustive.main.
    apply (loop_reaches result options fuel 0 n why); [lia | done | |].
    + intros m Hm. apply Hfirst. lia.
    + intros k _. discriminate.
Qed.

End PassesFacts.

Lemma orchestrator_terminates_witness :
  ∃ (n : nat) (why : Exhaustive.Reason),
    (1 ≤ n ≤ 6)%nat
    ∧ ∀ fuel : nat, (n ≤ fuel)%nat →
        Passes.main (H := Sample.scripted ExactCases.ccPage) Exhaustive.DEFAULTS
          (λ _, "2024-05-01T00:00:00.000Z") ExactCases.oneMissing 0%nat fuel
        = Exhaustive.Done n why.
Proof.
  apply (orchestrator_terminates (H := Sample.scripted ExactCases.ccPage)
           Exhaustive.DEFAULTS (λ _, "2024-05-01T00:00:00.000Z") ExactCases.oneMissing
           0%nat).
  - apply (bool_decide_unpack _). vm_compute. exact I.
  - simpl. lia.
Defined.

(** ** The priority chain of the evidence reconciler *)

Lemma single_None (s : JsSet.t) : single s = None ↔ JsSet.size s ≠ 1.
Proof.
  unfold single, JsSet.size.
  destruct (Z.eqb_spec (Z.of_nat (length s)) 1) as [Hlen|Hlen]; [|done].
  destruct s as [|a [|b s]]; simpl in *; try lia. split; [discriminate | done].
Qed.

Lemma single_only (s : JsSet.t) (x : Z) : single s = Some x ↔ s = [x].
Proof.
  split; [apply single_Some|]. intros ->. reflexivity.
Qed.

(** The reconciler is a chain of four rules tried in order, the type
    markers, the three strategies together, the section links, the name
    markers: the decision is the only id of the first of these sets that
    holds exactly one id, tagged with that rule, and there is no decision
    exactly when none of the four sets holds exactly one id. *)
Theorem decideMappedId_priority (ev : Evidence) :
  let one (s : JsSet.t) := JsSet.size s = 1 in
  (decideMappedId ev = None
   ↔ ¬ one (typeIds ev) ∧ ¬ one (allIds ev) ∧ ¬ one (sectionIds ev) ∧ ¬ one (nameIds ev))
  ∧ ∀ d : MappedId,
      decideMappedId ev = Some d
      ↔ (typeIds ev = [bcId d] ∧ source d = "license_type")
        ∨ (¬ one (typeIds ev) ∧ allIds ev = [bcId d] ∧ source d = "combined_single")
        ∨ (¬ one (typeIds ev) ∧ ¬ one (allIds ev)
           ∧ sectionIds ev = [bcId d] ∧ source d = "license_section")
        ∨ (¬ one (typeIds ev) ∧ ¬ one (allIds ev) ∧ ¬ one (sectionIds ev)
           ∧ nameIds ev = [bcId d] ∧ source d = "license_name").
Proof.
  intros one. unfold one, decideMappedId.
  destruct (single (typeIds ev)) as [t|] eqn:Ht.
  { apply single_only in Ht. rewrite Ht. split.
    - split; [discriminate|]. intros [Hno _]. by destruct Hno.
    - intros [id src]. cbn [bcId source]. split.
      + intros [= <- <-]. by left.
      + intros [[[= <-] ->] | [[Hno _] | [[Hno _] | [Hno _]]]];
          [reflexivity | by destruct Hno..]. }
  apply single_None in Ht.
  destruct (single (allIds ev)) as [a|] eqn:Ha.
  { apply single_only in Ha. rewrite Ha. split.
    - split; [discriminate|]. intros (_ & Hno & _). by destruct Hno.
    - intros [id src]. cbn [bcId source]. split.
      + intros [= <- <-]. right. by left.
      + intros [[Hone _] | [(_ & [= <-] & ->) | [(_ & Hno & _) | (_ & Hno & _)]]];
          [|reflexivity | by destruct Hno..].
        exfalso. apply Ht. by rewrite Hone. }
  apply single_None in Ha.
  destruct (single (sectionIds ev)) as [s|] eqn:Hs.
  { apply single_only in Hs. rewrite Hs. split.
    - split; [discriminate|]. intros (_ & _ & Hno & _). by destruct Hno.
    - intros [id src]. cbn [bcId source]. split.
      + intros [= <- <-]. right. right. by left.
      + intros [[Hone _] | [(_ & Hone & _) | [(_ & _ & [= <-] & ->) | (_ & _ & Hno & _)]]];
          [| |reflexivity | by destruct Hno].
        * exfalso. apply Ht. by rewrite Hone.
        * exfalso. apply Ha. by rewrite Hone. }
  apply single_None in Hs.
  destruct (single (nameIds ev)) as [n|] eqn:Hn.
  { apply single_only in Hn. rewrite Hn. split.
    - split; [discriminate|]. intros (_ & _ & _ & Hno). by destruct Hno.
    - intros [id src]. cbn [bcId source]. split.
      + intros [= <- <-]. right. right. by right.
      + intros [[Hone _] | [(_ & Hone & _) | [(_ & _ & Hone & _) | (_ & _ & _ & [= <-] & ->)]]];
          [| | |reflexivity].
        * exfalso. apply Ht. by rewrite Hone.
        * exfalso. apply Ha. by rewrite Hone.
        * exfalso. apply Hs. by rewrite Hone. }
  apply single_None in Hn. split; [done|].
  intros d. split; [discriminate|].
  intros [[Hone _] | [(_ & Hone & _) | [(_ & _ & Hone & _) | (_ & _ & _ & Hone & _)]]];
    exfalso.
  - apply Ht. by rewrite Hone.
  - apply Ha. by rewrite Hone.
  - apply Hs. by rewrite Hone.
  - apply Hn. by rewrite Hone.
Qed.
